(** * format-docs: the templating core, embedded and verified

    The repository turns spreadsheet rows into filled documents:
    [Parser] reads CSV text (or a spreadsheet grid) into records,
    [Generator] fills a template, names the output files and packages
    them, and [Preview] keeps a cursor over the parsed rows.

    JavaScript strings are sequences of UTF-16 code units; they are
    modelled as [list N], one number per code unit.  Records (plain JS
    objects used as dictionaries) are [gmap]s from column name to cell
    value, and the [Set] of used archive names is a [gset]. *)

From Stdlib Require Import NArith ZArith Lia List Ascii String.
From Stdlib Require Import DecimalString DecimalN DecimalFacts.
From stdpp Require Import gmap list.

Local Open Scope N_scope.

(** ** JavaScript string primitives used by the sources *)

Module JS.

(** A string: its UTF-16 code units. *)
Abbreviation jsstring := (list N).

(** A string literal of the source (ASCII only), as code units. *)
Definition lit (s : string) : jsstring :=
  map N_of_ascii (list_ascii_of_string s).

Definition DQUOTE : N := 34.
Definition COMMA : N := 44.
Definition LF : N := 10.
Definition CR : N := 13.

(** [!text] on a string: only the empty string is falsy. *)
Definition falsy (s : jsstring) : bool :=
  match s with [] => true | _ => false end.

(** [String === String]. *)
Definition str_eqb (a b : jsstring) : bool := bool_decide (a = b).

(** ECMAScript WhiteSpace and LineTerminator code units: what
    [String.prototype.trim] strips and what [\s] matches. *)
Definition is_space (c : N) : bool :=
  ((9 <=? c) && (c <=? 13)) || (c =? 32) || (c =? 160) || (c =? 5760)
  || ((8192 <=? c) && (c <=? 8202)) || (c =? 8232) || (c =? 8233)
  || (c =? 8239) || (c =? 8287) || (c =? 12288) || (c =? 65279).

Fixpoint drop_while (p : N -> bool) (s : jsstring) : jsstring :=
  match s with
  | [] => []
  | c :: r => if p c then drop_while p r else s
  end.

(** [s.trim()]. *)
Definition trim (s : jsstring) : jsstring :=
  rev (drop_while is_space (rev (drop_while is_space s))).

(** [sep] is a prefix of [s]: what is left of [s] after it. *)
Fixpoint strip_prefix (sep s : jsstring) : option jsstring :=
  match sep with
  | [] => Some s
  | a :: sep' =>
      match s with
      | [] => None
      | b :: s' => if a =? b then strip_prefix sep' s' else None
      end
  end.

(** StringIndexOf, returning the text before and after the first
    occurrence of [sep] instead of its position. *)
Fixpoint cut (sep s : jsstring) : option (jsstring * jsstring) :=
  match strip_prefix sep s with
  | Some after => Some ([], after)
  | None =>
      match s with
      | [] => None
      | c :: r =>
          match cut sep r with
          | Some (before, after) => Some (c :: before, after)
          | None => None
          end
      end
  end.

(** The loop of [String.prototype.split] for a non-empty separator:
    cut at the next occurrence, continue after it.  Every round
    consumes at least one code unit, so [length s + 1] rounds are
    enough. *)
Fixpoint split_loop (fuel : nat) (sep s : jsstring) : list jsstring :=
  match fuel with
  | O => [s]
  | S fuel' =>
      match cut sep s with
      | Some (before, after) => before :: split_loop fuel' sep after
      | None => [s]
      end
  end.

(** [s.split(sep)] with a string separator and no limit. *)
Definition split (sep s : jsstring) : list jsstring :=
  match sep with
  | [] => map (fun c => [c]) s
  | _ => split_loop (S (length s)) sep s
  end.

(** [parts.join(glue)] on an array of strings. *)
Fixpoint join (glue : jsstring) (parts : list jsstring) : jsstring :=
  match parts with
  | [] => []
  | [p] => p
  | p :: rest => p ++ glue ++ join glue rest
  end.

(** [s.replace(pat, rep)] with a string pattern: the first
    occurrence only ([rep] holds no [$]). *)
Definition replace_first (pat rep s : jsstring) : jsstring :=
  match cut pat s with
  | Some (before, after) => before ++ rep ++ after
  | None => s
  end.

(** How a call ends: with a value, or with a thrown [Error] (its
    message). *)
Inductive completion (A : Type) : Type :=
| Normal (value : A)
| Throw (message : jsstring).
Arguments Normal {A} value.
Arguments Throw {A} message.

(** A record: a plain object with string keys and string values. *)
Abbreviation rowObj := (gmap (list N) (list N)).

(** [rowData[column] || fallback], for a column that [Object.prototype]
    does not define: the fallback is taken when the key is missing
    ([undefined]) and when the value is the empty string. *)
Definition get_or (rowData : rowObj) (column fallback : jsstring) : jsstring :=
  match rowData !! column with
  | Some value => if falsy value then fallback else value
  | None => fallback
  end.

(** [obj[key] = value] on an object made by [{}], [value] a string.
    The key [__proto__] is the accessor of [Object.prototype]: its
    setter ignores a string, so nothing is stored. *)
Definition assign (obj : rowObj) (key value : jsstring) : rowObj :=
  if str_eqb key (lit "__proto__") then obj else <[key := value]> obj.

(** [s.substring(0, n)]. *)
Definition substring0 (n : nat) (s : jsstring) : jsstring := take n s.

(** Number to string for a non-negative integer below 10^21, where
    JavaScript still writes all the digits (an array index or a
    counter is far below): its decimal digits. *)
Definition decimal (n : N) : jsstring :=
  lit (NilZero.string_of_uint (N.to_uint n)).

End JS.

Import JS.

(** ** Parser (src/unnamed/part_003, lines 1-177) *)

Module Parser.

(** The four loop variables of [parseCSVText]. *)
Record scanner := Scanner {
  lines : list (list jsstring);
  currentLine : list jsstring;
  currentValue : jsstring;
  insideQuotes : bool
}.

Definition start : scanner := Scanner [] [] [] false.

Definition add_char (c : N) (st : scanner) : scanner :=
  Scanner (lines st) (currentLine st) (currentValue st ++ [c])
    (insideQuotes st).

Definition toggle_quotes (st : scanner) : scanner :=
  Scanner (lines st) (currentLine st) (currentValue st)
    (negb (insideQuotes st)).

Definition end_value (st : scanner) : scanner :=
  Scanner (lines st) (currentLine st ++ [currentValue st]) []
    (insideQuotes st).

Definition end_line (st : scanner) : scanner :=
  Scanner (lines st ++ [currentLine st ++ [currentValue st]]) [] []
    (insideQuotes st).

(** The [for] loop of [parseCSVText]: [char] is [text[i]], [nextChar]
    is [text[i + 1]] ([None] for [undefined]). *)
Fixpoint scan (st : scanner) (text : jsstring) : scanner :=
  match text with
  | [] => st
  | char :: rest =>
      let nextChar := head rest in
      if char =? DQUOTE then
        if insideQuotes st && bool_decide (nextChar = Some DQUOTE) then
          match rest with
          | [] => add_char DQUOTE st
          | _ :: rest' => scan (add_char DQUOTE st) rest'
          end
        else scan (toggle_quotes st) rest
      else if (char =? COMMA) && negb (insideQuotes st) then
        scan (end_value st) rest
      else if ((char =? LF)
               || ((char =? CR) && bool_decide (nextChar = Some LF)))
              && negb (insideQuotes st) then
        if char =? CR then
          match rest with
          | [] => end_line st
          | _ :: rest' => scan (end_line st) rest'
          end
        else scan (end_line st) rest
      else if negb (char =? CR) then scan (add_char char st) rest
      else scan st rest
  end.

(** After the loop: the last value and line, if the text did not end
    on a line terminator. *)
Definition finish (st : scanner) : list (list jsstring) :=
  if negb (falsy (currentValue st)) || (0 <? length (currentLine st))%nat
  then lines st ++ [currentLine st ++ [currentValue st]]
  else lines st.

Definition parseCSVText (text : jsstring) : list (list jsstring) :=
  finish (scan start text).

Record ParseResult := {
  headers : list jsstring;
  rows : list rowObj
}.

(** [line.every(cell => !cell || cell.trim() === '')]. *)
Definition blank_line (line : list jsstring) : bool :=
  forallb (fun cell => falsy cell || str_eqb (trim cell) []) line.

(** [headers.forEach((header, index) => { rowObj[header] =
    line[index] !== undefined ? line[index] : ''; })] on a fresh
    object. *)
Definition to_rowObj (headers line : list jsstring) : rowObj :=
  fold_left
    (fun (rowObj : rowObj) (entry : nat * jsstring) =>
       assign rowObj entry.2 (default [] (line !! entry.1)))
    (imap pair headers) ∅.

(** The loop over the data lines: blank ones are skipped
    ([continue]), the others pushed on [rows]. *)
Fixpoint rows_loop (headers : list jsstring) (data : list (list jsstring))
    (rows : list rowObj) : list rowObj :=
  match data with
  | [] => rows
  | line :: more =>
      if blank_line line then rows_loop headers more rows
      else rows_loop headers more (rows ++ [to_rowObj headers line])
  end.

Definition csv_too_short : jsstring :=
  lit "Failed to parse CSV file: CSV must have at least a header row and one data row".

Definition excel_too_short : jsstring :=
  lit "Failed to parse Excel file: Spreadsheet must have at least a header row and one data row".

(** The grid of lines to records, shared by the two readers: the
    length test, the trimmed header line, the loop from index 1. *)
Definition grid_to_result (too_short : jsstring)
    (lines : list (list jsstring)) : completion ParseResult :=
  if (length lines <? 2)%nat then Throw too_short
  else
    let headers := map trim (default [] (head lines)) in
    Normal {| headers := headers;
              rows := rows_loop headers (drop 1 lines) [] |}.

(** [parseCSV], from the text the [FileReader] hands over. *)
Definition parseCSV (text : jsstring) : completion ParseResult :=
  grid_to_result csv_too_short (parseCSVText text).

(** [parseExcel], from [jsonData]: the grid that SheetJS's
    [sheet_to_json] returns for the first sheet with [header: 1],
    [defval: ''] and [raw: false], every cell a formatted string. *)
Definition parseExcel (jsonData : list (list jsstring))
    : completion ParseResult :=
  grid_to_result excel_too_short jsonData.

(** What [parseFile] is given, for a file that could be read and
    decoded: the file's name and what the two readers make of its
    bytes, the text ([readAsText]) that [parseCSV] scans and the grid
    of the first sheet that [parseExcel] goes through.  The failures
    of the readers are in [upload] and [parseUpload] below. *)
Record file := {
  fileName : jsstring;
  fileText : jsstring;
  fileSheet : list (list jsstring)
}.

Section ParseFile.

(** [String.prototype.toLowerCase]: the engine's case mapping, not
    part of the repository. *)
Variable toLowerCase : jsstring -> jsstring.

(** [file.name.split('.').pop().toLowerCase()]. *)
Definition extension_of (name : jsstring) : jsstring :=
  toLowerCase (default [] (last (split (lit ".") name))).

Definition unsupported (extension : jsstring) : jsstring :=
  lit "Unsupported file format: ." ++ extension.

Definition parseFile (f : file) : completion ParseResult :=
  let extension := extension_of (fileName f) in
  if str_eqb extension (lit "csv") then parseCSV (fileText f)
  else if str_eqb extension (lit "xlsx") || str_eqb extension (lit "xls")
  then parseExcel (fileSheet f)
  else Throw (unsupported extension).

End ParseFile.

(** The file as the browser hands it over, with the ways its reading
    can go wrong: [uploadText] is what [readAsText] gives, [None] when
    the reader fails ([onerror]); [uploadSheet] is what
    [readAsArrayBuffer], [XLSX.read] and [sheet_to_json] give: [None]
    when the reader fails, what the library throws, or the grid of the
    first sheet. *)
Record upload := {
  uploadName : jsstring;
  uploadText : option jsstring;
  uploadSheet : option (completion (list (list jsstring)))
}.

Definition read_failed : jsstring := lit "Failed to read file".

(** [parseCSV(file)] with its reader. *)
Definition readCSV (text : option jsstring) : completion ParseResult :=
  match text with
  | None => Throw read_failed
  | Some text => parseCSV text
  end.

(** [parseExcel(file)] with its reader: what is thrown inside [try]
    is thrown on under [Failed to parse Excel file]. *)
Definition readExcel (sheet : option (completion (list (list jsstring))))
    : completion ParseResult :=
  match sheet with
  | None => Throw read_failed
  | Some (Throw message) => Throw (lit "Failed to parse Excel file: " ++ message)
  | Some (Normal jsonData) => parseExcel jsonData
  end.

(** A file that both readers read and the library decoded. *)
Definition decoded (f : file) : upload :=
  {| uploadName := fileName f; uploadText := Some (fileText f);
     uploadSheet := Some (Normal (fileSheet f)) |}.

Section ParseUpload.

Variable toLowerCase : jsstring -> jsstring.

(** [parseFile(file)], the readers included. *)
Definition parseUpload (u : upload) : completion ParseResult :=
  let extension := extension_of toLowerCase (uploadName u) in
  if str_eqb extension (lit "csv") then readCSV (uploadText u)
  else if str_eqb extension (lit "xlsx") || str_eqb extension (lit "xls")
  then readExcel (uploadSheet u)
  else Throw (unsupported extension).

End ParseUpload.

End Parser.

(** ** App (src/js/app.js, lines 131-147): what [processFile] does with
    the parser's answer before anything is shown. *)

Module App.

Definition no_data_rows : jsstring :=
  lit "No data rows found in the spreadsheet".

Definition checked (parsed : completion Parser.ParseResult)
    : completion Parser.ParseResult :=
  match parsed with
  | Normal result =>
      if (length (Parser.rows result) =? 0)%nat then Throw no_data_rows
      else Normal result
  | Throw message => Throw message
  end.

Definition processCSV (text : jsstring) : completion Parser.ParseResult :=
  checked (Parser.parseCSV text).

End App.

(** ** The browser's text serialization, used by [escapeHtml]

    [escapeHtml] writes the text into a [div] through [textContent]
    and reads [innerHTML] back.  The browser is not part of the
    repository; the model follows the HTML Standard's rule for
    escaping a string outside attribute mode, which is what the
    serialization of a [Text] child of a [div] applies to each code
    unit. *)

Module DOM.

Definition AMP : N := 38.
Definition LT : N := 60.
Definition GT : N := 62.
Definition NBSP : N := 160.
Definition APOS : N := 39.

Definition escape_unit (c : N) : jsstring :=
  if c =? AMP then lit "&amp;"
  else if c =? NBSP then lit "&nbsp;"
  else if c =? LT then lit "&lt;"
  else if c =? GT then lit "&gt;"
  else [c].

(** [div.textContent = text; div.innerHTML]. *)
Definition text_innerHTML (text : jsstring) : jsstring :=
  List.flat_map escape_unit text.

End DOM.

(** ** Archive names, shared by the two generators' [createZip] *)

Module Zip.
Section Entries.

Variable Blob : Type.

Record document := Document {
  filename : jsstring;
  blob : Blob
}.

(** How a taken name is rewritten: from [doc.filename] and the
    counter. *)
Variable rewrite : jsstring -> N -> jsstring.

(** [while (usedNames.has(filename)) { filename = ...; counter++ }],
    at most [fuel] tests of the condition. *)
Fixpoint free_name (fuel : nat) (usedNames : gset (list N))
    (docname filename : jsstring) (counter : N) : option jsstring :=
  match fuel with
  | O => None
  | S fuel' =>
      if bool_decide (filename ∈ usedNames) then
        free_name fuel' usedNames docname (rewrite docname counter)
          (counter + 1)
      else Some filename
  end.

(** [for (const doc of documents)]: the calls [zip.file(filename,
    doc.blob)] in their order. *)
Fixpoint zip_loop (fuel : nat) (documents : list document)
    (usedNames : gset (list N)) (zip : list (jsstring * Blob))
    : option (list (jsstring * Blob)) :=
  match documents with
  | [] => Some zip
  | doc :: more =>
      match free_name fuel usedNames (filename doc) (filename doc) 1 with
      | Some name =>
          zip_loop fuel more ({[name]} ∪ usedNames)
            (zip ++ [(name, blob doc)])
      | None => None
      end
  end.

Definition createZip (fuel : nat) (documents : list document)
    : option (list (jsstring * Blob)) :=
  zip_loop fuel documents ∅ [].

End Entries.

Arguments Document {Blob} filename blob.
Arguments filename {Blob} d.
Arguments blob {Blob} d.
End Zip.

(** ** The loop of [generateAll], shared by the two generators *)

Module Batch.
Section Loop.

Variable Blob : Type.

(** The loop body up to [documents.push]: the document of one row and
    its index, or what is thrown on the way. *)
Variable single : rowObj -> N -> completion (Zip.document Blob).

(** [for (let i = 0; i < rows.length; i++)], from index [i] on with
    the rows still to do: [documents] as pushed so far, [progress] the
    calls [progressCallback(i + 1, rows.length)] made so far, for a
    caller that passes a callback.  A throw ends the loop; the pauses
    ([setTimeout]) change nothing here. *)
Fixpoint loop (total : N) (rows : list rowObj) (i : N)
    (documents : list (Zip.document Blob)) (progress : list (N * N))
    : list (N * N) * completion (list (Zip.document Blob)) :=
  match rows with
  | [] => (progress, Normal documents)
  | row :: more =>
      match single row i with
      | Throw message => (progress, Throw message)
      | Normal doc =>
          loop total more (i + 1) (documents ++ [doc])
            (progress ++ [(i + 1, total)])
      end
  end.

Definition generateAll (rows : list rowObj)
    : list (N * N) * completion (list (Zip.document Blob)) :=
  loop (N.of_nat (length rows)) rows 0 [] [].

End Loop.
End Batch.

(** ** Generator, the html-docx variant (src/unnamed/part_003, lines
    178-473; src/unnamed/part_001 has the same [fillTemplate] loop,
    [generateFilename] and [createZip]) *)

Module Generator.

Definition mappings : list (jsstring * jsstring) :=
  [ (lit "Client", lit "[INSERT_CLIENT_NAME]");
    (lit "Desired Completion Date", lit "[INSERT_DATE]");
    (lit "Room Details (Workload)", lit "[INSERT_ROOM_DETAILS]");
    (lit "Functional Requirements", lit "[INSERT_FUNCTIONAL_REQUIREMENTS]");
    (lit "Control System Requirements", lit "[INSERT_CONTROL_SYSTEM]");
    (lit "Preferred Brands or Technology Standards",
     lit "[INSERT_BRANDS_STANDARDS]");
    (lit "Existing Equipment Integration", lit "[INSERT_EXISTING_INTEGRATION]");
    (lit "Network Strategy", lit "[INSERT_CLIENT_NETWORK_OR_DEDICATED_AV]");
    (lit "Cabling & Infrastructure", lit "[INSERT_CABLING_DETAILS]");
    (lit "Budgetary Estimates", lit "[INSERT_BUDGET]");
    (lit "Site Constraints", lit "[INSERT_SITE_CONSTRAINTS]") ].

Definition fileMappings_columns : list jsstring :=
  [ lit "Site Photos"; lit "Client Drawings" ].

Definition fileMappings_placeholder : jsstring :=
  lit "[LIST_UPLOADED_FILES_OR_LINKS_HERE]".

Definition escapeHtml (text : jsstring) : jsstring :=
  if falsy text then [] else DOM.text_innerHTML text.

(** One round of the loop over [Object.entries(this.mappings)]. *)
Definition fill_one (rowData : rowObj) (filledHtml : jsstring)
    (entry : jsstring * jsstring) : jsstring :=
  let (column, placeholder) := entry in
  let value := get_or rowData column [] in
  let escapedValue := escapeHtml value in
  join (if falsy escapedValue then placeholder else escapedValue)
    (split placeholder filledHtml).

(** [fileMappings.columns.map(col => rowData[col]).filter(val => val
    && val.trim()).join('\n')]. *)
Definition fileValues (rowData : rowObj) : jsstring :=
  join [LF]
    (omap (fun col =>
             match rowData !! col with
             | Some val =>
                 if negb (falsy val) && negb (falsy (trim val))
                 then Some val else None
             | None => None
             end)
       fileMappings_columns).

Definition template_not_loaded : jsstring := lit "Template not loaded".

(** [template] is [this.template]: [None] for [null]. *)
Definition fillTemplate (template : option jsstring) (rowData : rowObj)
    : completion jsstring :=
  match template with
  | None => Throw template_not_loaded
  | Some template =>
      if falsy template then Throw template_not_loaded
      else
        let filledHtml := fold_left (fill_one rowData) mappings template in
        let fileContent :=
          if falsy (fileValues rowData) then lit "No files uploaded"
          else fileValues rowData in
        Normal (join (escapeHtml fileContent)
                  (split fileMappings_placeholder filledHtml))
  end.

Definition is_alnum (c : N) : bool :=
  ((97 <=? c) && (c <=? 122)) || ((65 <=? c) && (c <=? 90))
  || ((48 <=? c) && (c <=? 57)).

Definition HYPHEN : N := 45.
Definition UNDERSCORE : N := 95.

(** The class [[a-zA-Z0-9\s\-_]], whose complement the first
    [replace] deletes. *)
Definition kept (c : N) : bool :=
  is_alnum c || is_space c || (c =? HYPHEN) || (c =? UNDERSCORE).

(** [.replace(/[^a-zA-Z0-9\s\-_]/g, '')]. *)
Definition delete_unkept (s : jsstring) : jsstring := List.filter kept s.

(** [.replace(/\s+/g, '_')]: [in_match] says that the code unit
    before belongs to the match of [\s+] being extended. *)
Fixpoint underscore_spaces (in_match : bool) (s : jsstring) : jsstring :=
  match s with
  | [] => []
  | c :: r =>
      if is_space c then
        if in_match then underscore_spaces true r
        else UNDERSCORE :: underscore_spaces true r
      else c :: underscore_spaces false r
  end.

Definition suffix : jsstring := lit "_Specification.docx".

Definition sanitized (clientName : jsstring) : jsstring :=
  substring0 50 (underscore_spaces false (delete_unkept clientName)).

(** [generateFilename(rowData, index)].  [index] is the index of the
    row in the array of rows, as [generateAll] and [generateSingle]
    pass it: a natural number below 2^32, where the addition of
    doubles in [index + 1] is the exact one and the template literal
    writes all its digits.  Above 2^53 the doubles of the code round
    and this function does not follow them: what is proved of the
    number in the name carries the bound on [index]. *)
Definition generateFilename (rowData : rowObj) (index : N) : jsstring :=
  let clientName :=
    get_or rowData (lit "Client") (lit "Document_" ++ decimal (index + 1)) in
  sanitized clientName ++ suffix.

(** [const baseName = doc.filename.replace('.docx', ''); filename =
    `${baseName}_${counter}.docx`]. *)
Definition rewrite (docname : jsstring) (counter : N) : jsstring :=
  let baseName := replace_first (lit ".docx") [] docname in
  baseName ++ lit "_" ++ decimal counter ++ lit ".docx".

Definition createZip {Blob : Type} (fuel : nat)
    (documents : list (Zip.document Blob)) : option (list (jsstring * Blob)) :=
  Zip.createZip Blob rewrite fuel documents.

Section GenerateAll.

Variable Blob : Type.

(** [generateDocx]: it wraps the body of the filled markup in a page
    and ends in [htmlDocx.asBlob], the codec, which is not part of the
    repository; here, what it returns or throws for a filled markup. *)
Variable generateDocx : jsstring -> completion Blob.

(** The body of the loop of [generateAll]: [fillTemplate],
    [generateDocx], [generateFilename]. *)
Definition single (template : option jsstring) (row : rowObj) (i : N)
    : completion (Zip.document Blob) :=
  match fillTemplate template row with
  | Throw message => Throw message
  | Normal filledHtml =>
      match generateDocx filledHtml with
      | Throw message => Throw message
      | Normal docxBlob => Normal (Zip.Document (generateFilename row i) docxBlob)
      end
  end.

(** [generateAll(rows, progressCallback)], given [this.template]: the
    calls of the callback and the documents, or what was thrown. *)
Definition generateAll (template : option jsstring) (rows : list rowObj)
    : list (N * N) * completion (list (Zip.document Blob)) :=
  Batch.generateAll Blob (single template) rows.

End GenerateAll.

(** What [fetch(templatePath)] and [response.text()] come to: a
    rejected request with its message, or a response with its [ok],
    its [status] and what reading its text gives. *)
Inductive fetched :=
| Rejected (message : jsstring)
| Response (ok : bool) (status : N) (text : completion jsstring).

(** [loadTemplate]: [this.template] afterwards and how the call
    ends. *)
Definition loadTemplate (template : option jsstring) (response : fetched)
    : option jsstring * completion jsstring :=
  let caught (message : jsstring) :=
    (template, Throw (lit "Template loading failed: " ++ message)) in
  match response with
  | Rejected message => caught message
  | Response ok status text =>
      if negb ok then caught (lit "Failed to load template: " ++ decimal status)
      else
        match text with
        | Throw message => caught message
        | Normal html => (Some html, Normal html)
        end
  end.

(** [setTemplate]. *)
Definition setTemplate (templateHtml : jsstring) : option jsstring :=
  Some templateHtml.

(** [extractBodyContent]: the first match of its regular expression
    and the group of that match.  The expression reads: [<body], any
    number of characters other than [>], then [>], then the group, any
    characters and as many as possible, then [</body>]; with the flag
    [i].

    Under the flag [i] two code units match when they have the same
    upper case.  [upper] is the ASCII part of that mapping; it is only
    compared with the characters of the two tags, which are ASCII, and
    no code unit outside ASCII is mapped into ASCII by the flag. *)
Definition upper (c : N) : N :=
  if (97 <=? c) && (c <=? 122) then c - 32 else c.

Definition same_letter (p c : N) : bool := upper c =? upper p.

(** The rest of [s] after the characters of [pattern], matched
    without regard to case. *)
Fixpoint strip_prefix_ci (pattern s : jsstring) : option jsstring :=
  match pattern, s with
  | [], _ => Some s
  | p :: pattern', c :: s' =>
      if same_letter p c then strip_prefix_ci pattern' s' else None
  | _ :: _, [] => None
  end.

(** What the greedy group captures in [s] when [pattern] has to follow
    it: everything up to the last place where [pattern] stands. *)
Fixpoint before_last_ci (pattern s : jsstring) : option jsstring :=
  match s with
  | [] => None
  | c :: s' =>
      match before_last_ci pattern s' with
      | Some captured => Some (c :: captured)
      | None =>
          match strip_prefix_ci pattern s with
          | Some _ => Some []
          | None => None
          end
      end
  end.

(** The regular expression tried at the start of [s]: the group, if
    it matches there.  The attributes run up to the first [>]. *)
Definition body_at (s : jsstring) : option jsstring :=
  match strip_prefix_ci (lit "<body") s with
  | Some rest =>
      match drop_while (fun c => negb (c =? DOM.GT)) rest with
      | _ :: inner => before_last_ci (lit "</body>") inner
      | [] => None
      end
  | None => None
  end.

(** [html.match(...)]: the leftmost place where it matches. *)
Fixpoint body_match (s : jsstring) : option jsstring :=
  match body_at s with
  | Some content => Some content
  | None =>
      match s with
      | [] => None
      | _ :: s' => body_match s'
      end
  end.

Definition extractBodyContent (html : jsstring) : jsstring :=
  match body_match html with
  | Some content => content
  | None => html
  end.

End Generator.

(** ** Generator, the docxtemplater variant (src/js/generator.js) *)

Module GeneratorDocx.

Definition mappings : list (jsstring * jsstring) :=
  [ (lit "Client", lit "INSERT_CLIENT_NAME");
    (lit "Desired Completion Date", lit "INSERT_DATE");
    (lit "Room Details (Workload)", lit "INSERT_ROOM_DETAILS");
    (lit "Functional Requirements", lit "INSERT_FUNCTIONAL_REQUIREMENTS");
    (lit "Control System Requirements", lit "INSERT_CONTROL_SYSTEM");
    (lit "Preferred Brands or Technology Standards",
     lit "INSERT_BRANDS_STANDARDS");
    (lit "Existing Equipment Integration", lit "INSERT_EXISTING_INTEGRATION");
    (lit "Network Strategy", lit "INSERT_CLIENT_NETWORK_OR_DEDICATED_AV");
    (lit "Cabling & Infrastructure", lit "INSERT_CABLING_DETAILS");
    (lit "Budgetary Estimates", lit "INSERT_BUDGET");
    (lit "Site Constraints", lit "INSERT_SITE_CONSTRAINTS") ].

Definition escapeHtml (text : jsstring) : jsstring :=
  if falsy text then [] else DOM.text_innerHTML text.

(** One round of the loop of [fillHtmlTemplate]. *)
Definition fill_one (row : rowObj) (html : jsstring)
    (entry : jsstring * jsstring) : jsstring :=
  let (col, tag) := entry in
  let val := get_or row col [] in
  let placeholder := lit "[" ++ tag ++ lit "]" in
  join (escapeHtml val) (split placeholder html).

(** [htmlTemplate] is [this.htmlTemplate]: [None] for [null]. *)
Definition fillHtmlTemplate (htmlTemplate : option jsstring) (row : rowObj)
    : jsstring :=
  match htmlTemplate with
  | None => []
  | Some html =>
      if falsy html then [] else fold_left (fill_one row) mappings html
  end.

(** [generateFilename(row, index)], with [index] an index of the
    array of rows as in [Generator.generateFilename]: below 2^32,
    where [index + 1] is exact. *)
Definition generateFilename (row : rowObj) (index : N) : jsstring :=
  let clientName :=
    get_or row (lit "Client") (lit "Document_" ++ decimal (index + 1)) in
  substring0 50
    (Generator.underscore_spaces false (Generator.delete_unkept clientName))
  ++ lit "_Specification.docx".

(** [filename = doc.filename.replace('.docx', `_${counter}.docx`)]. *)
Definition rewrite (docname : jsstring) (counter : N) : jsstring :=
  replace_first (lit ".docx") (lit "_" ++ decimal counter ++ lit ".docx")
    docname.

Definition createZip {Blob : Type} (fuel : nat)
    (documents : list (Zip.document Blob)) : option (list (jsstring * Blob)) :=
  Zip.createZip Blob rewrite fuel documents.

(** The data that [generateSingle] hands to docxtemplater: [data[tag]
    = row[col] || ''] for every entry of [mappings], on a fresh
    object. *)
Definition binding_data (row : rowObj) : rowObj :=
  fold_left
    (fun (data : rowObj) (entry : jsstring * jsstring) =>
       assign data entry.2 (get_or row entry.1 []))
    mappings ∅.

Definition template_missing : jsstring :=
  lit "Template.docx is missing used for generation. Please ensure Templates/template.docx exists.".

Definition render_failed : jsstring :=
  lit "Failed to render document. Check template placeholders.".

Section GenerateSingle.

Variable Blob : Type.

(** The template bytes, and the three steps that are not part of the
    repository: [new PizZip(template)], [new docxtemplater(zip,
    options)], then [doc.render(data)] with
    [doc.getZip().generate(options)]. *)
Variable Bytes Archive Doc : Type.
Variable new_PizZip : Bytes -> completion Archive.
Variable new_docxtemplater : Archive -> completion Doc.
Variable render : Doc -> rowObj -> completion Doc.
Variable generate : Doc -> completion Blob.

Definition generateSingle (docxTemplate : option Bytes) (row : rowObj)
    (index : N) : completion (Zip.document Blob) :=
  match docxTemplate with
  | None => Throw template_missing
  | Some bytes =>
      match new_PizZip bytes with
      | Throw message => Throw message
      | Normal zip =>
          match new_docxtemplater zip with
          | Throw message => Throw (lit "Docxtemplater init failed: " ++ message)
          | Normal doc =>
              match render doc (binding_data row) with
              | Throw _ => Throw render_failed
              | Normal rendered =>
                  match generate rendered with
                  | Throw message => Throw message
                  | Normal blob =>
                      Normal (Zip.Document (generateFilename row index) blob)
                  end
              end
          end
      end
  end.

Definition generateAll (docxTemplate : option Bytes) (rows : list rowObj)
    : list (N * N) * completion (list (Zip.document Blob)) :=
  Batch.generateAll Blob (generateSingle docxTemplate) rows.

End GenerateSingle.

End GeneratorDocx.

(** ** Preview (src/unnamed/part_002) *)

Module Preview.

(** [iframe] is [None] for [null], else the document last written
    into the frame. *)
Record preview := {
  iframe : option jsstring;
  rows : list rowObj;
  currentIndex : Z
}.

Definition with_index (st : preview) (i : Z) : preview :=
  {| iframe := iframe st; rows := rows st; currentIndex := i |}.

Definition setRows (st : preview) (rows : list rowObj) : preview :=
  {| iframe := iframe st; rows := rows; currentIndex := 0 |}.

(** [this.rows[this.currentIndex]]: [None] for [undefined]. *)
Definition row_at (st : preview) : option rowObj :=
  if (currentIndex st <? 0)%Z then None
  else rows st !! Z.to_nat (currentIndex st).

Definition not_a_row : jsstring :=
  lit "TypeError: Cannot read properties of undefined".

(** [render], given [Generator.template]. *)
Definition render (template : option jsstring) (st : preview)
    : completion preview :=
  match iframe st with
  | None => Normal st
  | Some _ =>
      if (length (rows st) =? 0)%nat then Normal st
      else
        let filled :=
          match row_at st with
          | Some row => Generator.fillTemplate template row
          | None =>
              match Generator.fillTemplate template ∅ with
              | Throw message => Throw message
              | Normal _ => Throw not_a_row
              end
          end in
        match filled with
        | Normal filledHtml =>
            Normal {| iframe := Some filledHtml; rows := rows st;
                      currentIndex := currentIndex st |}
        | Throw message => Throw message
        end
  end.

(** A navigation call: the state it leaves and how it ends.  When
    [render] throws, the cursor has already moved. *)
Definition moved (template : option jsstring) (st : preview)
    : preview * completion bool :=
  match render template st with
  | Normal st' => (st', Normal true)
  | Throw message => (st, Throw message)
  end.

Definition next (template : option jsstring) (st : preview)
    : preview * completion bool :=
  if (currentIndex st <? Z.of_nat (length (rows st)) - 1)%Z then
    moved template (with_index st (currentIndex st + 1))
  else (st, Normal false).

Definition previous (template : option jsstring) (st : preview)
    : preview * completion bool :=
  if (currentIndex st >? 0)%Z then
    moved template (with_index st (currentIndex st - 1))
  else (st, Normal false).

Definition goTo (template : option jsstring) (st : preview) (index : Z)
    : preview * completion unit :=
  if (index >=? 0)%Z && (index <? Z.of_nat (length (rows st)))%Z then
    match render template (with_index st index) with
    | Normal st' => (st', Normal tt)
    | Throw message => (with_index st index, Throw message)
    end
  else (st, Normal tt).

Definition clear (st : preview) : preview :=
  {| iframe :=
       match iframe st with
       | Some _ => Some (lit "<html><body></body></html>")
       | None => None
       end;
     rows := [];
     currentIndex := 0 |}.

(** What [getState] returns. *)
Record navigation := {
  current : Z;
  total : nat;
  hasPrev : bool;
  hasNext : bool
}.

Definition getState (st : preview) : navigation :=
  {| current := currentIndex st + 1;
     total := length (rows st);
     hasPrev := (currentIndex st >? 0)%Z;
     hasNext := (currentIndex st <? Z.of_nat (length (rows st)) - 1)%Z |}.

(** [this.rows[this.currentIndex] || null]: a row is an object, which
    is never falsy, so [null] stands for [undefined] only. *)
Definition getCurrentRow (st : preview) : option rowObj := row_at st.

End Preview.

(** ** App, the controller (src/js/app.js, lines 105-257): the state
    that parsing, preview and generation go through.  The loading
    overlay, the console and the file input are left out. *)

Module Controller.

Inductive toast_type := success | error.

(** [showToast(message, type)]. *)
Record toast := Toast {
  message : jsstring;
  type : toast_type
}.

(** [App] with what it reaches: [Generator.template], [Preview], and
    the page elements it writes.  A [textContent] that is assigned a
    number is kept as that number. *)
Record app := {
  parsedData : option Parser.ParseResult;
  templateLoaded : bool;
  template : option jsstring;
  preview : Preview.preview;
  fileName : jsstring;
  rowCount : jsstring;
  currentRow : Z;
  totalRows : nat;
  prevRow_disabled : bool;
  nextRow_disabled : bool;
  uploadSection_hidden : bool;
  previewSection_hidden : bool
}.

Definition with_preview (a : app) (p : Preview.preview) : app :=
  {| parsedData := parsedData a; templateLoaded := templateLoaded a;
     template := template a; preview := p;
     fileName := fileName a; rowCount := rowCount a;
     currentRow := currentRow a; totalRows := totalRows a;
     prevRow_disabled := prevRow_disabled a;
     nextRow_disabled := nextRow_disabled a;
     uploadSection_hidden := uploadSection_hidden a;
     previewSection_hidden := previewSection_hidden a |}.

(** [loadTemplate], from what the request for
    [Templates/format-docs.html] comes to. *)
Definition loadTemplate (a : app) (response : Generator.fetched)
    : app * option toast :=
  match Generator.loadTemplate (template a) response with
  | (template', Normal _) =>
      ({| parsedData := parsedData a; templateLoaded := true;
          template := template'; preview := preview a;
          fileName := fileName a; rowCount := rowCount a;
          currentRow := currentRow a; totalRows := totalRows a;
          prevRow_disabled := prevRow_disabled a;
          nextRow_disabled := nextRow_disabled a;
          uploadSection_hidden := uploadSection_hidden a;
          previewSection_hidden := previewSection_hidden a |}, None)
  | (template', Throw _) =>
      ({| parsedData := parsedData a; templateLoaded := templateLoaded a;
          template := template'; preview := preview a;
          fileName := fileName a; rowCount := rowCount a;
          currentRow := currentRow a; totalRows := totalRows a;
          prevRow_disabled := prevRow_disabled a;
          nextRow_disabled := nextRow_disabled a;
          uploadSection_hidden := uploadSection_hidden a;
          previewSection_hidden := previewSection_hidden a |},
       Some (Toast (lit "Failed to load template. Please refresh the page.")
               error))
  end.

(** [updateNavigation]. *)
Definition updateNavigation (a : app) : app :=
  let state := Preview.getState (preview a) in
  {| parsedData := parsedData a; templateLoaded := templateLoaded a;
     template := template a; preview := preview a;
     fileName := fileName a; rowCount := rowCount a;
     currentRow := Preview.current state;
     totalRows := Preview.total state;
     prevRow_disabled := negb (Preview.hasPrev state);
     nextRow_disabled := negb (Preview.hasNext state);
     uploadSection_hidden := uploadSection_hidden a;
     previewSection_hidden := previewSection_hidden a |}.

(** [`${n} row${n !== 1 ? 's' : ''}`]. *)
Definition n_rows (n : nat) : jsstring :=
  decimal (N.of_nat n) ++ lit " row" ++ (if (n =? 1)%nat then [] else lit "s").

Definition wrong_type : jsstring :=
  lit "Please upload an Excel (.xlsx) or CSV file".

Section ProcessFile.

Variable toLowerCase : jsstring -> jsstring.

(** [['xlsx', 'xls', 'csv'].includes(extension)]. *)
Definition valid_extension (extension : jsstring) : bool :=
  existsb (str_eqb extension) [lit "xlsx"; lit "xls"; lit "csv"].

(** [processFile(file)]: the state it leaves and the toast it
    shows.  What is thrown inside [try] ends in the toast of
    [catch], with the writes made before it in place. *)
Definition processFile (a : app) (file : Parser.file) : app * toast :=
  let extension := Parser.extension_of toLowerCase (Parser.fileName file) in
  if negb (valid_extension extension) then (a, Toast wrong_type error)
  else
    match App.checked (Parser.parseFile toLowerCase file) with
    | Throw message => (a, Toast message error)
    | Normal result =>
        let n := length (Parser.rows result) in
        let a1 :=
          {| parsedData := Some result; templateLoaded := templateLoaded a;
             template := template a;
             preview := Preview.setRows (preview a) (Parser.rows result);
             fileName := Parser.fileName file; rowCount := n_rows n;
             currentRow := currentRow a; totalRows := totalRows a;
             prevRow_disabled := prevRow_disabled a;
             nextRow_disabled := nextRow_disabled a;
             uploadSection_hidden := uploadSection_hidden a;
             previewSection_hidden := previewSection_hidden a |} in
        match Preview.render (template a1) (preview a1) with
        | Throw message => (a1, Toast message error)
        | Normal p =>
            let a2 := updateNavigation (with_preview a1 p) in
            ({| parsedData := parsedData a2;
                templateLoaded := templateLoaded a2;
                template := template a2; preview := preview a2;
                fileName := fileName a2; rowCount := rowCount a2;
                currentRow := currentRow a2; totalRows := totalRows a2;
                prevRow_disabled := prevRow_disabled a2;
                nextRow_disabled := nextRow_disabled a2;
                uploadSection_hidden := true;
                previewSection_hidden := false |},
             Toast (lit "Loaded " ++ n_rows n ++ lit " successfully") success)
        end
    end.

(** [processFile(file)] once more, from the file as the browser hands
    it over: what the readers throw ends in the toast of [catch]
    too. *)
Definition processUpload (a : app) (file : Parser.upload) : app * toast :=
  let extension := Parser.extension_of toLowerCase (Parser.uploadName file) in
  if negb (valid_extension extension) then (a, Toast wrong_type error)
  else
    match App.checked (Parser.parseUpload toLowerCase file) with
    | Throw message => (a, Toast message error)
    | Normal result =>
        let n := length (Parser.rows result) in
        let a1 :=
          {| parsedData := Some result; templateLoaded := templateLoaded a;
             template := template a;
             preview := Preview.setRows (preview a) (Parser.rows result);
             fileName := Parser.uploadName file; rowCount := n_rows n;
             currentRow := currentRow a; totalRows := totalRows a;
             prevRow_disabled := prevRow_disabled a;
             nextRow_disabled := nextRow_disabled a;
             uploadSection_hidden := uploadSection_hidden a;
             previewSection_hidden := previewSection_hidden a |} in
        match Preview.render (template a1) (preview a1) with
        | Throw message => (a1, Toast message error)
        | Normal p =>
            let a2 := updateNavigation (with_preview a1 p) in
            ({| parsedData := parsedData a2;
                templateLoaded := templateLoaded a2;
                template := template a2; preview := preview a2;
                fileName := fileName a2; rowCount := rowCount a2;
                currentRow := currentRow a2; totalRows := totalRows a2;
                prevRow_disabled := prevRow_disabled a2;
                nextRow_disabled := nextRow_disabled a2;
                uploadSection_hidden := true;
                previewSection_hidden := false |},
             Toast (lit "Loaded " ++ n_rows n ++ lit " successfully") success)
        end
    end.

End ProcessFile.

(** [navigatePrev] and [navigateNext]: the state they leave and what
    they throw, when [render] throws. *)
Definition navigated (a : app) (step : Preview.preview * completion bool)
    : app * completion unit :=
  match step with
  | (p, Normal true) => (updateNavigation (with_preview a p), Normal tt)
  | (p, Normal false) => (with_preview a p, Normal tt)
  | (p, Throw message) => (with_preview a p, Throw message)
  end.

Definition navigatePrev (a : app) : app * completion unit :=
  navigated a (Preview.previous (template a) (preview a)).

Definition navigateNext (a : app) : app * completion unit :=
  navigated a (Preview.next (template a) (preview a)).

(** The key handler: the arrow keys navigate once data is there. *)
Inductive key := ArrowLeft | ArrowRight | OtherKey.

Definition keydown (a : app) (k : key) : app * completion unit :=
  match parsedData a with
  | None => (a, Normal tt)
  | Some _ =>
      match k with
      | ArrowLeft => navigatePrev a
      | ArrowRight => navigateNext a
      | OtherKey => (a, Normal tt)
      end
  end.

(** [reset]. *)
Definition reset (a : app) : app :=
  {| parsedData := None; templateLoaded := templateLoaded a;
     template := template a; preview := Preview.clear (preview a);
     fileName := fileName a; rowCount := rowCount a;
     currentRow := currentRow a; totalRows := totalRows a;
     prevRow_disabled := prevRow_disabled a;
     nextRow_disabled := nextRow_disabled a;
     uploadSection_hidden := false;
     previewSection_hidden := true |}.

Section GenerateDocuments.

Variable Blob : Type.
Variable generateDocx : jsstring -> completion Blob.

(** What [saveAs] is called with: the blob of the one document, or
    the archive, here the entries it was filled with.  Packing the
    archive ([generateAsync]) and [saveAs] itself are taken to
    succeed. *)
Inductive download :=
| SaveFile (blob : Blob) (name : jsstring)
| SaveArchive (entries : list (jsstring * Blob)) (name : jsstring).

Definition nothing_to_generate : jsstring :=
  lit "No data loaded or template missing".

Definition archive_name : jsstring := lit "Specification_Documents.zip".

(** [generateDocuments]: the download and the toast, [None] when the
    loop of [createZip] has not ended within [fuel] tests. *)
Definition generateDocuments (fuel : nat) (a : app)
    : option (option download * toast) :=
  match parsedData a with
  | None => Some (None, Toast nothing_to_generate error)
  | Some data =>
      if negb (templateLoaded a)
      then Some (None, Toast nothing_to_generate error)
      else
        match (Generator.generateAll Blob generateDocx (template a)
                 (Parser.rows data)).2 with
        | Throw message =>
            Some (None, Toast (lit "Generation failed: " ++ message) error)
        | Normal documents =>
            match documents with
            | [doc] =>
                Some (Some (SaveFile (Zip.blob doc) (Zip.filename doc)),
                      Toast (lit "Document downloaded successfully!") success)
            | _ =>
                match Generator.createZip fuel documents with
                | None => None
                | Some entries =>
                    Some (Some (SaveArchive entries archive_name),
                          Toast (decimal (N.of_nat (length documents))
                                 ++ lit " documents downloaded as ZIP!")
                            success)
                end
            end
        end
  end.

End GenerateDocuments.

End Controller.

(** ** Vocabulary of the statements

    Nothing below is code of the repository: these definitions only
    serve to state what the code above does. *)

(** CSV text as a writer would produce it: a cell is written bare or
    between double quotes with its quotes doubled. *)
Inductive cell : Type :=
| Plain (value : jsstring)
| Quoted (value : jsstring).

Definition cell_value (c : cell) : jsstring :=
  match c with Plain v => v | Quoted v => v end.

Definition plain_unit (c : N) : bool :=
  negb (c =? DQUOTE) && negb (c =? COMMA) && negb (c =? LF) && negb (c =? CR).

(** A bare cell holds no quote, comma or line break; a quoted cell
    holds anything but a carriage return. *)
Definition cell_ok (c : cell) : Prop :=
  match c with
  | Plain v => Forall (fun u => plain_unit u = true) v
  | Quoted v => Forall (fun u => u <> CR) v
  end.

Definition double_quotes (v : jsstring) : jsstring :=
  List.flat_map (fun c => if c =? DQUOTE then [DQUOTE; DQUOTE] else [c]) v.

Definition written_cell (c : cell) : jsstring :=
  match c with
  | Plain v => v
  | Quoted v => DQUOTE :: double_quotes v ++ [DQUOTE]
  end.

Definition written_line (cells : list cell) : jsstring :=
  join [COMMA] (map written_cell cells).

Inductive terminator : Type := EndLF | EndCRLF.

Definition written_end (t : terminator) : jsstring :=
  match t with EndLF => [LF] | EndCRLF => [CR; LF] end.

Definition written_table (table : list (list cell * terminator)) : jsstring :=
  List.flat_map (fun r => written_line r.1 ++ written_end r.2) table.

Definition table_values (table : list (list cell * terminator))
    : list (list jsstring) :=
  map (fun r => map cell_value r.1) table.

Definition line_ok (cells : list cell) : Prop :=
  cells <> [] /\ Forall cell_ok cells.

(** No carriage return in a value; in everything a scanner holds. *)
Definition no_CR (v : jsstring) : Prop := Forall (fun u => u <> CR) v.

Definition clean (st : Parser.scanner) : Prop :=
  Forall (Forall no_CR) (Parser.lines st)
  /\ Forall no_CR (Parser.currentLine st)
  /\ no_CR (Parser.currentValue st).

(** A carriage return between [before] and [after] does not stand
    between two double quotes. *)
Definition may_drop (before after : jsstring) : Prop :=
  head after = Some DQUOTE -> last before <> Some DQUOTE.

(** A line with a cell that is not empty after trimming, and how many
    of them a grid has. *)
Definition nonblank (line : list jsstring) : bool :=
  negb (Parser.blank_line line).

Definition count_nonblank (lines : list (list jsstring)) : nat :=
  length (List.filter nonblank lines).

(** The maximal runs of a string: stretches of white space and the
    words between them. *)
Inductive run : Type :=
| Spaces (units : jsstring)
| Word (units : jsstring).

Definition run_text (r : run) : jsstring :=
  match r with Spaces g => g | Word w => w end.

Fixpoint runs (s : jsstring) : list run :=
  match s with
  | [] => []
  | c :: r =>
      match is_space c, runs r with
      | true, Spaces g :: more => Spaces (c :: g) :: more
      | true, more => Spaces [c] :: more
      | false, Word w :: more => Word (c :: w) :: more
      | false, more => Word [c] :: more
      end
  end.

Definition run_ok (r : run) : Prop :=
  match r with
  | Spaces g => g <> [] /\ Forall (fun c => is_space c = true) g
  | Word w => w <> [] /\ Forall (fun c => is_space c = false) w
  end.

Definition same_kind (a b : run) : bool :=
  match a, b with
  | Spaces _, Spaces _ | Word _, Word _ => true
  | _, _ => false
  end.

Fixpoint alternating (rs : list run) : Prop :=
  match rs with
  | a :: (b :: _) as more => same_kind a b = false /\ alternating more
  | _ => True
  end.

(** The rule in the spec's words: every run of white space becomes one
    underscore, the words stay. *)
Definition render (rs : list run) : jsstring :=
  List.flat_map
    (fun r => match r with Spaces _ => [Generator.UNDERSCORE] | Word w => w end)
    rs.

Definition one_underscore_per_run (s : jsstring) : jsstring := render (runs s).

(** The same when the string continues a run of white space: its first
    run, if white, gives no underscore of its own. *)
Definition render_open (rs : list run) : jsstring :=
  match rs with Spaces _ :: more => render more | _ => render rs end.

(** What a file name stem may hold. *)
Definition stem_unit (c : N) : bool :=
  Generator.is_alnum c || (c =? Generator.HYPHEN) || (c =? Generator.UNDERSCORE).

(** A name as [generateFilename] makes them: a stem of letters,
    digits, hyphens and underscores, then the fixed suffix. *)
Definition generated (name : jsstring) : Prop :=
  exists stem,
    name = stem ++ Generator.suffix /\ Forall (fun c => stem_unit c = true) stem.

Definition is_digit (c : N) : bool := (48 <=? c) && (c <=? 57).

(** How often [f] stands in [seen]. *)
Definition occurrences (f : jsstring) (seen : list jsstring) : nat :=
  length (List.filter (fun g => bool_decide (g = f)) seen).

(** The archive name the rule gives a document called [f] when the
    documents before it were called [seen]: its own name if that is
    new, else the name rewritten with the number of earlier documents
    of the same name. *)
Definition expected (rewrite : jsstring -> N -> jsstring)
    (seen : list jsstring) (f : jsstring) : jsstring :=
  match occurrences f seen with
  | O => f
  | S _ as k => rewrite f (N.of_nat k)
  end.

Fixpoint expected_names (rewrite : jsstring -> N -> jsstring)
    (seen todo : list jsstring) : list jsstring :=
  match todo with
  | [] => []
  | f :: more =>
      expected rewrite seen f :: expected_names rewrite (f :: seen) more
  end.

(** The names in use once the documents called [seen] are placed. *)
Definition names_after (rewrite : jsstring -> N -> jsstring)
    (seen : list jsstring) (usedNames : gset (list N)) : Prop :=
  forall name,
    name ∈ usedNames <->
    name ∈ seen
    \/ exists f k, f ∈ seen /\ (1 <= k < occurrences f seen)%nat
                   /\ name = rewrite f (N.of_nat k).

(** The counters [c], [c + 1], ... that a loop of [n] rounds goes
    through. *)
Fixpoint counters (c : N) (n : nat) : list N :=
  match n with
  | O => []
  | S n' => c :: counters (c + 1) n'
  end.

(** The navigator's invariant: with rows to show, the cursor points at
    one of them. *)
Definition cursor_ok (st : Preview.preview) : Prop :=
  Preview.rows st <> [] ->
  (0 <= Preview.currentIndex st < Z.of_nat (length (Preview.rows st)))%Z.

(** A template that [fillTemplate] accepts: set, and not empty. *)
Definition loaded (template : option jsstring) : Prop :=
  exists html, template = Some html /\ html <> [].

(** The cursor is on the last row, or there is no row. *)
Definition at_last (st : Preview.preview) : Prop :=
  (Z.of_nat (length (Preview.rows st)) - 1 <= Preview.currentIndex st)%Z.

(** [s.split(p).join(v)], as the fill loops write it. *)
Definition replace_all (p v s : jsstring) : jsstring := join v (split p s).

(** No occurrence of [p] begins inside [piece], whatever follows. *)
Definition inert (p piece : jsstring) : Prop :=
  forall i rest, (i < length piece)%nat ->
    strip_prefix p (drop i piece ++ rest) = None.

(** [p] and [q] differ at a position both have. *)
Fixpoint clash (p q : jsstring) : bool :=
  match p, q with
  | a :: p', b :: q' => negb (a =? b) || clash p' q'
  | _, _ => false
  end.

Definition LBRACKET : N := 91.

Definition bracket_free (t : jsstring) : Prop :=
  Forall (fun c => c <> LBRACKET) t.

(** A preview template cut into segments: text between placeholders,
    and placeholders, each named by the position of its entry in
    [mappings]. *)
Inductive segment : Type :=
| Chunk (text : jsstring)
| Token (k : nat).

(** The token [fillHtmlTemplate] looks for, for an entry of its
    [mappings]. *)
Definition placeholder_of (entry : jsstring * jsstring) : jsstring :=
  lit "[" ++ entry.2 ++ lit "]".

(** What it puts in the token's place. *)
Definition escaped_value (row : rowObj) (entry : jsstring * jsstring)
    : jsstring :=
  GeneratorDocx.escapeHtml (get_or row entry.1 []).

(** Text between placeholders holds no opening bracket; a token names
    an entry that exists. *)
Definition segment_ok (seg : segment) : Prop :=
  match seg with
  | Chunk t => bracket_free t
  | Token k => (k < length GeneratorDocx.mappings)%nat
  end.

Definition template_text (segs : list segment) : jsstring :=
  List.flat_map
    (fun seg =>
       match seg with
       | Chunk t => t
       | Token k =>
           match GeneratorDocx.mappings !! k with
           | Some entry => placeholder_of entry
           | None => []
           end
       end) segs.

Definition filled_text (row : rowObj) (segs : list segment) : jsstring :=
  List.flat_map
    (fun seg =>
       match seg with
       | Chunk t => t
       | Token k =>
           match GeneratorDocx.mappings !! k with
           | Some entry => escaped_value row entry
           | None => []
           end
       end) segs.

(** The template after the first [j] rounds of the loop: the tokens
    of the first [j] entries are replaced, the others still there. *)
Definition text_after (row : rowObj) (j : nat) (segs : list segment) : jsstring :=
  List.flat_map
    (fun seg =>
       match seg with
       | Chunk t => t
       | Token k =>
           match GeneratorDocx.mappings !! k with
           | Some entry =>
               if (k <? j)%nat then escaped_value row entry
               else placeholder_of entry
           | None => []
           end
       end) segs.

(** No mapped value of the record holds an opening bracket. *)
Definition values_bracket_free (row : rowObj) : Prop :=
  forall entry, entry ∈ GeneratorDocx.mappings ->
    bracket_free (get_or row entry.1 []).

(** [part] stands somewhere in [s]. *)
Definition occurs_in (part s : jsstring) : Prop :=
  exists before after, s = before ++ part ++ after.

(** Checks on the eleven placeholders, by evaluation: each is an
    opening bracket followed by text without one, and two different
    ones differ at a position both have. *)
Definition placeholders_bracketed : bool :=
  forallb
    (fun entry =>
       match placeholder_of entry with
       | c :: body => (c =? LBRACKET) && forallb (fun u => negb (u =? LBRACKET)) body
       | [] => false
       end) GeneratorDocx.mappings.

Definition placeholders_clash : bool :=
  forallb
    (fun j =>
       forallb
         (fun k =>
            (j =? k)%nat
            || clash (nth j (map placeholder_of GeneratorDocx.mappings) [])
                 (nth k (map placeholder_of GeneratorDocx.mappings) []))
         (seq 0 (length GeneratorDocx.mappings)))
    (seq 0 (length GeneratorDocx.mappings)).

(** What a reader without quoting would do: cut the text at line
    feeds, every line at commas, and forget a last line that is
    empty. *)
Definition naive_rows (text : jsstring) : list (list jsstring) :=
  let ls := split [LF] text in
  map (split [COMMA])
    (if falsy (default [] (last ls)) then removelast ls else ls).

Definition DOT : N := 46.

(** [docs] are the documents of [rows], made at the indices from [i]
    on, none of them thrown. *)
Fixpoint converts {Blob : Type}
    (single : rowObj -> N -> completion (Zip.document Blob)) (i : N)
    (rows : list rowObj) (docs : list (Zip.document Blob)) : Prop :=
  match rows, docs with
  | [], [] => True
  | row :: rows', doc :: docs' =>
      single row i = Normal doc /\ converts single (i + 1) rows' docs'
  | _, _ => False
  end.

(** The progress calls of the rounds [i], ..., [i + n - 1]. *)
Definition reports (total i : N) (n : nat) : list (N * N) :=
  map (fun current => (current, total)) (counters (i + 1) n).

(** A template of the html-docx variant cut into parts: text between
    placeholders, the placeholder of an entry of [mappings], named by
    the entry's position, and the placeholder of the file list. *)
Inductive part : Type :=
| Text (text : jsstring)
| Field (k : nat)
| Files.

Definition field_token (k : nat) : jsstring :=
  match Generator.mappings !! k with
  | Some entry => entry.2
  | None => []
  end.

(** What stands in a field's place in the filled page: the value of
    the field's column, escaped; the placeholder itself when the
    record has no value there. *)
Definition field_shown (row : rowObj) (k : nat) : jsstring :=
  match Generator.mappings !! k with
  | Some entry =>
      match get_or row entry.1 [] with
      | [] => entry.2
      | value => DOM.text_innerHTML value
      end
  | None => []
  end.

(** What stands in the place of the file list: the file values,
    escaped, or a fixed sentence when there is none. *)
Definition files_shown (row : rowObj) : jsstring :=
  match Generator.fileValues row with
  | [] => lit "No files uploaded"
  | values => DOM.text_innerHTML values
  end.

Definition part_ok (p : part) : Prop :=
  match p with
  | Text t => bracket_free t
  | Field k => (k < length Generator.mappings)%nat
  | Files => True
  end.

Definition page (parts : list part) : jsstring :=
  List.flat_map
    (fun p =>
       match p with
       | Text t => t
       | Field k => field_token k
       | Files => Generator.fileMappings_placeholder
       end) parts.

Definition page_filled (row : rowObj) (parts : list part) : jsstring :=
  List.flat_map
    (fun p =>
       match p with
       | Text t => t
       | Field k => field_shown row k
       | Files => files_shown row
       end) parts.

(** The page after the first [j] rounds of the loop over
    [mappings]. *)
Definition page_after (row : rowObj) (j : nat) (parts : list part)
    : jsstring :=
  List.flat_map
    (fun p =>
       match p with
       | Text t => t
       | Field k => if (k <? j)%nat then field_shown row k else field_token k
       | Files => Generator.fileMappings_placeholder
       end) parts.

(** No value that the fill reads from the record holds an opening
    bracket. *)
Definition row_bracket_free (row : rowObj) : Prop :=
  (forall entry, entry ∈ Generator.mappings ->
     bracket_free (get_or row entry.1 []))
  /\ bracket_free (Generator.fileValues row).

(** The twelve placeholders of the html-docx variant, and the checks
    on them, by evaluation: each is an opening bracket followed by text
    without one, and two different ones differ at a position both
    have. *)
Definition tokens : list jsstring :=
  map snd Generator.mappings ++ [Generator.fileMappings_placeholder].

Definition tokens_bracketed : bool :=
  forallb
    (fun token =>
       match token with
       | c :: body => (c =? LBRACKET) && forallb (fun u => negb (u =? LBRACKET)) body
       | [] => false
       end) tokens.

Definition tokens_clash : bool :=
  forallb
    (fun j =>
       forallb
         (fun k => (j =? k)%nat || clash (nth j tokens []) (nth k tokens []))
         (seq 0 (length tokens)))
    (seq 0 (length tokens)).

(** The frame, when there is one, holds the fill of the row under the
    cursor. *)
Definition displays (template : option jsstring) (st : Preview.preview)
    : Prop :=
  match Preview.iframe st with
  | None => True
  | Some shown =>
      exists row, Preview.getCurrentRow st = Some row
        /\ Generator.fillTemplate template row = Normal shown
  end.

(** The cursor points at a row. *)
Definition on_a_row (st : Preview.preview) : Prop :=
  (0 <= Preview.currentIndex st < Z.of_nat (length (Preview.rows st)))%Z.

(** The page after a successful upload, as navigation keeps it: the
    preview goes over the parsed rows with the cursor on one of them,
    the frame shows that row, the navigation display is up to date, and
    the preview section is the one in view. *)
Definition settled (a : Controller.app) : Prop :=
  exists data,
    Controller.parsedData a = Some data
    /\ Preview.rows (Controller.preview a) = Parser.rows data
    /\ on_a_row (Controller.preview a)
    /\ displays (Controller.template a) (Controller.preview a)
    /\ Controller.updateNavigation a = a
    /\ Controller.uploadSection_hidden a = true
    /\ Controller.previewSection_hidden a = false.

(** The names [generateAll] gives the documents of [rows], made at
    the indices from [i] on. *)
Fixpoint filenames (i : N) (rows : list rowObj) : list jsstring :=
  match rows with
  | [] => []
  | row :: more => Generator.generateFilename row i :: filenames (i + 1) more
  end.

(** [s] is [pattern] up to the case of its letters. *)
Definition ci_equal (pattern s : jsstring) : Prop :=
  Forall2 (fun p c => Generator.same_letter p c = true) pattern s.

(** [pattern], in any case, starts nowhere in [piece], whatever
    follows it. *)
Definition starts_nowhere (pattern piece : jsstring) : Prop :=
  forall i rest, (i < length piece)%nat ->
    Generator.strip_prefix_ci pattern (drop i piece ++ rest) = None.

(** No placeholder of the docxtemplater variant begins in [piece]:
    from no position does the piece, as far as it goes, read like
    one. *)
Definition token_free (piece : jsstring) : Prop :=
  forall entry, entry ∈ GeneratorDocx.mappings ->
    inert (placeholder_of entry) piece.

(** Text between placeholders in which none begins; a token names an
    entry that exists. *)
Definition segment_safe (seg : segment) : Prop :=
  match seg with
  | Chunk t => token_free t
  | Token k => (k < length GeneratorDocx.mappings)%nat
  end.

(** No placeholder begins in a mapped value of the record. *)
Definition values_safe (row : rowObj) : Prop :=
  forall entry, entry ∈ GeneratorDocx.mappings ->
    token_free (get_or row entry.1 []).

(** The same for the html-docx variant, whose placeholders are the
    twelve of [tokens]. *)
Definition token_free_page (piece : jsstring) : Prop :=
  forall token, token ∈ tokens -> inert token piece.

Definition part_safe (p : part) : Prop :=
  match p with
  | Text t => token_free_page t
  | Field k => (k < length Generator.mappings)%nat
  | Files => True
  end.

Definition row_safe (row : rowObj) : Prop :=
  forall entry, entry ∈ Generator.mappings ->
    token_free_page (get_or row entry.1 []).

(** A check on the twelve placeholders, by evaluation: none holds an
    ampersand. *)
Definition tokens_without_ampersand : bool :=
  forallb (forallb (fun c => negb (c =? DOM.AMP))) tokens.

(** Checks by evaluation that no placeholder begins in a piece: at
    every position the piece and the placeholder differ at a place
    both have. *)
Definition begins_none (p piece : jsstring) : bool :=
  forallb (fun i => clash p (drop i piece)) (seq 0 (length piece)).

Definition begins_no_token (toks : list jsstring) (piece : jsstring) : bool :=
  forallb (fun p => begins_none p piece) toks.

(** * Theorems *)

(** ** The scanner, one code unit at a time *)

Section ScannerSteps.

Import Parser.

Variable st : scanner.
Variable rest : jsstring.

Lemma scan_quote_escaped :
  insideQuotes st = true ->
  scan st (DQUOTE :: DQUOTE :: rest) = scan (add_char DQUOTE st) rest.
Proof. intros Hq. cbn. rewrite Hq. reflexivity. Qed.

Lemma scan_quote_toggle :
  insideQuotes st = false \/ head rest <> Some DQUOTE ->
  scan st (DQUOTE :: rest) = scan (toggle_quotes st) rest.
Proof.
  intros H. cbn. destruct H as [Hq | Hn].
  - rewrite Hq. reflexivity.
  - rewrite (bool_decide_eq_false_2 _ Hn), andb_false_r. reflexivity.
Qed.

Lemma scan_comma :
  insideQuotes st = false ->
  scan st (COMMA :: rest) = scan (end_value st) rest.
Proof. intros Hq. cbn. rewrite Hq. reflexivity. Qed.

Lemma scan_lf :
  insideQuotes st = false ->
  scan st (LF :: rest) = scan (end_line st) rest.
Proof. intros Hq. cbn. rewrite Hq. reflexivity. Qed.

Lemma scan_crlf :
  insideQuotes st = false ->
  scan st (CR :: LF :: rest) = scan (end_line st) rest.
Proof. intros Hq. cbn. rewrite Hq. reflexivity. Qed.

Lemma scan_cr :
  insideQuotes st = true \/ head rest <> Some LF ->
  scan st (CR :: rest) = scan st rest.
Proof.
  intros H. cbn. destruct H as [Hq | Hn].
  - rewrite Hq, andb_false_r. reflexivity.
  - rewrite (bool_decide_eq_false_2 _ Hn). reflexivity.
Qed.

Lemma scan_unit (c : N) :
  c <> DQUOTE -> c <> CR ->
  insideQuotes st = true \/ (c <> COMMA /\ c <> LF) ->
  scan st (c :: rest) = scan (add_char c st) rest.
Proof.
  intros Hd Hc H. cbn [scan].
  apply N.eqb_neq in Hd, Hc. rewrite Hd, Hc. cbn.
  destruct H as [Hq | [Hm Hl]].
  - rewrite Hq, !andb_false_r. reflexivity.
  - apply N.eqb_neq in Hm, Hl. rewrite Hm, Hl. reflexivity.
Qed.

End ScannerSteps.

(** ** The scanner on written cells, lines and tables *)

Section ScannerRuns.

Import Parser.

Lemma scan_plain (v : jsstring) : forall ls cl cv iq rest,
  Forall (fun u => plain_unit u = true) v ->
  scan (Scanner ls cl cv iq) (v ++ rest) = scan (Scanner ls cl (cv ++ v) iq) rest.
Proof.
  induction v as [|c v IH]; intros ls cl cv iq rest Hv; cbn [app].
  - by rewrite app_nil_r.
  - inversion Hv as [|? ? Hc Hv']; subst.
    unfold plain_unit in Hc.
    rewrite !andb_true_iff, !negb_true_iff, !N.eqb_neq in Hc.
    destruct Hc as [[[Hd Hm] Hl] Hr].
    rewrite scan_unit by auto. unfold add_char; cbn.
    rewrite IH by done. by rewrite <- app_assoc.
Qed.

Lemma scan_quoted_body (v : jsstring) : forall ls cl cv rest,
  Forall (fun u => u <> CR) v ->
  head rest <> Some DQUOTE ->
  scan (Scanner ls cl cv true) (double_quotes v ++ DQUOTE :: rest)
  = scan (Scanner ls cl (cv ++ v) false) rest.
Proof.
  induction v as [|c v IH]; intros ls cl cv rest Hv Hrest.
  - cbn [double_quotes List.flat_map app].
    rewrite scan_quote_toggle by auto. by rewrite app_nil_r.
  - inversion Hv as [|? ? Hc Hv']; subst.
    unfold double_quotes; cbn [List.flat_map]; fold (double_quotes v).
    destruct (N.eqb_spec c DQUOTE) as [-> | Hd]; cbn [app].
    + rewrite scan_quote_escaped by done. unfold add_char; cbn.
      rewrite IH by done. by rewrite <- app_assoc.
    + rewrite scan_unit by auto. unfold add_char; cbn.
      rewrite IH by done. by rewrite <- app_assoc.
Qed.

Lemma scan_cell (c : cell) ls cl cv rest :
  cell_ok c ->
  head rest <> Some DQUOTE ->
  scan (Scanner ls cl cv false) (written_cell c ++ rest)
  = scan (Scanner ls cl (cv ++ cell_value c) false) rest.
Proof.
  intros Hc Hrest. destruct c as [v | v]; cbn [written_cell cell_value] in *.
  - by apply scan_plain.
  - cbn [app]. rewrite scan_quote_toggle by auto.
    rewrite <- app_assoc. cbn [app toggle_quotes negb lines currentLine
      currentValue insideQuotes].
    by apply scan_quoted_body.
Qed.

Lemma written_line_cons (c d : cell) (cells : list cell) :
  written_line (c :: d :: cells)
  = written_cell c ++ COMMA :: written_line (d :: cells).
Proof. reflexivity. Qed.

(** The cells of a line, the last one still open in [currentValue]. *)
Lemma scan_cells (cells : list cell) : forall c ls cl rest,
  Forall cell_ok (cells ++ [c]) ->
  head rest <> Some DQUOTE ->
  scan (Scanner ls cl [] false) (written_line (cells ++ [c]) ++ rest)
  = scan (Scanner ls (cl ++ map cell_value cells) (cell_value c) false) rest.
Proof.
  induction cells as [|d cells IH]; intros c ls cl rest Hok Hrest.
  - cbn. rewrite app_nil_r. inversion Hok; subst.
    change (scan (Scanner ls cl [] false) (written_cell c ++ rest)
            = scan (Scanner ls cl ([] ++ cell_value c) false) rest).
    by apply scan_cell.
  - inversion Hok as [|? ? Hd Hok']; subst.
    assert (exists e more, cells ++ [c] = e :: more) as (e & more & E)
      by (destruct cells; cbn; eauto).
    cbn [app]. rewrite E, written_line_cons, <- E, <- app_assoc. cbn [app].
    rewrite scan_cell by (auto; cbn; discriminate).
    rewrite scan_comma by done. unfold end_value; cbn.
    rewrite IH by done. by rewrite <- app_assoc.
Qed.

Lemma scan_line (cells : list cell) (t : terminator) ls rest :
  line_ok cells ->
  scan (Scanner ls [] [] false) (written_line cells ++ written_end t ++ rest)
  = scan (Scanner (ls ++ [map cell_value cells]) [] [] false) rest.
Proof.
  intros [Hne Hok].
  destruct (exists_last Hne) as (init & c & ->).
  rewrite scan_cells by (auto; destruct t; cbn; discriminate).
  rewrite map_app. cbn [map app].
  destruct t; cbn [written_end app].
  - by rewrite scan_lf.
  - by rewrite scan_crlf.
Qed.

Lemma scan_table (table : list (list cell * terminator)) : forall ls rest,
  Forall (fun r => line_ok r.1) table ->
  scan (Scanner ls [] [] false) (written_table table ++ rest)
  = scan (Scanner (ls ++ table_values table) [] [] false) rest.
Proof.
  induction table as [|[cells t] table IH]; intros ls rest Hok.
  - cbn. by rewrite app_nil_r.
  - inversion Hok as [|? ? Hl Hok']; subst.
    unfold written_table, table_values; cbn [List.flat_map map fst snd].
    fold (written_table table); fold (table_values table).
    rewrite <- !app_assoc, scan_line by done.
    rewrite IH by done. by rewrite <- app_assoc.
Qed.

End ScannerRuns.

(** C4, as the code has it.  [parseCSVText] reads back what a CSV
    writer wrote.  Whatever the cells hold, a table of lines, each
    ended by [\n] or [\r\n], parses to the cells' values, line by
    line: a comma, a line feed or a doubled quote inside a quoted cell
    is part of the cell's value (the doubled quote as one quote), and
    a comma or a line end outside quotes separates.  Text after the
    last terminator gives one more line, with one exception: when that
    text is a single cell with an empty value, the empty quoted cell
    among them, the check after the loop sees neither a value nor a
    cell and adds no line.  The spec's example, a quoted cell holding
    [Smith,] then [Bob] between doubled quotes then [Jones], parses to
    one value in which [Bob] stands between plain quotes. *)
Theorem parseCSVText_reads_written (table : list (list cell * terminator)) :
  Forall (fun r => line_ok r.1) table ->
  Parser.parseCSVText (written_table table) = table_values table
  /\ (forall last : list cell,
        line_ok last ->
        Parser.parseCSVText (written_table table ++ written_line last)
        = table_values table
          ++ (if bool_decide (map cell_value last = [[]]) then []
              else [map cell_value last]))
  /\ Parser.parseCSVText (written_table table ++ [DQUOTE; DQUOTE])
     = table_values table
  /\ Parser.parseCSVText
       (DQUOTE :: lit "Smith, " ++ [DQUOTE; DQUOTE] ++ lit "Bob"
          ++ [DQUOTE; DQUOTE] ++ lit " Jones" ++ [DQUOTE])
     = [[lit "Smith, " ++ [DQUOTE] ++ lit "Bob" ++ [DQUOTE] ++ lit " Jones"]].
Proof.
  intros Htable.
  assert (Hlast : forall last : list cell,
            line_ok last ->
            Parser.parseCSVText (written_table table ++ written_line last)
            = table_values table
              ++ (if bool_decide (map cell_value last = [[]]) then []
                  else [map cell_value last])).
  { intros last [Hne Hlast]. unfold Parser.parseCSVText, Parser.start.
    rewrite scan_table by done.
    destruct (exists_last Hne) as (init & c & ->).
    rewrite <- (app_nil_r (written_line _)), scan_cells by (auto; discriminate).
    rewrite map_app. cbn [map app Parser.scan].
    unfold Parser.finish.
    cbn [Parser.currentValue Parser.currentLine Parser.lines app].
    destruct (cell_value c) as [|u v] eqn:Ev;
      destruct (map cell_value init) as [|x xs] eqn:Ei;
      cbn [falsy negb orb length Nat.ltb Nat.leb app];
      case_bool_decide as Hd; try done.
    - by rewrite app_nil_r.
    - exfalso. injection Hd as _ Hd. by destruct xs.
    - exfalso. injection Hd as _ Hd. by destruct xs. }
  split; [|split; [exact Hlast|split]].
  - unfold Parser.parseCSVText, Parser.start.
    rewrite <- (app_nil_r (written_table table)), scan_table by done.
    reflexivity.
  - change [DQUOTE; DQUOTE] with (written_line [Quoted []]).
    rewrite (Hlast [Quoted []]), app_nil_r; [done|].
    split; [done|]. repeat constructor.
  - vm_compute. reflexivity.
Qed.

(** ** Carriage returns in the scanner *)

Section CarriageReturns.

Import Parser.

Lemma clean_add_char c st : c <> CR -> clean st -> clean (add_char c st).
Proof.
  intros Hc (Hl & Hc' & Hv). repeat split; cbn; try done.
  apply Forall_app; split; [done|]. by constructor.
Qed.

Lemma clean_toggle_quotes st : clean st -> clean (toggle_quotes st).
Proof. intros (Hl & Hc' & Hv). by repeat split. Qed.

Lemma clean_end_value st : clean st -> clean (end_value st).
Proof.
  intros (Hl & Hc' & Hv). repeat split; cbn; try done.
  - apply Forall_app; split; [done|]. by constructor.
  - constructor.
Qed.

Lemma clean_end_line st : clean st -> clean (end_line st).
Proof.
  intros (Hl & Hc' & Hv). repeat split; cbn; try constructor.
  apply Forall_app; split; [done|]. constructor; [|constructor].
  apply Forall_app; split; [done|]. by constructor.
Qed.

Lemma scan_clean (n : nat) : forall text st,
  (length text <= n)%nat -> clean st -> clean (scan st text).
Proof.
  induction n as [|n IH]; intros [|c rest] st Hlen Hst; cbn [length] in Hlen;
    try done; try lia.
  cbn [scan].
  assert (Hrest : (length rest <= n)%nat) by lia.
  assert (Htail : forall st', clean st' ->
            clean match rest with [] => st' | _ :: rest' => scan st' rest' end).
  { intros st' Hst'. destruct rest as [|d rest']; [done|].
    apply IH; [cbn in Hrest; lia | done]. }
  repeat case_match; subst;
    try (apply Htail);
    try (apply IH; [done|]);
    auto using clean_add_char, clean_toggle_quotes, clean_end_value,
      clean_end_line.
  all: apply clean_add_char; [|done].
  all: first [discriminate | by apply N.eqb_neq, negb_true_iff].
Qed.

Lemma finish_clean st : clean st -> Forall (Forall no_CR) (finish st).
Proof.
  intros (Hl & Hc & Hv). unfold finish. case_match; [|done].
  apply Forall_app; split; [done|]. constructor; [|constructor].
  apply Forall_app; split; [done|]. by constructor.
Qed.

Lemma may_drop_tail c d before after :
  may_drop (c :: d :: before) after -> may_drop (d :: before) after.
Proof. unfold may_drop. intros H E. exact (H E). Qed.

Lemma may_drop_tail2 c d before after :
  may_drop (c :: d :: before) after -> may_drop before after.
Proof.
  unfold may_drop. intros H E. destruct before as [|e before]; [done|].
  exact (H E).
Qed.

Lemma scan_unit_any c st :
  c <> DQUOTE -> c <> CR ->
  exists st', forall rest, scan st (c :: rest) = scan st' rest.
Proof.
  intros Hd Hr. destruct (insideQuotes st) eqn:Hq.
  - exists (add_char c st). intros. apply scan_unit; auto.
  - destruct (N.eqb_spec c COMMA) as [-> | Hm].
    { exists (end_value st). intros. by apply scan_comma. }
    destruct (N.eqb_spec c LF) as [-> | Hl].
    { exists (end_line st). intros. by apply scan_lf. }
    exists (add_char c st). intros. apply scan_unit; auto.
Qed.

Lemma scan_drop_CR (n : nat) (after : jsstring) :
  head after <> Some LF ->
  forall before st,
  (length before <= n)%nat ->
  may_drop before after ->
  scan st (before ++ CR :: after) = scan st (before ++ after).
Proof.
  intros Hlf. induction n as [|n IH]; intros before st Hlen Hq.
  { destruct before; [|cbn in Hlen; lia]. cbn [app]. by apply scan_cr; right. }
  assert (Hcr : forall st', scan st' (CR :: after) = scan st' after)
    by (intros; apply scan_cr; by right).
  destruct before as [|c [|d before]]; cbn [app].
  - apply Hcr.
  - destruct (N.eqb_spec c DQUOTE) as [-> | Hd].
    + rewrite !scan_quote_toggle; [apply Hcr| |].
      * right. intros E. by apply (Hq E).
      * right. cbn. discriminate.
    + destruct (N.eqb_spec c CR) as [-> | Hr].
      * rewrite (scan_cr st (CR :: after)) by (right; cbn; discriminate).
        done.
      * destruct (scan_unit_any c st Hd Hr) as [st' E]. by rewrite !E.
  - cbn [length] in Hlen.
    pose proof (may_drop_tail _ _ _ _ Hq) as Hq1.
    pose proof (may_drop_tail2 _ _ _ _ Hq) as Hq2.
    assert (H1 : forall st', scan st' (d :: before ++ CR :: after)
                             = scan st' (d :: before ++ after))
      by (intros; apply (IH (d :: before)); [cbn; lia | done]).
    assert (H2 : forall st', scan st' (before ++ CR :: after)
                             = scan st' (before ++ after))
      by (intros; apply IH; [lia | done]).
    destruct (N.eqb_spec c DQUOTE) as [-> | Hd].
    { destruct (insideQuotes st) eqn:Hin.
      - destruct (N.eqb_spec d DQUOTE) as [-> | Hdd].
        + by rewrite !scan_quote_escaped.
        + rewrite !scan_quote_toggle; [apply H1| |]; right; cbn; congruence.
      - rewrite !scan_quote_toggle by auto. apply H1. }
    destruct (N.eqb_spec c CR) as [-> | Hr].
    { destruct (insideQuotes st) eqn:Hin.
      - rewrite !scan_cr by auto. apply H1.
      - destruct (N.eqb_spec d LF) as [-> | Hdl].
        + by rewrite !scan_crlf.
        + rewrite !scan_cr; [apply H1| |]; right; cbn; congruence. }
    destruct (scan_unit_any c st Hd Hr) as [st' E]. rewrite !E. apply H1.
Qed.
End CarriageReturns.

(** C4, at a concrete table: two lines with quoted and bare cells, a
    comma, doubled quotes and a line feed inside quotes, both kinds of
    line end, and a last line without one. *)
Lemma parseCSVText_reads_written_witness :
  let smith := lit "Smith, " ++ [DQUOTE] ++ lit "Bob" ++ [DQUOTE] ++ lit " Jones" in
  let table := [ ([Quoted smith; Plain (lit "x")], EndCRLF);
                 ([Plain []; Quoted (lit "a" ++ [LF] ++ lit "b")], EndLF) ] in
  let last := [Plain (lit "z"); Quoted []] in
  Parser.parseCSVText (written_table table ++ written_line last)
  = [ [smith; lit "x"]; [[]; lit "a" ++ [LF] ++ lit "b"]; [lit "z"; []] ].
Proof.
  cbv zeta.
  refine (eq_trans (proj1 (proj2 (parseCSVText_reads_written _ _)) _ _) _).
  - repeat constructor; try discriminate.
  - repeat constructor; discriminate.
  - vm_compute. reflexivity.
Defined.

(** C4 as claimed fails on a last line that is an empty quoted cell:
    two double quotes after the last line feed give no line, though
    the same two followed by a line feed give the line of one empty
    cell. *)
Lemma parseCSVText_no_line_for_empty_quotes :
  Parser.parseCSVText (lit "a" ++ [LF; DQUOTE; DQUOTE]) = [[lit "a"]]
  /\ Parser.parseCSVText (lit "a" ++ [LF; DQUOTE; DQUOTE; LF])
     = [[lit "a"]; [[]]].
Proof. split; vm_compute; reflexivity. Qed.

(** C9. A carriage return never reaches a parsed value, and one that
    is not followed by a line feed (or that stands inside quotes) is
    passed over with the four loop variables unchanged, so it ends no
    line; taking it out of the text changes nothing, unless that
    brings two double quotes together.  A line feed inside quotes is
    kept in the value. *)
Theorem parseCSVText_drops_lone_CR :
  (forall text, Forall (Forall no_CR) (Parser.parseCSVText text))
  /\ (forall st rest,
        Parser.insideQuotes st = true \/ head rest <> Some LF ->
        Parser.scan st (CR :: rest) = Parser.scan st rest)
  /\ (forall before after,
        head after <> Some LF -> may_drop before after ->
        Parser.parseCSVText (before ++ CR :: after)
        = Parser.parseCSVText (before ++ after))
  /\ (forall st rest,
        Parser.insideQuotes st = true ->
        Parser.scan st (LF :: rest) = Parser.scan (Parser.add_char LF st) rest)
  /\ Parser.parseCSVText
       (lit "a" ++ [CR] ++ lit "b," ++ [DQUOTE] ++ lit "c" ++ [CR] ++ lit "d"
          ++ [LF] ++ lit "e" ++ [DQUOTE])
     = [[lit "ab"; lit "cd" ++ [LF] ++ lit "e"]].
Proof.
  split; [|split; [|split; [|split]]].
  - intros text. apply finish_clean, (scan_clean (length text)); [done|].
    repeat split; constructor.
  - intros st rest. apply scan_cr.
  - intros before after Hlf Hq. unfold Parser.parseCSVText.
    by rewrite (scan_drop_CR (length before)).
  - intros st rest Hq. apply scan_unit; [discriminate..|by left].
  - vm_compute. reflexivity.
Qed.

(** ** From lines to records *)

Section Rows.

Import Parser.

Lemma rows_loop_filter (headers : list jsstring) (data : list (list jsstring)) :
  forall rows,
  rows_loop headers data rows
  = rows ++ map (to_rowObj headers) (List.filter nonblank data).
Proof.
  induction data as [|line data IH]; intros rows; cbn [rows_loop List.filter].
  - by rewrite app_nil_r.
  - unfold nonblank at 1. destruct (blank_line line); cbn [negb].
    + apply IH.
    + rewrite IH, <- app_assoc. reflexivity.
Qed.

Lemma to_rowObj_snoc (headers : list jsstring) (h : jsstring)
    (line : list jsstring) :
  to_rowObj (headers ++ [h]) line
  = assign (to_rowObj headers line) h (default [] (line !! length headers)).
Proof.
  unfold to_rowObj. rewrite imap_app, fold_left_app. cbn.
  by rewrite Nat.add_0_r.
Qed.

Lemma assign_lookup (obj : rowObj) (key value h : jsstring) :
  h <> lit "__proto__" ->
  assign obj key value !! h = <[key := value]> obj !! h.
Proof.
  intros Hh. unfold assign, str_eqb. case_bool_decide as Hkey; [|done].
  subst key. by rewrite lookup_insert_ne.
Qed.

Lemma to_rowObj_lookup (line : list jsstring) (h : jsstring) :
  h <> lit "__proto__" ->
  forall headers,
  (h ∉ headers -> to_rowObj headers line !! h = None)
  /\ (forall i, headers !! i = Some h ->
        (forall j, (i < j)%nat -> headers !! j <> Some h) ->
        to_rowObj headers line !! h = Some (default [] (line !! i))).
Proof.
  intros Hproto headers. induction headers as [|h' headers IH] using rev_ind.
  - split; [by intros|]. by intros i Hi.
  - destruct IH as [IHn IHs]. rewrite to_rowObj_snoc, assign_lookup by done.
    split.
    + intros Hn. rewrite not_elem_of_app, list_elem_of_singleton in Hn.
      destruct Hn as [Hn Hne]. rewrite lookup_insert_ne by done. by apply IHn.
    + intros i Hi Hlast.
      destruct (decide (i = length headers)) as [-> | Hne].
      * rewrite list_lookup_middle in Hi by done.
        injection Hi as ->. by rewrite lookup_insert_eq.
      * assert (Hlt : (i < length headers)%nat).
        { apply lookup_lt_Some in Hi. rewrite length_app in Hi. cbn in Hi. lia. }
        rewrite lookup_app_l in Hi by done.
        assert (h' <> h).
        { intros ->. apply (Hlast (length headers) Hlt).
          by rewrite list_lookup_middle. }
        rewrite lookup_insert_ne by done.
        apply IHs; [done|]. intros j Hj Hj'.
        apply (Hlast j Hj). rewrite lookup_app_l; [done|].
        by apply lookup_lt_Some in Hj'.
Qed.

Lemma grid_to_result_rows (too_short : jsstring) (lines : list (list jsstring)) :
  (2 <= length lines)%nat ->
  grid_to_result too_short lines
  = Normal {| headers := map trim (default [] (head lines));
              rows := map (to_rowObj (map trim (default [] (head lines))))
                        (List.filter nonblank (drop 1 lines)) |}.
Proof.
  intros Hlen. unfold grid_to_result.
  destruct (Nat.ltb_spec (length lines) 2) as [|_]; [lia|].
  by rewrite rows_loop_filter.
Qed.

Lemma grid_to_result_throws (too_short : jsstring) (lines : list (list jsstring)) :
  (length lines < 2)%nat -> grid_to_result too_short lines = Throw too_short.
Proof.
  intros Hlen. unfold grid_to_result.
  by destruct (Nat.ltb_spec (length lines) 2) as [_|]; [|lia].
Qed.

Lemma count_nonblank_le (lines : list (list jsstring)) :
  (count_nonblank lines <= length lines)%nat.
Proof. apply List.filter_length_le. Qed.

End Rows.

(** C8. A grid of at least two lines, which is what the parser
    accepts, gives one record per non-blank line after the first, in
    the order of the lines: the rows are the non-blank data lines, each
    zipped against the trimmed headers, and a blank line leaves no
    record wherever it stands.  In a record a header (other than
    [__proto__], which an object does not store) reads the cell at the
    position of the header's last occurrence, the empty string when the
    line is shorter. *)
Theorem parse_keeps_nonblank_rows (lines : list (list jsstring)) :
  (2 <= length lines)%nat ->
  let headers := map trim (default [] (head lines)) in
  let data := List.filter nonblank (drop 1 lines) in
  let result := {| Parser.headers := headers;
                   Parser.rows := map (Parser.to_rowObj headers) data |} in
  Parser.parseExcel lines = Normal result
  /\ (forall text, Parser.parseCSVText text = lines ->
        Parser.parseCSV text = Normal result)
  /\ length (Parser.rows result) = count_nonblank (drop 1 lines)
  /\ (forall before line after, drop 1 lines = before ++ line :: after ->
        Parser.blank_line line = true ->
        data = List.filter nonblank before ++ List.filter nonblank after)
  /\ (forall line i h, headers !! i = Some h -> h <> lit "__proto__" ->
        (forall j, (i < j)%nat -> headers !! j <> Some h) ->
        Parser.to_rowObj headers line !! h = Some (default [] (line !! i))).
Proof.
  intros Hlen headers data result.
  split; [|split; [|split; [|split]]].
  - by apply grid_to_result_rows.
  - intros text <-. by apply grid_to_result_rows.
  - cbn. by rewrite length_map.
  - intros before line after E Hb. subst data. rewrite E, List.filter_app.
    cbn [List.filter]. unfold nonblank at 2. by rewrite Hb.
  - intros line i h Hi Hproto. by apply to_rowObj_lookup.
Qed.

(** C8, at a concrete text: a header, a data line, a blank line and a
    second data line that is shorter than the header. *)
Lemma parse_keeps_nonblank_rows_witness :
  let text := lit "Client,Site" ++ [CR; LF] ++ lit "Acme,North" ++ [LF]
              ++ lit " ," ++ [LF] ++ lit "Bolt" in
  Parser.parseCSV text
  = Normal {| Parser.headers := [lit "Client"; lit "Site"];
              Parser.rows :=
                map (Parser.to_rowObj [lit "Client"; lit "Site"])
                  [[lit "Acme"; lit "North"]; [lit "Bolt"]] |}.
Proof.
  cbv zeta.
  refine (proj1 (proj2 (parse_keeps_nonblank_rows
    [[lit "Client"; lit "Site"]; [lit "Acme"; lit "North"]; [lit " "; []];
     [lit "Bolt"]] _)) _ _).
  - cbn. lia.
  - vm_compute. reflexivity.
Defined.

(** C3, as the code has it.  The parser throws its too-short error
    exactly when the grid has fewer than two lines, blank ones counted;
    it throws nothing else, and whenever it throws the input has fewer
    than two non-blank lines.  A grid of two or more lines is accepted
    even if every data line is blank: the rows are then empty, and it
    is [processFile] that throws, with its own message. *)
Theorem parse_too_short_iff (text : jsstring) (jsonData : list (list jsstring)) :
  (Parser.parseCSV text = Throw Parser.csv_too_short
   <-> (length (Parser.parseCSVText text) < 2)%nat)
  /\ (Parser.parseExcel jsonData = Throw Parser.excel_too_short
      <-> (length jsonData < 2)%nat)
  /\ (forall message, Parser.parseCSV text = Throw message ->
        message = Parser.csv_too_short
        /\ (count_nonblank (Parser.parseCSVText text) < 2)%nat)
  /\ (forall result, Parser.parseCSV text = Normal result ->
        (Parser.rows result = []
         <-> count_nonblank (drop 1 (Parser.parseCSVText text)) = 0%nat)
        /\ (App.processCSV text = Throw App.no_data_rows
            <-> Parser.rows result = [])).
Proof.
  assert (Hiff : forall too_short lines,
            Parser.grid_to_result too_short lines = Throw too_short
            <-> (length lines < 2)%nat).
  { intros too_short lines. split.
    - intros E. destruct (Nat.lt_ge_cases (length lines) 2) as [|Hge]; [done|].
      by rewrite grid_to_result_rows in E.
    - apply grid_to_result_throws. }
  split; [apply Hiff|]. split; [apply Hiff|]. split.
  - intros message E. unfold Parser.parseCSV in E.
    destruct (Nat.lt_ge_cases (length (Parser.parseCSVText text)) 2) as [Hlt|Hge].
    + rewrite grid_to_result_throws in E by done. injection E as <-.
      split; [done|]. pose proof (count_nonblank_le (Parser.parseCSVText text)). lia.
    + by rewrite grid_to_result_rows in E.
  - intros result E. unfold App.processCSV. rewrite E.
    unfold Parser.parseCSV in E.
    destruct (Nat.lt_ge_cases (length (Parser.parseCSVText text)) 2) as [Hlt|Hge].
    { by rewrite grid_to_result_throws in E. }
    rewrite grid_to_result_rows in E by done. injection E as <-. cbn.
    unfold count_nonblank.
    destruct (List.filter nonblank (drop 1 (Parser.parseCSVText text)));
      cbn; split; split; intros; done.
Qed.

(** C3 as claimed fails on a header followed by a blank line: only
    one line is not blank, and the parser answers with the headers and
    no rows instead of throwing. *)
Lemma parseCSV_accepts_blank_data :
  let text := lit "a,b" ++ [LF] ++ lit " ," ++ [LF] in
  count_nonblank (Parser.parseCSVText text) = 1%nat
  /\ Parser.parseCSV text
     = Normal {| Parser.headers := [lit "a"; lit "b"]; Parser.rows := [] |}.
Proof. cbv zeta. split; vm_compute; reflexivity. Qed.

(** ** File names *)

Section Filenames.

Import Generator.

Lemma runs_text (s : jsstring) : List.flat_map run_text (runs s) = s.
Proof.
  induction s as [|c s IH]; [done|]. cbn [runs].
  destruct (is_space c), (runs s) as [|[g|w] more]; cbn in *; by rewrite ?IH.
Qed.

Lemma runs_ok (s : jsstring) : Forall run_ok (runs s) /\ alternating (runs s).
Proof.
  induction s as [|c s [IHok IHalt]]; [by split; [constructor|]|].
  cbn [runs]. destruct (is_space c) eqn:Hc, (runs s) as [|[g|w] more].
  all: inversion IHok as [|r rs Hr Hrs]; subst; cbn in *.
  all: split; [repeat constructor; try done; try tauto|].
  all: try done.
  all: try (destruct Hr as [? ?]; done).
  all: try (destruct more as [|[?|?] ?]; cbn in *; tauto).
Qed.

Lemma underscore_spaces_runs (s : jsstring) :
  underscore_spaces false s = render (runs s)
  /\ underscore_spaces true s = render_open (runs s).
Proof.
  induction s as [|c s [IHf IHt]]; [done|].
  cbn [underscore_spaces runs].
  destruct (is_space c); rewrite ?IHf, ?IHt;
    destruct (runs s) as [|[g|w] more]; done.
Qed.

Lemma underscore_spaces_units (s : jsstring) : forall in_match,
  Forall (fun c => kept c = true) s ->
  Forall (fun c => stem_unit c = true) (underscore_spaces in_match s).
Proof.
  induction s as [|c s IH]; intros in_match Hs; [constructor|].
  inversion Hs as [|? ? Hc Hs']; subst. cbn [underscore_spaces].
  destruct (is_space c) eqn:Hsp.
  - destruct in_match; [by apply IH|]. constructor; [done|by apply IH].
  - constructor; [|by apply IH].
    unfold kept in Hc. unfold stem_unit. rewrite Hsp in Hc.
    by rewrite orb_false_r in Hc.
Qed.

Lemma sanitized_units (name : jsstring) :
  (length (sanitized name) <= 50)%nat
  /\ Forall (fun c => stem_unit c = true) (sanitized name).
Proof.
  unfold sanitized, substring0. split.
  - rewrite length_take. lia.
  - apply Forall_take, underscore_spaces_units.
    unfold delete_unkept. apply List.Forall_forall. intros c Hc.
    by apply List.filter_In in Hc as [_ Hc].
Qed.

End Filenames.

(** C5. [generateFilename] is a function of the record's Client value
    and the index alone.  The name it works from is the Client value,
    or [Document_<index+1>] when the record has none (or an empty
    one); from it the code
    units outside letters, digits, white space, hyphen and underscore
    are deleted, every maximal run of white space becomes one
    underscore ([runs] cuts a string into its maximal runs: their
    texts give the string back, none is empty, and white and other
    runs alternate), the first 50 code units are kept, and
    [_Specification.docx] is appended.  The stem has at most 50 code
    units, all of them letters, digits, hyphens or underscores.  Both
    generators name files alike. *)
Theorem generateFilename_spec (rowData : rowObj) (index : N) :
  exists clientName stem,
    (rowData !! lit "Client" = None \/ rowData !! lit "Client" = Some [] ->
       clientName = lit "Document_" ++ decimal (index + 1))
    /\ (forall value, rowData !! lit "Client" = Some value -> value <> [] ->
          clientName = value)
    /\ stem = take 50 (one_underscore_per_run (List.filter Generator.kept clientName))
    /\ (forall s, List.flat_map run_text (runs s) = s
                  /\ Forall run_ok (runs s) /\ alternating (runs s))
    /\ Generator.generateFilename rowData index = stem ++ lit "_Specification.docx"
    /\ GeneratorDocx.generateFilename rowData index
       = Generator.generateFilename rowData index
    /\ (length stem <= 50)%nat
    /\ Forall (fun c => stem_unit c = true) stem
    /\ (forall other : rowObj, other !! lit "Client" = rowData !! lit "Client" ->
          Generator.generateFilename other index
          = Generator.generateFilename rowData index)
    /\ Generator.generateFilename {[ lit "Client" := lit "Acme & Sons, Inc." ]} 0
       = lit "Acme_Sons_Inc_Specification.docx"
    /\ Generator.generateFilename ∅ 2 = lit "Document_3_Specification.docx".
Proof.
  exists (get_or rowData (lit "Client") (lit "Document_" ++ decimal (index + 1))).
  exists (Generator.sanitized
            (get_or rowData (lit "Client") (lit "Document_" ++ decimal (index + 1)))).
  split; [|split; [|split; [|split; [|split; [|split; [|split; [|split; [|split; [|split]]]]]]]]].
  - intros [E | E]; unfold get_or; by rewrite E.
  - intros value E Hne. unfold get_or. rewrite E. by destruct value.
  - unfold Generator.sanitized, substring0, Generator.delete_unkept,
      one_underscore_per_run.
    by rewrite (proj1 (underscore_spaces_runs _)).
  - intros s. split; [apply runs_text | apply runs_ok].
  - reflexivity.
  - reflexivity.
  - apply sanitized_units.
  - apply sanitized_units.
  - intros other E. unfold Generator.generateFilename, get_or. by rewrite E.
  - vm_compute. reflexivity.
  - vm_compute. reflexivity.
Qed.

(** ** Archive names: the loop of [createZip] *)

Section ZipNames.

Variable Blob : Type.
Variable rewrite : jsstring -> N -> jsstring.

(** The names the documents may have: none is a rewritten name, and
    rewriting tells names and counters apart. *)
Variable good : jsstring -> Prop.
Hypothesis rewrite_fresh :
  forall f f' k, good f -> good f' -> rewrite f' k <> f.
Hypothesis rewrite_inj :
  forall f f' k k', good f -> good f' ->
    rewrite f k = rewrite f' k' -> f = f' /\ k = k'.

Lemma occurrences_elem (f : jsstring) (seen : list jsstring) :
  (0 < occurrences f seen)%nat <-> f ∈ seen.
Proof.
  unfold occurrences. induction seen as [|g seen IH]; cbn.
  - split; [lia | by intros ?%elem_of_nil].
  - rewrite elem_of_cons. destruct (decide (g = f)) as [-> | Hne].
    + rewrite bool_decide_eq_true_2 by done. cbn. split; [auto | lia].
    + rewrite bool_decide_eq_false_2 by done. rewrite IH.
      split; [auto | by intros [-> | ?]].
Qed.

Lemma occurrences_cons (f g : jsstring) (seen : list jsstring) :
  occurrences f (g :: seen)
  = if decide (g = f) then S (occurrences f seen) else occurrences f seen.
Proof.
  unfold occurrences; cbn. destruct (decide (g = f)).
  - by rewrite bool_decide_eq_true_2.
  - by rewrite bool_decide_eq_false_2.
Qed.

Lemma occurrences_le (f : jsstring) (seen : list jsstring) :
  (occurrences f seen <= length seen)%nat.
Proof. apply List.filter_length_le. Qed.

Lemma free_name_counts (used : gset (list N)) (f : jsstring) (d : nat) :
  forall fuel k,
  (d < fuel)%nat ->
  (forall i, (k <= i < k + d)%nat -> rewrite f (N.of_nat i) ∈ used) ->
  rewrite f (N.of_nat (k + d)) ∉ used ->
  Zip.free_name rewrite fuel used f (rewrite f (N.of_nat k)) (N.of_nat k + 1)
  = Some (rewrite f (N.of_nat (k + d))).
Proof.
  induction d as [|d IH]; intros [|fuel] k Hfuel Hin Hout; try lia;
    cbn [Zip.free_name].
  - rewrite Nat.add_0_r in *. by rewrite bool_decide_eq_false_2.
  - rewrite bool_decide_eq_true_2 by (apply Hin; lia).
    replace (N.of_nat k + 1) with (N.of_nat (S k)) by lia.
    replace (k + S d)%nat with (S k + d)%nat in * by lia.
    apply IH; [lia | | done]. intros i Hi. apply Hin. lia.
Qed.

Lemma free_name_expected (seen : list jsstring) (used : gset (list N))
    (f : jsstring) (fuel : nat) :
  names_after rewrite seen used ->
  Forall good seen -> good f ->
  (occurrences f seen < fuel)%nat ->
  Zip.free_name rewrite fuel used f f 1 = Some (expected rewrite seen f).
Proof.
  intros Hused Hseen Hf Hfuel. unfold expected.
  rewrite List.Forall_forall in Hseen.
  assert (Hgood : forall g, g ∈ seen -> good g)
    by (intros g Hg; by apply Hseen, list_elem_of_In).
  destruct (occurrences f seen) as [|c] eqn:Hc.
  - destruct fuel as [|fuel]; [lia|]. cbn [Zip.free_name].
    rewrite bool_decide_eq_false_2; [done|].
    rewrite (Hused f). intros [Hin | (g & k & Hg & _ & E)].
    + apply occurrences_elem in Hin. lia.
    + by apply (rewrite_fresh f g (N.of_nat k)); auto.
  - destruct fuel as [|fuel]; [lia|]. cbn [Zip.free_name].
    rewrite bool_decide_eq_true_2.
    2:{ apply Hused. left. apply occurrences_elem. lia. }
    change 2 with (N.of_nat 1 + 1). change 1 with (N.of_nat 1) at 1.
    replace (S c) with (1 + c)%nat by lia.
    apply free_name_counts; [lia | |].
    + intros i Hi. apply Hused. right. exists f, i.
      split; [apply occurrences_elem; lia|]. split; [lia|done].
    + rewrite (Hused _). intros [Hin | (g & k & Hg & Hk & E)].
      * apply (rewrite_fresh (rewrite f (N.of_nat (1 + c))) f (N.of_nat (1 + c)));
          auto.
      * apply rewrite_inj in E as [<- E]; auto. lia.
Qed.

Lemma names_after_step (seen : list jsstring) (used : gset (list N))
    (f : jsstring) :
  names_after rewrite seen used ->
  names_after rewrite (f :: seen) ({[expected rewrite seen f]} ∪ used).
Proof.
  intros Hused name. rewrite elem_of_union, elem_of_singleton, (Hused name).
  unfold expected. split.
  - intros [-> | [Hin | (g & k & Hg & Hk & ->)]].
    + destruct (occurrences f seen) as [|c] eqn:Hc.
      * left. apply elem_of_cons. by left.
      * right. exists f, (S c). split; [apply elem_of_cons; by left|].
        rewrite occurrences_cons, decide_True by done. split; [lia|done].
    + left. apply elem_of_cons. by right.
    + right. exists g, k. split; [apply elem_of_cons; by right|].
      rewrite occurrences_cons. split; [|done]. case_decide; lia.
  - intros [Hin | (g & k & Hg & Hk & ->)].
    + apply elem_of_cons in Hin as [-> | Hin]; [|by right; left].
      destruct (occurrences f seen) as [|c] eqn:Hc; [by left|].
      right; left. apply occurrences_elem. lia.
    + rewrite occurrences_cons in Hk. destruct (decide (f = g)) as [<- | Hne].
      * destruct (decide (k = occurrences f seen)) as [-> | Hk'].
        -- left. destruct (occurrences f seen); [lia|done].
        -- right; right. exists f, k.
           split; [apply occurrences_elem; lia|]. split; [lia|done].
      * apply elem_of_cons in Hg as [-> | Hg]; [done|].
        right; right. by exists g, k.
Qed.

Lemma zip_loop_expected (documents : list (Zip.document Blob)) :
  forall fuel seen used zip,
  names_after rewrite seen used ->
  Forall good seen ->
  Forall good (map Zip.filename documents) ->
  (length seen + length documents <= fuel)%nat ->
  Zip.zip_loop Blob rewrite fuel documents used zip
  = Some (zip ++ combine (expected_names rewrite seen (map Zip.filename documents))
                    (map Zip.blob documents)).
Proof.
  induction documents as [|doc documents IH];
    intros fuel seen used zip Hused Hseen Hdocs Hfuel; cbn.
  - by rewrite app_nil_r.
  - inversion Hdocs as [|? ? Hdoc Hdocs']; subst. cbn [length] in Hfuel.
    rewrite (free_name_expected seen) by
      (auto; pose proof (occurrences_le (Zip.filename doc) seen); lia).
    rewrite (IH fuel (Zip.filename doc :: seen)).
    + by rewrite <- app_assoc.
    + by apply names_after_step.
    + by constructor.
    + done.
    + cbn. lia.
Qed.

End ZipNames.

(** ** Decimal numerals and the [.docx] suffix *)

Section Numerals.

Lemma lit_inj (a b : string) : lit a = lit b -> a = b.
Proof.
  unfold lit. intros E.
  rewrite <- (string_of_list_ascii_of_string a),
          <- (string_of_list_ascii_of_string b).
  f_equal. revert E.
  generalize (list_ascii_of_string a) (list_ascii_of_string b).
  intros l. induction l as [|x l IH]; intros [|y l'] E; try done.
  cbn in E. injection E as Exy E. f_equal; [|by apply IH].
  by rewrite <- (ascii_N_embedding x), <- (ascii_N_embedding y), Exy.
Qed.

Lemma decimal_inj (n m : N) : decimal n = decimal m -> n = m.
Proof.
  unfold decimal. intros E%lit_inj.
  apply DecimalN.Unsigned.to_uint_inj.
  assert (Hnil : forall k, N.to_uint k <> Decimal.Nil).
  { intros [|p]; [done|]. apply DecimalPos.Unsigned.to_uint_nonnil. }
  pose proof (NilZero.usu _ (Hnil n)) as Hn.
  pose proof (NilZero.usu _ (Hnil m)) as Hm.
  rewrite E in Hn. congruence.
Qed.

Lemma digits_of_uint (d : Decimal.uint) :
  Forall (fun c => is_digit c = true) (lit (NilEmpty.string_of_uint d)).
Proof. induction d; cbn; constructor; done. Qed.

Lemma decimal_digits (n : N) : Forall (fun c => is_digit c = true) (decimal n).
Proof.
  unfold decimal, NilZero.string_of_uint.
  destruct (N.to_uint n); try apply digits_of_uint.
  by repeat constructor.
Qed.

Lemma decimal_nonempty (n : N) : decimal n <> [].
Proof.
  unfold decimal, NilZero.string_of_uint.
  assert (Hnil : N.to_uint n <> Decimal.Nil).
  { destruct n as [|p]; [done|]. apply DecimalPos.Unsigned.to_uint_nonnil. }
  destruct (N.to_uint n); done.
Qed.

(** Two texts that agree and each hold [u] only where shown. *)
Lemma split_at_first (u : N) (d : jsstring) : forall d' r r',
  u ∉ d -> u ∉ d' -> d ++ u :: r = d' ++ u :: r' -> d = d' /\ r = r'.
Proof.
  induction d as [|x d IH]; intros [|y d'] r r' Hd Hd' E; cbn in E.
  - by injection E.
  - injection E as -> _. exfalso. apply Hd'. by left.
  - injection E as -> _. exfalso. apply Hd. by left.
  - injection E as -> E. apply not_elem_of_cons in Hd as [_ Hd], Hd' as [_ Hd'].
    destruct (IH d' r r' Hd Hd' E) as [-> ->]. done.
Qed.

Lemma split_at_last (u : N) (a a' d d' : jsstring) :
  u ∉ d -> u ∉ d' -> a ++ u :: d = a' ++ u :: d' -> a = a' /\ d = d'.
Proof.
  intros Hd Hd' E. apply (f_equal (@rev N)) in E.
  rewrite !rev_app_distr in E. cbn in E. rewrite <- !app_assoc in E. cbn in E.
  apply split_at_first in E as [E1 E2].
  - split; [by apply rev_inj | by apply rev_inj].
  - intros Hin. apply Hd. by apply list_elem_of_In, in_rev, list_elem_of_In.
  - intros Hin. apply Hd'. by apply list_elem_of_In, in_rev, list_elem_of_In.
Qed.

Lemma digits_no_underscore (n : N) : Generator.UNDERSCORE ∉ decimal n.
Proof.
  intros Hin. pose proof (decimal_digits n) as Hd.
  rewrite List.Forall_forall in Hd. by apply list_elem_of_In, Hd in Hin.
Qed.

End Numerals.

(** ** Rewriting a generated name *)

Section GeneratedNames.

Lemma stem_unit_no_dot (c : N) : stem_unit c = true -> (46 =? c) = false.
Proof.
  intros Hc. apply N.eqb_neq. intros <-. discriminate.
Qed.

Lemma cut_docx (stem : jsstring) :
  Forall (fun c => stem_unit c = true) stem ->
  cut (lit ".docx") (stem ++ Generator.suffix)
  = Some (stem ++ lit "_Specification", []).
Proof.
  induction stem as [|c stem IH]; intros Hs.
  - vm_compute. reflexivity.
  - inversion Hs as [|? ? Hc Hs']; subst.
    cbn [app cut]. rewrite (IH Hs').
    change (lit ".docx") with [46; 100; 111; 99; 120].
    cbn [strip_prefix]. by rewrite (stem_unit_no_dot c Hc).
Qed.

Lemma rewrite_generated (stem : jsstring) (k : N) :
  Forall (fun c => stem_unit c = true) stem ->
  Generator.rewrite (stem ++ Generator.suffix) k
  = (stem ++ lit "_Specification") ++ Generator.UNDERSCORE :: decimal k ++ lit ".docx"
  /\ GeneratorDocx.rewrite (stem ++ Generator.suffix) k
     = (stem ++ lit "_Specification") ++ Generator.UNDERSCORE :: decimal k ++ lit ".docx".
Proof.
  intros Hs. unfold Generator.rewrite, GeneratorDocx.rewrite, replace_first.
  rewrite (cut_docx stem Hs). cbn [app]. rewrite !app_nil_r.
  split; [done|]. by rewrite <- !app_assoc.
Qed.

Lemma rewrite_fresh (f f' : jsstring) (k : N) :
  generated f -> generated f' -> Generator.rewrite f' k <> f.
Proof.
  intros (stem & -> & Hs) (stem' & -> & Hs') E.
  rewrite (proj1 (rewrite_generated stem' k Hs')) in E.
  change Generator.suffix with (lit "_Specificatio" ++ [110] ++ lit ".docx") in E.
  change (?a ++ Generator.UNDERSCORE :: decimal k ++ lit ".docx")
    with (a ++ (Generator.UNDERSCORE :: decimal k) ++ lit ".docx") in E.
  rewrite !app_assoc in E. apply app_inv_tail in E.
  destruct (exists_last (decimal_nonempty k)) as (ds & d & Ed).
  pose proof (decimal_digits k) as Hd. rewrite Ed in Hd, E.
  apply Forall_app in Hd as [_ Hd]. inversion Hd as [|? ? Hdigit _]; subst.
  change (Generator.UNDERSCORE :: ds ++ [d])
    with ((Generator.UNDERSCORE :: ds) ++ [d]) in E.
  rewrite !app_assoc in E. apply app_inj_tail in E as [_ ->]. discriminate.
Qed.

Lemma rewrite_inj (f f' : jsstring) (k k' : N) :
  generated f -> generated f' ->
  Generator.rewrite f k = Generator.rewrite f' k' -> f = f' /\ k = k'.
Proof.
  intros (stem & -> & Hs) (stem' & -> & Hs') E.
  rewrite (proj1 (rewrite_generated stem k Hs)),
          (proj1 (rewrite_generated stem' k' Hs')) in E.
  change (?a ++ Generator.UNDERSCORE :: ?d ++ lit ".docx")
    with (a ++ (Generator.UNDERSCORE :: d) ++ lit ".docx") in E.
  rewrite !(app_assoc _ _ (lit ".docx")) in E. apply app_inv_tail in E.
  apply split_at_last in E as [E1 E2]; try apply digits_no_underscore.
  apply app_inv_tail in E1 as ->. by apply decimal_inj in E2 as ->.
Qed.

Lemma rewrite_counter_inj (f : jsstring) (k k' : N) :
  Generator.rewrite f k = Generator.rewrite f k' -> k = k'.
Proof.
  unfold Generator.rewrite. intros E.
  apply app_inv_head in E. apply app_inv_head in E.
  by apply app_inv_tail, decimal_inj in E.
Qed.

End GeneratedNames.

(** ** Archive names: no name twice, and the loop ends *)

Section ZipUnique.

Variable Blob : Type.
Variable rewrite : jsstring -> N -> jsstring.

Lemma free_name_unused (used : gset (list N)) (f : jsstring) (fuel : nat) :
  forall candidate counter name,
  Zip.free_name rewrite fuel used f candidate counter = Some name ->
  name ∉ used.
Proof.
  induction fuel as [|fuel IH]; intros candidate counter name E; [done|].
  cbn in E. case_bool_decide as Hin; [by eapply IH|]. by injection E as <-.
Qed.

Lemma zip_loop_unique (documents : list (Zip.document Blob)) :
  forall fuel used zip out,
  (forall name, name ∈ zip.*1 -> name ∈ used) ->
  NoDup zip.*1 ->
  Zip.zip_loop Blob rewrite fuel documents used zip = Some out ->
  NoDup out.*1 /\ out.*2 = zip.*2 ++ map Zip.blob documents.
Proof.
  induction documents as [|doc documents IH];
    intros fuel used zip out Hsub Hnd E; cbn in E.
  - injection E as <-. by rewrite app_nil_r.
  - destruct (Zip.free_name rewrite fuel used (Zip.filename doc)
                (Zip.filename doc) 1) as [name|] eqn:Ename; [|done].
    apply free_name_unused in Ename.
    apply IH in E as [Hout Hblobs].
    + split; [done|]. rewrite Hblobs, fmap_app, <- app_assoc. done.
    + intros n. rewrite fmap_app, elem_of_app. cbn.
      rewrite list_elem_of_singleton. intros [Hn | ->].
      * apply elem_of_union_r. by apply Hsub.
      * by apply elem_of_union_l, elem_of_singleton.
    + rewrite fmap_app. apply NoDup_app. split; [done|]. split.
      * intros n Hn. cbn. rewrite list_elem_of_singleton. intros ->.
        by apply Ename, Hsub.
      * cbn. apply NoDup_singleton.
Qed.

Hypothesis counter_inj : forall f k k', rewrite f k = rewrite f k' -> k = k'.

Lemma counters_ge (n : nat) : forall c k, k ∈ counters c n -> c <= k.
Proof.
  induction n as [|n IH]; intros c k Hk; cbn in Hk.
  - by apply elem_of_nil in Hk.
  - apply elem_of_cons in Hk as [-> | Hk]; [lia|]. apply IH in Hk. lia.
Qed.

Lemma counters_NoDup (n : nat) : forall c, NoDup (counters c n).
Proof.
  induction n as [|n IH]; intros c; cbn; constructor; [|apply IH].
  intros Hin%counters_ge. lia.
Qed.

Lemma counters_length (n : nat) : forall c, length (counters c n) = n.
Proof. induction n as [|n IH]; intros c; cbn; [done|]. by rewrite IH. Qed.

Lemma free_name_None (used : gset (list N)) (f : jsstring) (fuel : nat) :
  forall candidate counter,
  Zip.free_name rewrite fuel used f candidate counter = None ->
  Forall (fun k => rewrite f k ∈ used) (counters counter (pred fuel)).
Proof.
  induction fuel as [|fuel IH]; intros candidate counter E; [constructor|].
  cbn in E. case_bool_decide as Hin; [|done].
  destruct fuel as [|fuel]; [constructor|].
  pose proof (IH _ _ E) as Hrest. cbn [pred counters] in *.
  constructor; [|done].
  cbn in E. by case_bool_decide.
Qed.

Lemma free_name_total (used : gset (list N)) (f : jsstring) (fuel : nat)
    (candidate : jsstring) (counter : N) :
  (size used + 1 < fuel)%nat ->
  exists name, Zip.free_name rewrite fuel used f candidate counter = Some name.
Proof.
  intros Hfuel.
  destruct (Zip.free_name rewrite fuel used f candidate counter) as [name|] eqn:E;
    [by exists name|].
  apply free_name_None in E. exfalso.
  assert (Hsub : rewrite f <$> counters counter (pred fuel) ⊆+ elements used).
  { apply NoDup_submseteq.
    - apply NoDup_fmap_2; [|apply counters_NoDup].
      intros k k'. apply counter_inj.
    - intros name (k & -> & Hk)%list_elem_of_fmap. apply elem_of_elements.
      rewrite List.Forall_forall in E. by apply E, list_elem_of_In. }
  apply submseteq_length in Hsub.
  rewrite length_fmap, counters_length in Hsub.
  unfold size, set_size in Hfuel. cbn in Hfuel. lia.
Qed.

Lemma zip_loop_total (documents : list (Zip.document Blob)) :
  forall fuel used zip,
  (size used + length documents < fuel)%nat ->
  exists out, Zip.zip_loop Blob rewrite fuel documents used zip = Some out.
Proof.
  induction documents as [|doc documents IH]; intros fuel used zip Hfuel; cbn.
  - by eexists.
  - cbn [length] in Hfuel.
    destruct (free_name_total used (Zip.filename doc) fuel (Zip.filename doc) 1)
      as [name ->]; [lia|].
    apply IH.
    pose proof (size_union_alt {[name]} used) as Hsz.
    rewrite size_singleton in Hsz.
    assert (Hdiff : used ∖ {[name]} ⊆ used)
      by (intros x Hx; by apply elem_of_difference in Hx as [? _]).
    apply subseteq_size in Hdiff. lia.
Qed.

End ZipUnique.

(** ** Archive names: the two generators on generated names *)

Section ZipGenerated.

Variable Blob : Type.

Lemma rewrite_docx_agrees (f : jsstring) (k : N) :
  generated f -> GeneratorDocx.rewrite f k = Generator.rewrite f k.
Proof.
  intros (stem & -> & Hs).
  destruct (rewrite_generated stem k Hs) as [-> ->]. done.
Qed.

Lemma expected_names_agree (todo : list jsstring) : forall seen,
  Forall generated todo ->
  expected_names GeneratorDocx.rewrite seen todo
  = expected_names Generator.rewrite seen todo.
Proof.
  induction todo as [|f todo IH]; intros seen Hgen; [done|].
  inversion Hgen as [|? ? Hf Hgen']; subst. cbn. rewrite IH by done.
  f_equal. unfold expected. destruct (occurrences f seen); [done|].
  by apply rewrite_docx_agrees.
Qed.

Lemma occurrences_rev (f : jsstring) (l : list jsstring) :
  occurrences f (rev l ++ []) = occurrences f l.
Proof.
  unfold occurrences. by rewrite app_nil_r, List.filter_rev, length_rev.
Qed.

Lemma expected_names_lookup (rewrite : jsstring -> N -> jsstring)
    (todo : list jsstring) : forall seen i f,
  todo !! i = Some f ->
  expected_names rewrite seen todo !! i
  = Some (expected rewrite (rev (take i todo) ++ seen) f).
Proof.
  induction todo as [|g todo IH]; intros seen [|i] f Hi; try done.
  - cbn in *. by injection Hi as ->.
  - cbn [expected_names take rev]. rewrite <- app_assoc.
    exact (IH (g :: seen) i f Hi).
Qed.

Lemma expected_names_length (rewrite : jsstring -> N -> jsstring)
    (todo : list jsstring) : forall seen,
  length (expected_names rewrite seen todo) = length todo.
Proof. induction todo as [|g todo IH]; intros seen; cbn; by rewrite ?IH. Qed.

Lemma combine_fst (names : list jsstring) : forall blobs : list Blob,
  length names = length blobs -> (combine names blobs).*1 = names.
Proof.
  induction names as [|n names IH]; intros [|b blobs] Hlen; cbn in *; try done.
  rewrite IH; [done | lia].
Qed.

Lemma createZip_generated (documents : list (Zip.document Blob)) (fuel : nat) :
  (length documents <= fuel)%nat ->
  Forall generated (map Zip.filename documents) ->
  Generator.createZip fuel documents
  = Some (combine (expected_names Generator.rewrite [] (map Zip.filename documents))
            (map Zip.blob documents))
  /\ GeneratorDocx.createZip fuel documents = Generator.createZip fuel documents.
Proof.
  intros Hfuel Hgen.
  assert (Hnone : names_after Generator.rewrite [] ∅).
  { intros name. split; [by intros ?%not_elem_of_empty|].
    intros [?%elem_of_nil | (f & k & ?%elem_of_nil & _)]; done. }
  assert (Hnone' : names_after GeneratorDocx.rewrite [] ∅).
  { intros name. split; [by intros ?%not_elem_of_empty|].
    intros [?%elem_of_nil | (f & k & ?%elem_of_nil & _)]; done. }
  unfold Generator.createZip, GeneratorDocx.createZip, Zip.createZip.
  rewrite (zip_loop_expected Blob Generator.rewrite generated
             rewrite_fresh rewrite_inj documents fuel [] ∅ [])
    by (auto; constructor).
  split; [done|].
  rewrite (zip_loop_expected Blob GeneratorDocx.rewrite generated)
    with (seen := []).
  - by rewrite expected_names_agree.
  - intros f f' k Hf Hf'. rewrite rewrite_docx_agrees by done.
    by apply rewrite_fresh.
  - intros f f' k k' Hf Hf'. rewrite !rewrite_docx_agrees by done.
    by apply rewrite_inj.
  - done.
  - constructor.
  - done.
  - done.
Qed.

End ZipGenerated.




(** The loop of src/js/generator.js rewrites inside the name: on a
    taken name without [.docx] it rewrites nothing and never finds a
    free name.  No name of [generateFilename] is of that kind. *)
Lemma createZip_docx_needs_suffix (fuel : nat) :
  GeneratorDocx.createZip fuel
    [Zip.Document (lit "a") tt; Zip.Document (lit "a") tt] = None.
Proof.
  assert (Hloop : forall n candidate counter,
            candidate = lit "a" ->
            Zip.free_name GeneratorDocx.rewrite n ({[lit "a"]} ∪ ∅) (lit "a")
              candidate counter = None).
  { induction n as [|n IH]; intros candidate counter ->; [done|].
    cbn [Zip.free_name].
    rewrite bool_decide_eq_true_2
      by (by apply elem_of_union_l, elem_of_singleton).
    by apply IH. }
  unfold GeneratorDocx.createZip, Zip.createZip.
  destruct fuel as [|fuel]; [done|]. cbn [Zip.zip_loop Zip.free_name].
  rewrite bool_decide_eq_false_2 by apply not_elem_of_empty.
  cbn [Zip.filename].
  rewrite bool_decide_eq_true_2
    by (by apply elem_of_union_l, elem_of_singleton).
  by rewrite Hloop.
Qed.

(** ** The preview cursor *)

Section Cursor.

Import Preview.

Variable template : option jsstring.

Lemma render_keeps (st st' : preview) :
  render template st = Normal st' ->
  rows st' = rows st /\ currentIndex st' = currentIndex st.
Proof.
  unfold render. intros E. repeat case_match; simplify_eq; done.
Qed.

Lemma moved_keeps (st : preview) :
  rows (moved template st).1 = rows st
  /\ currentIndex (moved template st).1 = currentIndex st
  /\ ((moved template st).2 = Normal true
      \/ exists message, (moved template st).2 = Throw message).
Proof.
  unfold moved. destruct (render template st) as [st'|message] eqn:E; cbn.
  - apply render_keeps in E as [-> ->]. auto.
  - eauto.
Qed.

Lemma render_succeeds (st : preview) :
  loaded template \/ iframe st = None ->
  (0 <= currentIndex st < Z.of_nat (length (rows st)))%Z ->
  exists st', render template st = Normal st'.
Proof.
  intros Hload Hidx. unfold render.
  destruct (iframe st) as [doc|] eqn:Hframe; [|by eexists].
  destruct Hload as [(html & -> & Hne) | ?]; [|done].
  destruct (length (rows st) =? 0)%nat; [by eexists|].
  unfold row_at. destruct (Z.ltb_spec (currentIndex st) 0) as [|_]; [lia|].
  destruct (lookup_lt_is_Some_2 (rows st) (Z.to_nat (currentIndex st)))
    as [row ->]; [lia|].
  unfold Generator.fillTemplate. destruct html; [done|]. by eexists.
Qed.

Lemma moved_true (st : preview) :
  loaded template \/ iframe st = None ->
  (0 <= currentIndex st < Z.of_nat (length (rows st)))%Z ->
  (moved template st).2 = Normal true.
Proof.
  intros Hload Hidx. unfold moved.
  by destruct (render_succeeds st Hload Hidx) as [st' ->].
Qed.

Lemma next_at_last (st : preview) :
  at_last st -> next template st = (st, Normal false).
Proof.
  unfold at_last, next. intros H.
  by destruct (Z.ltb_spec (currentIndex st) (Z.of_nat (length (rows st)) - 1));
    [lia|].
Qed.

Lemma next_moves (st : preview) :
  ~ at_last st ->
  next template st = moved template (with_index st (currentIndex st + 1)).
Proof.
  unfold at_last, next. intros H.
  by destruct (Z.ltb_spec (currentIndex st) (Z.of_nat (length (rows st)) - 1));
    [|lia].
Qed.

Lemma previous_at_first (st : preview) :
  (currentIndex st <= 0)%Z -> previous template st = (st, Normal false).
Proof.
  unfold previous. intros H. rewrite Z.gtb_ltb.
  by destruct (Z.ltb_spec 0 (currentIndex st)); [lia|].
Qed.

Lemma previous_moves (st : preview) :
  (0 < currentIndex st)%Z ->
  previous template st = moved template (with_index st (currentIndex st - 1)).
Proof.
  unfold previous. intros H. rewrite Z.gtb_ltb.
  by destruct (Z.ltb_spec 0 (currentIndex st)); [|lia].
Qed.

Lemma at_last_dec (st : preview) : at_last st \/ ~ at_last st.
Proof. unfold at_last. lia. Qed.

End Cursor.

Section CursorMoves.

Import Preview.

Variable template : option jsstring.

Lemma moved_no_frame (st : preview) :
  iframe st = None -> moved template st = (st, Normal true).
Proof. intros E. unfold moved, render. by rewrite E. Qed.

(** A successful [next], with what the following call needs. *)
Lemma next_step (st : preview) :
  loaded template \/ iframe st = None ->
  (0 <= currentIndex st < Z.of_nat (length (rows st)) - 1)%Z ->
  (next template st).2 = Normal true
  /\ rows (next template st).1 = rows st
  /\ currentIndex (next template st).1 = (currentIndex st + 1)%Z
  /\ (loaded template \/ iframe (next template st).1 = None).
Proof.
  intros Hload Hidx.
  rewrite next_moves by (unfold at_last; lia).
  destruct (moved_keeps template (with_index st (currentIndex st + 1)))
    as (Hrows & Hcur & _).
  split; [apply moved_true; [done | cbn; lia]|].
  split; [done|]. split; [done|].
  destruct Hload as [? | Hnone]; [by left|]. right.
  by rewrite moved_no_frame.
Qed.

End CursorMoves.

(** C7. With rows to show, the cursor stays on one of them: [setRows]
    puts it on 0, and [next], [previous], [goTo] and [clear] keep it in
    range.  [next] on the last row (or without rows) changes nothing and
    returns false; elsewhere it moves the cursor one up and returns
    true, or passes on what [render] throws when no template is
    loaded.  [previous] mirrors it at row 0.  After [setRows] with
    three rows, [previous] returns false at 0, two [next] go to 1 and
    2 returning true, and the third and fourth [next] return false at
    2. *)
Theorem preview_cursor (template : option jsstring) (st : Preview.preview) :
  cursor_ok st ->
  (forall rows, cursor_ok (Preview.setRows st rows)
                /\ Preview.currentIndex (Preview.setRows st rows) = 0%Z
                /\ Preview.rows (Preview.setRows st rows) = rows)
  /\ cursor_ok (Preview.next template st).1
  /\ cursor_ok (Preview.previous template st).1
  /\ (forall index, cursor_ok (Preview.goTo template st index).1)
  /\ cursor_ok (Preview.clear st)
  /\ (at_last st -> Preview.next template st = (st, Normal false))
  /\ (~ at_last st ->
        Preview.currentIndex (Preview.next template st).1
        = (Preview.currentIndex st + 1)%Z
        /\ Preview.rows (Preview.next template st).1 = Preview.rows st
        /\ ((Preview.next template st).2 = Normal true
            \/ exists message, (Preview.next template st).2 = Throw message)
        /\ (loaded template \/ Preview.iframe st = None ->
              Preview.rows st <> [] ->
              (Preview.next template st).2 = Normal true))
  /\ ((Preview.currentIndex st <= 0)%Z ->
        Preview.previous template st = (st, Normal false))
  /\ ((0 < Preview.currentIndex st)%Z ->
        Preview.currentIndex (Preview.previous template st).1
        = (Preview.currentIndex st - 1)%Z
        /\ Preview.rows (Preview.previous template st).1 = Preview.rows st
        /\ ((Preview.previous template st).2 = Normal true
            \/ exists message, (Preview.previous template st).2 = Throw message)
        /\ (loaded template \/ Preview.iframe st = None ->
              Preview.rows st <> [] ->
              (Preview.previous template st).2 = Normal true))
  /\ (forall r0 r1 r2 : rowObj,
        loaded template \/ Preview.iframe st = None ->
        let s0 := Preview.setRows st [r0; r1; r2] in
        let p := Preview.previous template s0 in
        let n1 := Preview.next template p.1 in
        let n2 := Preview.next template n1.1 in
        let n3 := Preview.next template n2.1 in
        let n4 := Preview.next template n3.1 in
        (p.2, Preview.currentIndex p.1) = (Normal false, 0%Z)
        /\ (n1.2, Preview.currentIndex n1.1) = (Normal true, 1%Z)
        /\ (n2.2, Preview.currentIndex n2.1) = (Normal true, 2%Z)
        /\ (n3.2, Preview.currentIndex n3.1) = (Normal false, 2%Z)
        /\ (n4.2, Preview.currentIndex n4.1) = (Normal false, 2%Z)).
Proof.
  intros Hok.
  assert (Hnext : ~ at_last st ->
            Preview.currentIndex (Preview.next template st).1
            = (Preview.currentIndex st + 1)%Z
            /\ Preview.rows (Preview.next template st).1 = Preview.rows st
            /\ ((Preview.next template st).2 = Normal true
                \/ exists message, (Preview.next template st).2 = Throw message)).
  { intros Hnot. rewrite next_moves by done.
    destruct (moved_keeps template
                (Preview.with_index st (Preview.currentIndex st + 1)))
      as (Hrows & Hcur & Hres). by rewrite Hrows, Hcur. }
  assert (Hprev : (0 < Preview.currentIndex st)%Z ->
            Preview.currentIndex (Preview.previous template st).1
            = (Preview.currentIndex st - 1)%Z
            /\ Preview.rows (Preview.previous template st).1 = Preview.rows st
            /\ ((Preview.previous template st).2 = Normal true
                \/ exists message,
                     (Preview.previous template st).2 = Throw message)).
  { intros Hpos. rewrite previous_moves by done.
    destruct (moved_keeps template
                (Preview.with_index st (Preview.currentIndex st - 1)))
      as (Hrows & Hcur & Hres). by rewrite Hrows, Hcur. }
  repeat apply conj.
  - intros rows. split; [|done]. intros Hne. cbn.
    destruct rows; [done|]. cbn [length]. lia.
  - destruct (at_last_dec st) as [Hlast | Hnot].
    + by rewrite next_at_last.
    + destruct (Hnext Hnot) as (Hcur & Hrows & _).
      unfold cursor_ok, at_last in *. rewrite Hcur, Hrows. intros Hne.
      specialize (Hok Hne). lia.
  - destruct (Z.le_gt_cases (Preview.currentIndex st) 0) as [Hle | Hgt].
    + by rewrite previous_at_first.
    + destruct (Hprev Hgt) as (Hcur & Hrows & _).
      unfold cursor_ok in *. rewrite Hcur, Hrows. intros Hne.
      specialize (Hok Hne). lia.
  - intros index. unfold Preview.goTo.
    destruct (_ && _) eqn:Hrange; [|done].
    apply andb_true_iff in Hrange as [H0 Hlen].
    apply Z.geb_le in H0. apply Z.ltb_lt in Hlen.
    destruct (Preview.render template (Preview.with_index st index))
      as [st'|message] eqn:E; cbn.
    + apply render_keeps in E as [Hrows Hcur].
      unfold cursor_ok. rewrite Hrows, Hcur. cbn. lia.
    + unfold cursor_ok. cbn. lia.
  - by intros Hne.
  - apply next_at_last.
  - intros Hnot. destruct (Hnext Hnot) as (Hcur & Hrows & Hres).
    repeat split; try done. intros Hload Hne.
    rewrite next_moves by done. apply moved_true; [done|].
    specialize (Hok Hne). unfold at_last in Hnot. cbn. lia.
  - apply previous_at_first.
  - intros Hpos. destruct (Hprev Hpos) as (Hcur & Hrows & Hres).
    repeat split; try done. intros Hload Hne.
    rewrite previous_moves by done. apply moved_true; [done|].
    specialize (Hok Hne). cbn. lia.
  - intros r0 r1 r2 Hload s0 p n1 n2 n3 n4.
    assert (Ep : p = (s0, Normal false)) by (by apply previous_at_first).
    destruct (next_step template p.1) as (E1 & R1 & C1 & L1);
      [by rewrite Ep | rewrite Ep; cbn; lia|].
    fold n1 in E1, R1, C1, L1. rewrite Ep in R1, C1. cbn in R1, C1.
    destruct (next_step template n1.1) as (E2 & R2 & C2 & L2);
      [done | rewrite R1, C1; cbn; lia|].
    fold n2 in E2, R2, C2, L2. rewrite R1 in R2. rewrite C1 in C2.
    assert (E3 : n3 = (n2.1, Normal false)).
    { apply next_at_last. unfold at_last. rewrite R2, C2. cbn. lia. }
    assert (E4 : n4 = (n2.1, Normal false)).
    { subst n4. rewrite E3. cbn. apply next_at_last.
      unfold at_last. rewrite R2, C2. cbn. lia. }
    rewrite Ep, E1, C1, E2, C2, E3, E4. cbn. rewrite C2. done.
Qed.

(** C7, at a navigator without a frame holding two rows, cursor on
    the first, and a loaded template. *)
Lemma preview_cursor_witness :
  let st := {| Preview.iframe := None; Preview.rows := [∅; ∅];
               Preview.currentIndex := 0 |} in
  Preview.next (Some (lit "x")) st
  = ({| Preview.iframe := None; Preview.rows := [∅; ∅];
        Preview.currentIndex := 1 |}, Normal true)
  /\ cursor_ok (Preview.next (Some (lit "x")) st).1.
Proof.
  cbv zeta. split; [reflexivity|].
  refine (proj1 (proj2 (preview_cursor (Some (lit "x"))
    {| Preview.iframe := None; Preview.rows := [∅; ∅];
       Preview.currentIndex := 0 |} _))).
  intros _. cbn. lia.
Defined.

(** ** Searching and replacing in strings *)

Section Replace.

Variable p : jsstring.
Hypothesis p_nonempty : p <> [].

Lemma p_length : (0 < length p)%nat.
Proof. destruct p; [done | cbn; lia]. Qed.

Lemma strip_prefix_Some (sep : jsstring) : forall s after,
  strip_prefix sep s = Some after -> s = sep ++ after.
Proof.
  induction sep as [|a sep IH]; intros s after E; cbn in E.
  - by injection E as ->.
  - destruct s as [|b s]; [done|].
    destruct (N.eqb_spec a b) as [-> | _]; [|done].
    by rewrite (IH _ _ E).
Qed.

Lemma strip_prefix_app (sep rest : jsstring) :
  strip_prefix sep (sep ++ rest) = Some rest.
Proof. induction sep as [|a sep IH]; cbn; [done|]. by rewrite N.eqb_refl. Qed.

Lemma cut_Some (s : jsstring) : forall before after,
  cut p s = Some (before, after) -> s = before ++ p ++ after.
Proof.
  induction s as [|c s IH]; intros before after E; cbn in E.
  - destruct (strip_prefix p []) as [a|] eqn:Ea; [|done].
    injection E as <- <-. by apply strip_prefix_Some in Ea.
  - destruct (strip_prefix p (c :: s)) as [a|] eqn:Ea.
    + injection E as <- <-. by apply strip_prefix_Some in Ea.
    + destruct (cut p s) as [[b a]|] eqn:Ec; [|done].
      injection E as <- <-. by rewrite (IH _ _ eq_refl).
Qed.

Lemma cut_here (rest : jsstring) : cut p (p ++ rest) = Some ([], rest).
Proof.
  destruct (p ++ rest) as [|c s] eqn:E; cbn; rewrite <- E, strip_prefix_app; done.
Qed.

Lemma cut_nil : cut p [] = None.
Proof. destruct p; [done|]. reflexivity. Qed.

Lemma cut_inert (piece : jsstring) : forall rest,
  inert p piece ->
  cut p (piece ++ rest)
  = match cut p rest with
    | Some (before, after) => Some (piece ++ before, after)
    | None => None
    end.
Proof.
  induction piece as [|c piece IH]; intros rest Hin.
  - cbn [app]. by destruct (cut p rest) as [[b a]|].
  - cbn [app cut].
    pose proof (Hin 0%nat rest ltac:(cbn; lia)) as H0. cbn [drop app] in H0.
    rewrite H0, IH.
    + by destruct (cut p rest) as [[b a]|].
    + intros i rest' Hi. apply (Hin (S i) rest'). cbn. lia.
Qed.

Lemma split_loop_fuel (fuel : nat) : forall fuel' s,
  (length s < fuel)%nat -> (length s < fuel')%nat ->
  split_loop fuel p s = split_loop fuel' p s.
Proof.
  induction fuel as [|fuel IH]; intros [|fuel'] s H1 H2; try lia. cbn.
  destruct (cut p s) as [[b a]|] eqn:E; [|done].
  apply cut_Some in E. f_equal. apply IH.
  all: subst s; rewrite !length_app in *; pose proof p_length; lia.
Qed.

Lemma split_unfold (s : jsstring) : split p s = split_loop (S (length s)) p s.
Proof. unfold split. by destruct p. Qed.

Lemma split_cut (s : jsstring) :
  split p s
  = match cut p s with
    | Some (before, after) => before :: split p after
    | None => [s]
    end.
Proof.
  rewrite split_unfold. cbn.
  destruct (cut p s) as [[b a']|] eqn:E; [|done].
  f_equal. rewrite split_unfold. apply split_loop_fuel; [|lia].
  apply cut_Some in E. subst s. rewrite !length_app.
  pose proof p_length. lia.
Qed.

Lemma split_nonempty (s : jsstring) : split p s <> [].
Proof. rewrite split_cut. by destruct (cut p s) as [[b a]|]. Qed.

Lemma replace_all_cut (v s : jsstring) :
  replace_all p v s
  = match cut p s with
    | Some (before, after) => before ++ v ++ replace_all p v after
    | None => s
    end.
Proof.
  unfold replace_all. rewrite split_cut.
  destruct (cut p s) as [[b a]|]; [|done].
  pose proof (split_nonempty a). cbn [join]. by destruct (split p a).
Qed.

Lemma replace_all_nil (v : jsstring) : replace_all p v [] = [].
Proof. by rewrite replace_all_cut, cut_nil. Qed.

Lemma replace_all_here (v rest : jsstring) :
  replace_all p v (p ++ rest) = v ++ replace_all p v rest.
Proof. by rewrite replace_all_cut, cut_here. Qed.

Lemma replace_all_inert (v piece rest : jsstring) :
  inert p piece ->
  replace_all p v (piece ++ rest) = piece ++ replace_all p v rest.
Proof.
  intros Hin. rewrite (replace_all_cut v (piece ++ rest)), cut_inert by done.
  rewrite (replace_all_cut v rest).
  destruct (cut p rest) as [[b a]|]; [|done]. by rewrite <- app_assoc.
Qed.

(** Putting the pattern back where it was found changes nothing. *)
Lemma replace_all_same (n : nat) : forall s,
  (length s <= n)%nat -> replace_all p p s = s.
Proof.
  induction n as [|n IH]; intros s Hlen; rewrite replace_all_cut;
    destruct (cut p s) as [[b a]|] eqn:E; try done;
    apply cut_Some in E; subst s; rewrite !length_app in Hlen.
  - pose proof p_length. lia.
  - rewrite IH; [done|]. pose proof p_length. lia.
Qed.

End Replace.

Lemma inert_bracket_free (p' piece : jsstring) :
  bracket_free piece -> inert (LBRACKET :: p') piece.
Proof.
  intros Hfree i rest Hi.
  destruct (drop i piece) as [|c tail] eqn:E.
  - apply (f_equal length) in E. rewrite length_drop in E. cbn in E. lia.
  - cbn [strip_prefix app]. assert (Hc : c ∈ piece).
    { apply list_elem_of_lookup. exists i. rewrite <- (Nat.add_0_r i).
      rewrite <- lookup_drop, E. done. }
    unfold bracket_free in Hfree. rewrite List.Forall_forall in Hfree.
    apply list_elem_of_In, Hfree in Hc.
    by destruct (N.eqb_spec LBRACKET c) as [Heq | _].
Qed.

Lemma clash_strip (p q rest : jsstring) :
  clash p q = true -> strip_prefix p (q ++ rest) = None.
Proof.
  revert q. induction p as [|a p IH]; intros [|b q] H; try done.
  cbn in *. destruct (N.eqb_spec a b) as [-> | _]; [|done].
  by apply IH.
Qed.

Lemma inert_other_token (p' q' : jsstring) :
  bracket_free q' ->
  clash (LBRACKET :: p') (LBRACKET :: q') = true ->
  inert (LBRACKET :: p') (LBRACKET :: q').
Proof.
  intros Hfree Hclash [|i] rest Hi.
  - by apply clash_strip.
  - cbn [drop]. apply inert_bracket_free; [done|]. cbn in Hi. lia.
Qed.
(** ** The preview fill on a template of chunks and tokens *)

Section Fill.

Lemma placeholder_shape (entry : jsstring * jsstring) :
  entry ∈ GeneratorDocx.mappings ->
  exists body, placeholder_of entry = LBRACKET :: body /\ bracket_free body.
Proof.
  intros Hin.
  assert (Hall : placeholders_bracketed = true) by (vm_compute; reflexivity).
  unfold placeholders_bracketed in Hall. rewrite forallb_forall in Hall.
  apply list_elem_of_In, Hall in Hin.
  destruct (placeholder_of entry) as [|c body]; [done|].
  apply andb_true_iff in Hin as [Hc Hbody]. apply N.eqb_eq in Hc as ->.
  exists body. split; [done|]. apply List.Forall_forall. intros u Hu.
  rewrite forallb_forall in Hbody. apply Hbody in Hu.
  by apply negb_true_iff, N.eqb_neq in Hu.
Qed.

Lemma placeholder_clash (j k : nat) (ej ek : jsstring * jsstring) :
  GeneratorDocx.mappings !! j = Some ej ->
  GeneratorDocx.mappings !! k = Some ek ->
  j <> k ->
  clash (placeholder_of ej) (placeholder_of ek) = true.
Proof.
  intros Hj Hk Hne.
  assert (Hall : placeholders_clash = true) by (vm_compute; reflexivity).
  unfold placeholders_clash in Hall. rewrite forallb_forall in Hall.
  pose proof (lookup_lt_Some _ _ _ Hj) as Hjlt.
  pose proof (lookup_lt_Some _ _ _ Hk) as Hklt.
  specialize (Hall j ltac:(apply in_seq; lia)).
  rewrite forallb_forall in Hall.
  specialize (Hall k ltac:(apply in_seq; lia)).
  apply orb_true_iff in Hall as [Heq | Hclash].
  { apply Nat.eqb_eq in Heq. done. }
  assert (Hnth : forall i e, GeneratorDocx.mappings !! i = Some e ->
            nth i (map placeholder_of GeneratorDocx.mappings) []
            = placeholder_of e).
  { intros i e Hi. apply nth_lookup_Some with (d := []).
    change (map placeholder_of GeneratorDocx.mappings)
      with (placeholder_of <$> GeneratorDocx.mappings).
    by rewrite list_lookup_fmap, Hi. }
  by rewrite (Hnth j ej Hj), (Hnth k ek Hk) in Hclash.
Qed.

Lemma placeholder_nonempty (entry : jsstring * jsstring) :
  placeholder_of entry <> [].
Proof. done. Qed.

Lemma escapeHtml_bracket_free (text : jsstring) :
  bracket_free text -> bracket_free (GeneratorDocx.escapeHtml text).
Proof.
  unfold GeneratorDocx.escapeHtml, DOM.text_innerHTML, bracket_free.
  intros Hfree. destruct (falsy text); [constructor|].
  induction Hfree as [|c text Hc _ IH]; cbn; [constructor|].
  apply Forall_app. split; [|done].
  unfold DOM.escape_unit. repeat case_match; repeat constructor; done.
Qed.

Variable row : rowObj.
Hypothesis row_ok : values_bracket_free row.

Lemma fill_round (j : nat) (entry : jsstring * jsstring)
    (segs : list segment) :
  GeneratorDocx.mappings !! j = Some entry ->
  Forall segment_ok segs ->
  GeneratorDocx.fill_one row (text_after row j segs) entry
  = text_after row (S j) segs.
Proof.
  intros Hj Hsegs. destruct entry as [col tag] eqn:Eentry.
  unfold GeneratorDocx.fill_one.
  change (join ?v (split ?p ?s)) with (replace_all p v s).
  change (lit "[" ++ tag ++ lit "]") with (placeholder_of (col, tag)).
  change (GeneratorDocx.escapeHtml (get_or row col []))
    with (escaped_value row (col, tag)).
  rewrite <- Eentry in *. clear Eentry col tag.
  pose proof (placeholder_nonempty entry) as Hne.
  destruct (placeholder_shape entry) as (body & Ebody & Hbody).
  { by eapply list_elem_of_lookup_2. }
  induction Hsegs as [|seg segs Hseg _ IH]; cbn [text_after List.flat_map].
  { by apply replace_all_nil. }
  fold (text_after row j segs). fold (text_after row (S j) segs).
  destruct seg as [t | k]; cbn [segment_ok] in Hseg.
  - rewrite replace_all_inert, IH; [done..|].
    rewrite Ebody. by apply inert_bracket_free.
  - destruct (lookup_lt_is_Some_2 _ _ Hseg) as [ek Hk]. rewrite Hk.
    destruct (Nat.ltb_spec k j) as [Hlt | Hge].
    + destruct (Nat.ltb_spec k (S j)) as [_ | ?]; [|lia].
      rewrite replace_all_inert, IH; [done..|].
      rewrite Ebody. apply inert_bracket_free.
      apply escapeHtml_bracket_free, row_ok. by eapply list_elem_of_lookup_2.
    + destruct (decide (k = j)) as [-> | Hkj].
      * assert (ek = entry) as -> by congruence.
        destruct (Nat.ltb_spec j (S j)) as [_ | ?]; [|lia].
        by rewrite replace_all_here, IH.
      * destruct (Nat.ltb_spec k (S j)) as [? | _]; [lia|].
        rewrite replace_all_inert, IH; [done..|].
        destruct (placeholder_shape ek) as (body' & Ebody' & Hbody').
        { by eapply list_elem_of_lookup_2. }
        rewrite Ebody, Ebody'. apply inert_other_token; [done|].
        rewrite <- Ebody, <- Ebody'. by eapply placeholder_clash.
Qed.

Lemma fill_rounds (segs : list segment) (j : nat) :
  Forall segment_ok segs ->
  (j <= length GeneratorDocx.mappings)%nat ->
  fold_left (GeneratorDocx.fill_one row) (take j GeneratorDocx.mappings)
    (template_text segs)
  = text_after row j segs.
Proof.
  intros Hsegs. induction j as [|j IH]; intros Hj.
  - cbn. unfold template_text, text_after. done.
  - destruct (lookup_lt_is_Some_2 GeneratorDocx.mappings j) as [entry Hentry];
      [lia|].
    rewrite (take_S_r _ _ _ Hentry), fold_left_app, IH by lia. cbn.
    by apply fill_round.
Qed.

Lemma text_after_all (segs : list segment) :
  Forall segment_ok segs ->
  text_after row (length GeneratorDocx.mappings) segs = filled_text row segs.
Proof.
  intros Hsegs. unfold text_after, filled_text.
  induction Hsegs as [|seg segs Hseg _ IH]; [done|].
  cbn [List.flat_map]. rewrite IH.
  f_equal. destruct seg as [t | k]; [done|]. cbn [segment_ok] in Hseg.
  destruct (GeneratorDocx.mappings !! k); [|done].
  by destruct (Nat.ltb_spec k (length GeneratorDocx.mappings)); [|lia].
Qed.

Lemma fillHtmlTemplate_segments (segs : list segment) :
  Forall segment_ok segs ->
  GeneratorDocx.fillHtmlTemplate (Some (template_text segs)) row
  = filled_text row segs.
Proof.
  intros Hsegs. unfold GeneratorDocx.fillHtmlTemplate.
  rewrite <- text_after_all, <- fill_rounds by done.
  rewrite firstn_all.
  destruct (template_text segs) eqn:E; [|done]. reflexivity.
Qed.

Lemma filled_text_bracket_free (segs : list segment) :
  Forall segment_ok segs -> bracket_free (filled_text row segs).
Proof.
  intros Hsegs. unfold filled_text, bracket_free.
  induction Hsegs as [|seg segs Hseg _ IH]; cbn; [constructor|].
  apply Forall_app. split; [|done].
  destruct seg as [t | k]; [done|].
  destruct (GeneratorDocx.mappings !! k) as [entry|] eqn:Hk; [|constructor].
  apply escapeHtml_bracket_free, row_ok. by eapply list_elem_of_lookup_2.
Qed.

End Fill.

(** ** The two preview fills, and the escaping *)

Section PreviewFill.

Lemma get_or_absent (row : rowObj) (column : jsstring) :
  row !! column = None \/ row !! column = Some [] ->
  get_or row column [] = [].
Proof. unfold get_or. by intros [-> | ->]. Qed.

Lemma fill_one_absent (row : rowObj) (html column placeholder : jsstring) :
  placeholder <> [] ->
  row !! column = None \/ row !! column = Some [] ->
  Generator.fill_one row html (column, placeholder) = html.
Proof.
  intros Hne Habs. unfold Generator.fill_one.
  rewrite (get_or_absent row column Habs). cbn.
  by apply (replace_all_same placeholder Hne (length html)).
Qed.

Lemma fill_all_absent (row : rowObj) (entries : list (jsstring * jsstring)) :
  forall template,
  Forall (fun entry => entry.2 <> []) entries ->
  (forall entry, entry ∈ entries ->
     row !! entry.1 = None \/ row !! entry.1 = Some []) ->
  fold_left (Generator.fill_one row) entries template = template.
Proof.
  induction entries as [|[column placeholder] entries IH];
    intros template Hne Habs; [done|].
  inversion Hne as [|? ? Hp Hne']; subst. cbn [fold_left].
  rewrite fill_one_absent; [|done|].
  - apply IH; [done|]. intros entry Hin. apply Habs. by right.
  - apply (Habs (column, placeholder)). by left.
Qed.

Lemma values_bracket_free_check (row : rowObj) :
  forallb
    (fun entry : jsstring * jsstring =>
       forallb (fun u => negb (u =? LBRACKET)) (get_or row entry.1 []))
    GeneratorDocx.mappings = true ->
  values_bracket_free row.
Proof.
  intros Hall entry Hin. rewrite forallb_forall in Hall.
  apply list_elem_of_In, Hall in Hin. rewrite forallb_forall in Hin.
  apply List.Forall_forall. intros u Hu.
  by apply Hin, negb_true_iff, N.eqb_neq in Hu.
Qed.

Lemma escapeHtml_flat_map (text : jsstring) :
  Generator.escapeHtml text = List.flat_map DOM.escape_unit text.
Proof. by destruct text. Qed.

Lemma escape_unit_no_angle (c : N) :
  Forall (fun u => u <> DOM.LT /\ u <> DOM.GT) (DOM.escape_unit c).
Proof.
  unfold DOM.escape_unit.
  destruct (N.eqb_spec c DOM.AMP); [by repeat constructor|].
  destruct (N.eqb_spec c DOM.NBSP); [by repeat constructor|].
  destruct (N.eqb_spec c DOM.LT); [by repeat constructor|].
  destruct (N.eqb_spec c DOM.GT); [by repeat constructor|].
  by repeat constructor.
Qed.

Lemma escapeHtml_no_angle (text : jsstring) :
  Forall (fun u => u <> DOM.LT /\ u <> DOM.GT) (Generator.escapeHtml text).
Proof.
  rewrite escapeHtml_flat_map.
  induction text as [|c text IH]; cbn; [constructor|].
  apply Forall_app. split; [apply escape_unit_no_angle | done].
Qed.

End PreviewFill.

(** C2, as the code has it.  [escapeHtml] rewrites the value code
    unit by code unit, as the browser serializes text: [&], [<], [>]
    and the no-break space become [&amp;], [&lt;], [&gt;] and
    [&nbsp;], every other code unit, the double and the single quote
    among them, stays as it is.  No [<] and no [>] is left in an
    escaped value, so nothing that opens a tag, and [<script>] comes
    out as [&lt;script&gt;].  The preview fill puts values into the
    markup in this form only. *)
Theorem escapeHtml_escapes (text : jsstring) :
  Generator.escapeHtml text = List.flat_map DOM.escape_unit text
  /\ GeneratorDocx.escapeHtml text = Generator.escapeHtml text
  /\ DOM.escape_unit DOM.AMP = lit "&amp;"
  /\ DOM.escape_unit DOM.LT = lit "&lt;"
  /\ DOM.escape_unit DOM.GT = lit "&gt;"
  /\ DOM.escape_unit DOM.NBSP = lit "&nbsp;"
  /\ (forall c, c <> DOM.AMP -> c <> DOM.LT -> c <> DOM.GT -> c <> DOM.NBSP ->
        DOM.escape_unit c = [c])
  /\ Forall (fun u => u <> DOM.LT /\ u <> DOM.GT) (Generator.escapeHtml text)
  /\ (forall tag, ~ occurs_in (DOM.LT :: tag) (Generator.escapeHtml text))
  /\ Generator.escapeHtml (lit "<script>") = lit "&lt;script&gt;"
  /\ (forall (row : rowObj) (segs : list segment),
        Forall segment_ok segs -> values_bracket_free row ->
        GeneratorDocx.fillHtmlTemplate (Some (template_text segs)) row
        = filled_text row segs).
Proof.
  repeat apply conj; try reflexivity.
  - apply escapeHtml_flat_map.
  - intros c Ha Hl Hg Hn. unfold DOM.escape_unit.
    apply N.eqb_neq in Ha, Hl, Hg, Hn. by rewrite Ha, Hl, Hg, Hn.
  - apply escapeHtml_no_angle.
  - intros tag (before & after & E).
    pose proof (escapeHtml_no_angle text) as Hno. rewrite E in Hno.
    apply Forall_app in Hno as [_ Hno]. inversion Hno as [|? ? [Hlt _] _].
    done.
  - intros row segs Hsegs Hrow. by apply fillHtmlTemplate_segments.
Qed.

(** C2 as claimed fails on the two quotes: a value with a single and
    a double quote is escaped to itself. *)
Lemma escapeHtml_keeps_quotes :
  Generator.escapeHtml (lit "O'Brien " ++ [DQUOTE] ++ lit "Bob" ++ [DQUOTE])
  = lit "O'Brien " ++ [DQUOTE] ++ lit "Bob" ++ [DQUOTE].
Proof. vm_compute. reflexivity. Qed.

(** ** Cutting a string at one code unit *)

Section SplitUnit.

Variable u : N.

Lemma split_unit_nil : split [u] [] = [[]].
Proof. reflexivity. Qed.

Lemma split_unit_hit (s : jsstring) : split [u] (u :: s) = [] :: split [u] s.
Proof.
  rewrite split_cut by done. cbn [cut strip_prefix]. by rewrite N.eqb_refl.
Qed.

Lemma split_unit_miss (c : N) (s : jsstring) :
  c <> u ->
  split [u] (c :: s)
  = match split [u] s with
    | piece :: more => (c :: piece) :: more
    | [] => [[c]]
    end.
Proof.
  intros Hc. rewrite (split_cut [u]) by done. cbn [cut strip_prefix].
  destruct (N.eqb_spec u c) as [-> | _]; [done|].
  rewrite (split_cut [u] ltac:(done) s).
  by destruct (cut [u] s) as [[before after]|].
Qed.

Lemma split_unit_cases (s : jsstring) :
  exists piece more, split [u] s = piece :: more.
Proof.
  pose proof (split_nonempty [u] ltac:(done) s).
  destruct (split [u] s) as [|piece more]; [done | by eexists _, _].
Qed.

(** The pieces hold what the string holds, and never the separator. *)
Lemma split_unit_pieces (P : N -> Prop) (s : jsstring) :
  Forall P s ->
  Forall (Forall (fun c => P c /\ c <> u)) (split [u] s).
Proof.
  induction s as [|c s IH]; intros Hs.
  - rewrite split_unit_nil. by repeat constructor.
  - inversion Hs as [|? ? Hc Hs']; subst. specialize (IH Hs').
    destruct (decide (c = u)) as [-> | Hne].
    + rewrite split_unit_hit. by constructor.
    + rewrite split_unit_miss by done.
      destruct (split [u] s) as [|piece more]; [by repeat constructor|].
      inversion IH; subst. constructor; [|done]. by constructor.
Qed.

Lemma join_split_unit (s : jsstring) : join [u] (split [u] s) = s.
Proof. exact (replace_all_same [u] ltac:(done) (length s) s (le_n _)). Qed.

(** The last piece is what follows the last separator. *)
Lemma split_unit_last_none (s : jsstring) :
  u ∉ s -> split [u] s = [s].
Proof.
  induction s as [|c s IH]; intros Hs; [done|].
  apply not_elem_of_cons in Hs as [Hc Hs].
  rewrite split_unit_miss, IH by done. done.
Qed.

Lemma split_unit_last (before after : jsstring) :
  u ∉ after ->
  last (split [u] (before ++ u :: after)) = Some after.
Proof.
  intros Hafter. induction before as [|c before IH]; cbn [app].
  - rewrite split_unit_hit, split_unit_last_none by done. done.
  - destruct (decide (c = u)) as [-> | Hne].
    + rewrite split_unit_hit.
      destruct (split_unit_cases (before ++ u :: after)) as (p & m & E).
      rewrite E in *. exact IH.
    + rewrite split_unit_miss by done.
      destruct (split_unit_cases (before ++ u :: after)) as (p & m & E).
      rewrite E in *. destruct m; [|exact IH].
      exfalso. cbn in IH. injection IH as ->.
      pose proof (join_split_unit (before ++ u :: after)) as J.
      rewrite E in J. cbn in J. apply Hafter. rewrite J.
      apply elem_of_app. right. by left.
Qed.

End SplitUnit.

(** ** More on the parser *)

Section ParserMore.

Import Parser.

Lemma scan_lines_have_cells (n : nat) : forall text st,
  (length text <= n)%nat ->
  Forall (fun line => line <> []) (lines st) ->
  Forall (fun line => line <> []) (lines (scan st text)).
Proof.
  induction n as [|n IH]; intros [|c rest] st Hlen Hst; cbn [length] in Hlen;
    try done; try lia.
  cbn [scan].
  assert (Hrest : (length rest <= n)%nat) by lia.
  assert (Hline : Forall (fun line => line <> []) (lines (end_line st))).
  { cbn. apply Forall_app. split; [done|]. constructor; [|constructor].
    by destruct (currentLine st). }
  assert (Htail : forall st', Forall (fun line => line <> []) (lines st') ->
            Forall (fun line => line <> [])
              (lines match rest with [] => st' | _ :: rest' => scan st' rest' end)).
  { intros st' Hst'. destruct rest as [|d rest']; [done|].
    apply IH; [cbn in Hrest; lia | done]. }
  repeat case_match; subst; try (apply Htail); try (apply IH; [done|]); done.
Qed.

Lemma drop_while_nil (s : jsstring) :
  drop_while is_space s = [] <-> Forall (fun c => is_space c = true) s.
Proof.
  induction s as [|c s IH]; cbn.
  - split; [constructor | done].
  - destruct (is_space c) eqn:Hc.
    + rewrite IH. split; [by constructor | by inversion 1].
    + split; [done | inversion 1; congruence].
Qed.

Lemma drop_while_head (s : jsstring) :
  match drop_while is_space s with
  | [] => True
  | c :: _ => is_space c = false
  end.
Proof.
  induction s as [|c s IH]; cbn; [done|].
  destruct (is_space c) eqn:Hc; [done|]. done.
Qed.

Lemma drop_while_suffix (s : jsstring) :
  exists lead, s = lead ++ drop_while is_space s
               /\ Forall (fun c => is_space c = true) lead.
Proof.
  induction s as [|c s (lead & E & Hlead)]; cbn.
  - by exists [].
  - destruct (is_space c) eqn:Hc.
    + exists (c :: lead). split; [by rewrite E at 1 | by constructor].
    + by exists [].
Qed.

Lemma trim_nil (s : jsstring) :
  trim s = [] <-> Forall (fun c => is_space c = true) s.
Proof.
  unfold trim. rewrite <- drop_while_nil. split.
  - intros E. apply (f_equal (@rev N)) in E. rewrite rev_involutive in E.
    cbn in E. apply drop_while_nil in E.
    pose proof (drop_while_head s) as Hhead.
    destruct (drop_while is_space s) as [|c tail]; [done|].
    exfalso. apply Forall_rev in E. rewrite rev_involutive in E.
    inversion E; congruence.
  - intros ->. done.
Qed.

End ParserMore.

(** X1. Every line that [parseCSVText] returns has at least one cell;
    so a parse that succeeds has at least one header. *)
Theorem parseCSVText_lines_have_cells (text : jsstring) :
  Forall (fun line => line <> []) (Parser.parseCSVText text)
  /\ (forall result, Parser.parseCSV text = Normal result ->
        Parser.headers result <> []).
Proof.
  assert (Hlines : Forall (fun line => line <> []) (Parser.parseCSVText text)).
  { unfold Parser.parseCSVText, Parser.finish.
    pose proof (scan_lines_have_cells (length text) text Parser.start
                  (le_n _) ltac:(constructor)) as Hscan.
    case_match; [|done]. apply Forall_app. split; [done|].
    constructor; [|constructor]. by destruct (Parser.currentLine _). }
  split; [done|]. intros result. unfold Parser.parseCSV, Parser.grid_to_result.
  destruct (Parser.parseCSVText text) as [|line0 more]; [done|].
  case_match; [done|]. intros [= <-]. cbn.
  inversion Hlines; subst. by destruct line0.
Qed.

(** X2. On a text without double quotes and carriage returns the
    scanner does what cutting at line feeds and commas does, except
    that a last line that is empty is not returned. *)
Theorem parseCSVText_without_quotes (text : jsstring) :
  Forall (fun c => c <> DQUOTE /\ c <> CR) text ->
  Parser.parseCSVText text = naive_rows text.
Proof.
  intros Htext. unfold naive_rows.
  pose proof (split_unit_pieces LF _ text Htext) as Hpieces.
  pose proof (join_split_unit LF text) as Hjoin.
  pose proof (split_nonempty [LF] ltac:(done) text) as Hne.
  destruct (exists_last Hne) as (init & lst & E). rewrite E in *. clear E Hne.
  rewrite last_snoc. cbn [default].
  apply Forall_app in Hpieces as [Hinit Hlst'].
  apply List.Forall_inv in Hlst'.
  assert (Hcells : forall piece,
            Forall (fun c => (c <> DQUOTE /\ c <> CR) /\ c <> LF) piece ->
            line_ok (map Plain (split [COMMA] piece))
            /\ written_line (map Plain (split [COMMA] piece)) = piece
            /\ map cell_value (map Plain (split [COMMA] piece))
               = split [COMMA] piece).
  { intros piece Hpiece. split; [split|split].
    - pose proof (split_nonempty [COMMA] ltac:(done) piece).
      by destruct (split [COMMA] piece).
    - apply Forall_map.
      pose proof (split_unit_pieces COMMA _ piece Hpiece) as Hc.
      eapply Forall_impl; [exact Hc|]. intros cell Hcell. cbn.
      eapply Forall_impl; [exact Hcell|]. intros c [[[Hq Hr] Hl] Hm].
      unfold plain_unit.
      apply N.eqb_neq in Hq, Hr, Hl, Hm. by rewrite Hq, Hr, Hl, Hm.
    - unfold written_line. rewrite map_map. cbn. rewrite map_id.
      apply join_split_unit.
    - rewrite map_map. cbn. apply map_id. }
  set (table := map (fun piece => (map Plain (split [COMMA] piece), EndLF)) init).
  assert (Htable : Forall (fun r => line_ok r.1) table).
  { subst table. apply Forall_map. eapply Forall_impl; [exact Hinit|].
    intros piece Hpiece. by apply Hcells. }
  assert (Hvalues : table_values table = map (split [COMMA]) init).
  { subst table. unfold table_values. rewrite map_map. clear -Hinit Hcells.
    induction Hinit as [|piece init Hpiece _ IH]; [done|].
    cbn [map]. f_equal; [cbn; by apply Hcells | exact IH]. }
  assert (Htext' : text = written_table table
                          ++ written_line (map Plain (split [COMMA] lst))).
  { rewrite <- Hjoin. rewrite (proj1 (proj2 (Hcells lst Hlst'))).
    subst table. clear -Hinit Hcells.
    induction Hinit as [|piece init Hpiece _ IH]; [done|].
    cbn [app join map written_table List.flat_map fst snd written_end].
    fold (written_table (map
      (fun piece => (map Plain (split [COMMA] piece), EndLF)) init)).
    rewrite (proj1 (proj2 (Hcells piece Hpiece))), <- !app_assoc, <- IH.
    by destruct init. }
  rewrite Htext' at 1. unfold Parser.parseCSVText, Parser.start.
  rewrite scan_table by done. cbn [app]. rewrite Hvalues.
  destruct (Hcells lst Hlst') as ([Hcne Hcok] & Hwritten & Hvals).
  destruct (exists_last Hcne) as (cinit & c & Ec).
  rewrite Ec in Hcok. rewrite Ec.
  rewrite <- (app_nil_r (written_line (cinit ++ [c]))).
  rewrite scan_cells by (auto; discriminate).
  rewrite Ec, map_app in Hvals. cbn [map] in Hvals.
  cbn [Parser.scan]. unfold Parser.finish; cbn.
  destruct lst as [|l0 lst]; cbn [falsy].
  - rewrite split_unit_nil in Hvals.
    destruct cinit; [|by destruct cinit]. cbn in Hvals. injection Hvals as ->.
    cbn. by rewrite removelast_last.
  - rewrite map_app. cbn [map]. rewrite <- Hvals.
    destruct (cell_value c) as [|x v] eqn:Ev; cbn; [|done].
    destruct (map cell_value cinit) as [|y ys] eqn:Ei; cbn; [|done].
    exfalso. rewrite Ec in Hwritten. destruct cinit; [|done].
    destruct (split [COMMA] (l0 :: lst)) as [|p [|q r]]; cbn in Ec;
      simplify_eq.
    cbn in Ev. subst p. done.
Qed.

(** X2, at a text of two lines ended by a line feed. *)
Lemma parseCSVText_without_quotes_witness :
  Parser.parseCSVText (lit "a,b" ++ [LF] ++ lit "c," ++ [LF])
  = naive_rows (lit "a,b" ++ [LF] ++ lit "c," ++ [LF]).
Proof.
  apply parseCSVText_without_quotes. repeat constructor; discriminate.
Defined.

(** X3. A line is skipped as blank exactly when every one of its
    cells is made of white space only, the empty cell included. *)
Theorem blank_line_iff (line : list jsstring) :
  Parser.blank_line line = true
  <-> Forall (Forall (fun c => is_space c = true)) line.
Proof.
  unfold Parser.blank_line. rewrite forallb_forall, List.Forall_forall.
  apply forall_proper. intros cell. apply forall_proper. intros _.
  rewrite orb_true_iff. unfold str_eqb. rewrite bool_decide_eq_true, trim_nil.
  split; [|by right]. intros [Hf | H]; [|done]. by destruct cell.
Qed.

Section Records.

Import Parser.

Lemma assign_dom (obj : rowObj) (key value : jsstring) :
  dom (assign obj key value)
  = (if decide (key = lit "__proto__") then ∅ else {[key]}) ∪ dom obj.
Proof.
  unfold assign, str_eqb. case_bool_decide as Hkey.
  - rewrite decide_True by done. by rewrite union_empty_l_L.
  - rewrite decide_False by done. by rewrite dom_insert_L.
Qed.

Lemma to_rowObj_dom (line : list jsstring) (headers : list jsstring) :
  dom (to_rowObj headers line) = list_to_set headers ∖ {[lit "__proto__"]}.
Proof.
  apply set_eq. intros x.
  induction headers as [|h headers IH] using rev_ind.
  - cbn. rewrite dom_empty_L, elem_of_difference, !elem_of_empty. tauto.
  - rewrite to_rowObj_snoc, assign_dom, list_to_set_app_L. cbn.
    rewrite elem_of_union, IH, !elem_of_difference, elem_of_union,
      elem_of_union, !elem_of_singleton, elem_of_empty.
    case_decide as Hh.
    + subst h. rewrite elem_of_empty. tauto.
    + rewrite elem_of_singleton. split; [|tauto].
      intros [-> | ?]; tauto.
Qed.

Lemma to_rowObj_ext (line line' : list jsstring) (headers : list jsstring) :
  (forall i, (i < length headers)%nat ->
     default [] (line !! i) = default [] (line' !! i)) ->
  to_rowObj headers line = to_rowObj headers line'.
Proof.
  induction headers as [|h headers IH] using rev_ind; intros Hcells; [done|].
  rewrite !to_rowObj_snoc, IH, Hcells; [done| |].
  - rewrite length_app. cbn. lia.
  - intros i Hi. apply Hcells. rewrite length_app. lia.
Qed.

Lemma rows_loop_keys (headers : list jsstring) (data : list (list jsstring)) :
  forall rows,
  Forall (fun row => dom row = list_to_set headers ∖ {[lit "__proto__"]}) rows ->
  Forall (fun row => dom row = list_to_set headers ∖ {[lit "__proto__"]})
    (rows_loop headers data rows).
Proof.
  induction data as [|line data IH]; intros rows Hrows; cbn; [done|].
  destruct (blank_line line); apply IH; [done|].
  apply Forall_app. split; [done|]. constructor; [|constructor].
  apply to_rowObj_dom.
Qed.

End Records.

(** X4. All records of a parse have the same keys: the headers, the
    header [__proto__] left out (assigning to it stores nothing). *)
Theorem parse_rows_share_keys (too_short : jsstring)
    (lines : list (list jsstring)) (result : Parser.ParseResult) :
  Parser.grid_to_result too_short lines = Normal result ->
  Forall (fun row : rowObj =>
            dom row = list_to_set (Parser.headers result) ∖ {[lit "__proto__"]})
    (Parser.rows result).
Proof.
  unfold Parser.grid_to_result. case_match; [done|]. intros [= <-]. cbn.
  apply rows_loop_keys. constructor.
Qed.

(** X4, at a header line with a repeated header and a short data
    line. *)
Lemma parse_rows_share_keys_witness :
  Forall (fun row : rowObj =>
            dom row = list_to_set [lit "a"; lit "b"; lit "a"]
                      ∖ {[lit "__proto__"]})
    [Parser.to_rowObj [lit "a"; lit "b"; lit "a"] [lit "1"]].
Proof.
  refine (parse_rows_share_keys [] [[lit "a"; lit "b"; lit "a"]; [lit "1"]]
            {| Parser.headers := [lit "a"; lit "b"; lit "a"];
               Parser.rows := [Parser.to_rowObj [lit "a"; lit "b"; lit "a"]
                                 [lit "1"]] |} _).
  vm_compute. reflexivity.
Defined.

(** X5. A record is made from the cells under the headers only: cells
    beyond the header count are ignored, and a line that is too short
    gives the same record as the line filled up with empty cells. *)
Theorem to_rowObj_cells_under_headers (headers line : list jsstring) (k : nat) :
  Parser.to_rowObj headers line
  = Parser.to_rowObj headers (take (length headers) line)
  /\ Parser.to_rowObj headers line
     = Parser.to_rowObj headers (line ++ replicate k []).
Proof.
  split; apply to_rowObj_ext; intros i Hi.
  - by rewrite lookup_take_lt.
  - destruct (decide (i < length line)%nat) as [Hlt | Hge].
    + by rewrite lookup_app_l.
    + rewrite lookup_app_r, (lookup_ge_None_2 line) by lia. cbn.
      destruct (replicate k [] !! (i - length line)%nat) as [cell|] eqn:E;
        [|done].
      by apply lookup_replicate in E as [-> _].
Qed.

(** X6. An uploaded CSV text is accepted by [processFile] exactly when
    some line after the first is not blank; the rows handed on are
    then as many as these lines. *)
Theorem processCSV_accepts_iff (text : jsstring) :
  ((exists result, App.processCSV text = Normal result)
   <-> (1 <= count_nonblank (drop 1 (Parser.parseCSVText text)))%nat)
  /\ (forall result, App.processCSV text = Normal result ->
        Parser.parseCSV text = Normal result
        /\ length (Parser.rows result)
           = count_nonblank (drop 1 (Parser.parseCSVText text))).
Proof.
  unfold App.processCSV, App.checked, Parser.parseCSV.
  set (lines := Parser.parseCSVText text).
  destruct (Nat.lt_ge_cases (length lines) 2) as [Hlt | Hge].
  - rewrite grid_to_result_throws by done. split; [|done].
    split; [by intros [? ?]|]. intros Hcount. exfalso.
    pose proof (count_nonblank_le (drop 1 lines)) as Hle.
    rewrite length_drop in Hle. lia.
  - rewrite grid_to_result_rows by done. cbn [Parser.rows].
    rewrite length_map. fold (count_nonblank (drop 1 lines)).
    destruct (count_nonblank (drop 1 lines)) as [|n] eqn:Hn; cbn.
    + split; [|done]. split; [by intros [? ?] | lia].
    + split.
      * split; [lia | by eexists].
      * intros result [= <-]. cbn. by rewrite length_map.
Qed.

Section Extension.

Variable toLowerCase : jsstring -> jsstring.

Lemma extension_of_no_dot (name : jsstring) :
  DOT ∉ name -> Parser.extension_of toLowerCase name = toLowerCase name.
Proof.
  intros Hno. unfold Parser.extension_of.
  change (lit ".") with [DOT]. by rewrite split_unit_last_none.
Qed.

Lemma extension_of_last_dot (stem ext : jsstring) :
  DOT ∉ ext ->
  Parser.extension_of toLowerCase (stem ++ DOT :: ext) = toLowerCase ext.
Proof.
  intros Hno. unfold Parser.extension_of.
  change (lit ".") with [DOT]. by rewrite split_unit_last.
Qed.

Lemma extension_of_cases (name : jsstring) :
  exists ext, (DOT ∉ ext)
    /\ Parser.extension_of toLowerCase name = toLowerCase ext
    /\ (name = ext \/ exists stem, name = stem ++ DOT :: ext).
Proof.
  induction name as [|c name [ext (Hno & Hext & Hshape)]].
  - exists []. split; [by apply not_elem_of_nil|]. split; [|by left].
    by apply extension_of_no_dot, not_elem_of_nil.
  - destruct Hshape as [-> | (stem & ->)].
    + destruct (decide (c = DOT)) as [-> | Hc].
      * exists ext. split; [done|]. split; [|right; by exists []].
        by apply (extension_of_last_dot []).
      * exists (c :: ext). split; [|split; [|by left]].
        -- rewrite not_elem_of_cons. done.
        -- apply extension_of_no_dot. rewrite not_elem_of_cons. done.
    + exists ext. split; [done|]. split; [|right; by exists (c :: stem)].
      by apply (extension_of_last_dot (c :: stem)).
Qed.

End Extension.

(** X7. [parseFile] chooses the reader by the lower-cased text after
    the last dot of the file name, whatever stands before it, and by
    the whole name when the name has no dot: [csv] goes to [parseCSV],
    [xlsx] and [xls] go to [parseExcel], and anything else is thrown
    back as unsupported, named with the lower-cased text. *)
Theorem parseFile_by_last_dot (toLowerCase : jsstring -> jsstring)
    (f : Parser.file) (ext : jsstring) :
  Parser.fileName f = ext
  \/ (exists stem, Parser.fileName f = stem ++ DOT :: ext) ->
  DOT ∉ ext ->
  Parser.parseFile toLowerCase f
  = if str_eqb (toLowerCase ext) (lit "csv")
    then Parser.parseCSV (Parser.fileText f)
    else if str_eqb (toLowerCase ext) (lit "xlsx")
            || str_eqb (toLowerCase ext) (lit "xls")
    then Parser.parseExcel (Parser.fileSheet f)
    else Throw (lit "Unsupported file format: ." ++ toLowerCase ext).
Proof.
  intros Hname Hno. unfold Parser.parseFile.
  assert (Parser.extension_of toLowerCase (Parser.fileName f)
          = toLowerCase ext) as ->; [|done].
  destruct Hname as [-> | (stem & ->)].
  - by apply extension_of_no_dot.
  - by apply extension_of_last_dot.
Qed.

(** X7, at a file called [csv], with no dot in its name, and a case
    mapping that leaves the name as it is: it is read as CSV text. *)
Lemma parseFile_by_last_dot_witness :
  Parser.parseFile (fun s => s)
    {| Parser.fileName := lit "csv"; Parser.fileText := lit "a,b";
       Parser.fileSheet := [] |}
  = Parser.parseCSV (lit "a,b").
Proof.
  apply (parseFile_by_last_dot (fun s => s)
           {| Parser.fileName := lit "csv"; Parser.fileText := lit "a,b";
              Parser.fileSheet := [] |} (lit "csv")).
  - by left.
  - apply (bool_decide_unpack _). vm_compute. exact I.
Defined.

(** ** The loop of [generateAll] *)

Section BatchLoop.

Variable Blob : Type.
Variable single : rowObj -> N -> completion (Zip.document Blob).

Lemma converts_length (rows : list rowObj) : forall i docs,
  converts single i rows docs -> length docs = length rows.
Proof.
  induction rows as [|row rows IH]; intros i [|doc docs] H; cbn in *;
    try done.
  destruct H as [_ H]. by rewrite (IH _ _ H).
Qed.

Lemma converts_lookup (rows : list rowObj) : forall i docs k row,
  converts single i rows docs ->
  rows !! k = Some row ->
  exists doc, docs !! k = Some doc
    /\ single row (i + N.of_nat k) = Normal doc.
Proof.
  induction rows as [|r rows IH]; intros i [|doc docs] k row H Hk;
    cbn in *; try done.
  destruct H as [Hdoc H]. destruct k as [|k]; cbn in *.
  - injection Hk as ->. exists doc. by rewrite N.add_0_r.
  - destruct (IH _ _ _ _ H Hk) as (d & Hd & Hs). exists d. split; [done|].
    rewrite <- Hs. f_equal. lia.
Qed.

Lemma counters_snoc (n : nat) : forall c,
  counters c (S n) = counters c n ++ [c + N.of_nat n].
Proof.
  induction n as [|n IH]; intros c.
  - cbn. by rewrite N.add_0_r.
  - change (counters c (S (S n))) with (c :: counters (c + 1) (S n)).
    rewrite IH. cbn [counters app]. do 2 f_equal. f_equal. lia.
Qed.

Lemma reports_cons (total i : N) (n : nat) :
  reports total i (S n) = (i + 1, total) :: reports total (i + 1) n.
Proof. done. Qed.

Lemma loop_converts (total : N) (rows : list rowObj) :
  forall i docs documents progress,
  converts single i rows docs ->
  Batch.loop Blob single total rows i documents progress
  = (progress ++ reports total i (length rows), Normal (documents ++ docs)).
Proof.
  induction rows as [|row rows IH]; intros i [|doc docs] documents progress H;
    cbn in H; try done.
  - cbn. by rewrite !app_nil_r.
  - destruct H as [Hdoc H]. cbn [Batch.loop length]. rewrite Hdoc.
    rewrite (IH _ _ _ _ H), reports_cons, <- !app_assoc. done.
Qed.

Lemma loop_throws (total : N) (before : list rowObj) :
  forall i docs documents progress row after message,
  converts single i before docs ->
  single row (i + N.of_nat (length before)) = Throw message ->
  Batch.loop Blob single total (before ++ row :: after) i documents progress
  = (progress ++ reports total i (length before), Throw message).
Proof.
  induction before as [|r before IH];
    intros i [|doc docs] documents progress row after message H Hrow;
    cbn in H; try done.
  - cbn in *. rewrite N.add_0_r in Hrow. by rewrite Hrow, app_nil_r.
  - destruct H as [Hdoc H]. cbn [Batch.loop length app]. rewrite Hdoc.
    rewrite (IH _ _ _ _ row after message H), reports_cons, <- !app_assoc;
      [done|].
    rewrite <- Hrow. f_equal. cbn [length]. lia.
Qed.

Lemma converts_or_throws (rows : list rowObj) : forall i,
  (exists docs, converts single i rows docs)
  \/ (exists before row after docs message,
        rows = before ++ row :: after
        /\ converts single i before docs
        /\ single row (i + N.of_nat (length before)) = Throw message).
Proof.
  induction rows as [|row rows IH]; intros i.
  - left. by exists [].
  - destruct (single row i) as [doc | message] eqn:E.
    + destruct (IH (i + 1)) as [(docs & H) | (before & r & after & docs & m & -> & H & Hr)].
      * left. by exists (doc :: docs).
      * right. exists (row :: before), r, after, (doc :: docs), m.
        split; [done|]. split; [done|]. rewrite <- Hr. f_equal. cbn [length]. lia.
    + right. exists [], row, rows, [], message. cbn. by rewrite N.add_0_r.
Qed.

End BatchLoop.

(** X8. [generateAll] makes the documents in the order of the rows,
    each from its row and its index, and reports progress after each:
    when no row throws, it returns one document per row and has
    reported [1 of n] up to [n of n]; when a row throws, what it throws
    is what the first such row threw, the reports stop before that row,
    and the documents made so far are not returned. *)
Theorem generateAll_in_order (Blob : Type)
    (single : rowObj -> N -> completion (Zip.document Blob))
    (rows : list rowObj) :
  let n := N.of_nat (length rows) in
  (exists docs,
     converts single 0 rows docs
     /\ length docs = length rows
     /\ Batch.generateAll Blob single rows
        = (reports n 0 (length rows), Normal docs))
  \/ (exists before row after docs message,
        rows = before ++ row :: after
        /\ converts single 0 before docs
        /\ single row (N.of_nat (length before)) = Throw message
        /\ Batch.generateAll Blob single rows
           = (reports n 0 (length before), Throw message)).
Proof.
  intros n. unfold Batch.generateAll. fold n.
  destruct (converts_or_throws Blob single rows 0)
    as [(docs & H) | (before & row & after & docs & m & -> & H & Hr)].
  - left. exists docs. split; [done|]. split; [by eapply converts_length|].
    by rewrite (loop_converts Blob single n rows 0 docs [] [] H).
  - right. exists before, row, after, docs, m. rewrite N.add_0_l in Hr.
    repeat split; try done.
    rewrite (loop_throws Blob single n before 0 docs [] [] row after m H);
      [done|]. by rewrite N.add_0_l.
Qed.

(** ** [generateAll] of the html-docx variant *)

Section GenerateAllHtml.

Variable Blob : Type.
Variable generateDocx : jsstring -> completion Blob.
Variable template : option jsstring.

Lemma fillTemplate_loaded (row : rowObj) :
  loaded template ->
  exists html, Generator.fillTemplate template row = Normal html.
Proof.
  intros (html & -> & Hne). unfold Generator.fillTemplate.
  destruct html as [|c html]; [done|]. cbn [falsy]. by eexists.
Qed.

Lemma fillTemplate_not_loaded (row : rowObj) :
  ~ loaded template ->
  Generator.fillTemplate template row = Throw Generator.template_not_loaded.
Proof.
  intros Hno. unfold Generator.fillTemplate.
  destruct template as [[|c html]|]; try done.
  destruct Hno. by exists (c :: html).
Qed.

Lemma single_Normal (row : rowObj) (i : N) (doc : Zip.document Blob) :
  Generator.single Blob generateDocx template row i = Normal doc ->
  exists html,
    Generator.fillTemplate template row = Normal html
    /\ generateDocx html = Normal (Zip.blob doc)
    /\ Zip.filename doc = Generator.generateFilename row i.
Proof.
  unfold Generator.single. intros H.
  destruct (Generator.fillTemplate template row) as [html|]; [|done].
  destruct (generateDocx html) as [blob|] eqn:E; [|done].
  injection H as <-. by exists html.
Qed.

End GenerateAllHtml.

(** X9. When [generateAll] returns, it returns one document per row,
    in the order of the rows: the document at position [k] has the name
    that [generateFilename] gives to row [k] at index [k], and the blob
    that the codec made of the fill of row [k]; and the callback was
    told [1 of n], ..., [n of n]. *)
Theorem generateAll_documents (Blob : Type)
    (generateDocx : jsstring -> completion Blob)
    (template : option jsstring) (rows : list rowObj)
    (progress : list (N * N)) (docs : list (Zip.document Blob)) :
  Generator.generateAll Blob generateDocx template rows
  = (progress, Normal docs) ->
  length docs = length rows
  /\ progress = reports (N.of_nat (length rows)) 0 (length rows)
  /\ forall k row, rows !! k = Some row ->
       exists html doc,
         docs !! k = Some doc
         /\ Generator.fillTemplate template row = Normal html
         /\ generateDocx html = Normal (Zip.blob doc)
         /\ Zip.filename doc = Generator.generateFilename row (N.of_nat k).
Proof.
  unfold Generator.generateAll. intros Hall.
  unfold Batch.generateAll in Hall.
  destruct (converts_or_throws Blob
              (Generator.single Blob generateDocx template) rows 0)
    as [(docs' & Hconv) | (b & r & a & d & m & -> & Hconv & Hr)].
  2: { by rewrite (loop_throws _ _ _ _ _ _ _ _ _ _ _ Hconv Hr) in Hall. }
  rewrite (loop_converts _ _ _ _ _ _ _ _ Hconv) in Hall.
  injection Hall as <- <-.
  split; [by eapply converts_length|]. split; [done|].
  intros k row Hk.
  destruct (converts_lookup _ _ _ _ _ _ _ Hconv Hk) as (doc & Hdoc & Hs).
  rewrite N.add_0_l in Hs. apply single_Normal in Hs as (html & ? & ? & ?).
  by exists html, doc.
Qed.

(** X9, at two rows, a template of one placeholder and a codec that
    returns the markup it is given. *)
Lemma generateAll_documents_witness :
  let rows : list rowObj :=
    [ {[ lit "Client" := lit "Acme" ]}; {[ lit "Client" := lit "Bolt" ]} ] in
  exists progress docs,
    Generator.generateAll jsstring Normal (Some (lit "[INSERT_CLIENT_NAME]")) rows
    = (progress, Normal docs)
    /\ length docs = length rows.
Proof.
  intros rows.
  eexists _, _. split; [vm_compute; reflexivity|].
  eapply (generateAll_documents jsstring Normal
            (Some (lit "[INSERT_CLIENT_NAME]")) rows).
  vm_compute. reflexivity.
Defined.

(** X10. Without a loaded template (none set, or an empty one)
    [generateAll] throws [Template not loaded] at the first row, before
    any progress is reported; but for no rows at all it returns the
    empty list, template or not. *)
Theorem generateAll_without_template (Blob : Type)
    (generateDocx : jsstring -> completion Blob)
    (template : option jsstring) (rows : list rowObj) :
  ~ loaded template ->
  Generator.generateAll Blob generateDocx template rows
  = ([], match rows with
         | [] => Normal []
         | _ :: _ => Throw Generator.template_not_loaded
         end).
Proof.
  intros Hno. destruct rows as [|row rows]; [done|].
  unfold Generator.generateAll, Batch.generateAll. cbn [Batch.loop].
  unfold Generator.single. by rewrite fillTemplate_not_loaded.
Qed.

(** X10, at an empty template and one row. *)
Lemma generateAll_without_template_witness :
  Generator.generateAll jsstring Normal (Some []) [∅]
  = ([], Throw Generator.template_not_loaded).
Proof.
  apply (generateAll_without_template jsstring Normal (Some []) [∅]).
  intros (html & E & Hne). by injection E as <-.
Defined.

(** ** [fillTemplate] on a page of text, fields and the file list *)

Section FillPage.

Lemma token_shape (token : jsstring) :
  token ∈ tokens ->
  exists body, token = LBRACKET :: body /\ bracket_free body.
Proof.
  intros Hin.
  assert (Hall : tokens_bracketed = true) by (vm_compute; reflexivity).
  unfold tokens_bracketed in Hall. rewrite forallb_forall in Hall.
  apply list_elem_of_In, Hall in Hin.
  destruct token as [|c body]; [done|].
  apply andb_true_iff in Hin as [Hc Hbody]. apply N.eqb_eq in Hc as ->.
  exists body. split; [done|]. apply List.Forall_forall. intros u Hu.
  rewrite forallb_forall in Hbody. apply Hbody in Hu.
  by apply negb_true_iff, N.eqb_neq in Hu.
Qed.

Lemma token_clash (j k : nat) (tj tk : jsstring) :
  tokens !! j = Some tj -> tokens !! k = Some tk -> j <> k ->
  clash tj tk = true.
Proof.
  intros Hj Hk Hne.
  assert (Hall : tokens_clash = true) by (vm_compute; reflexivity).
  unfold tokens_clash in Hall. rewrite forallb_forall in Hall.
  pose proof (lookup_lt_Some _ _ _ Hj) as Hjlt.
  pose proof (lookup_lt_Some _ _ _ Hk) as Hklt.
  specialize (Hall j ltac:(apply in_seq; lia)).
  rewrite forallb_forall in Hall.
  specialize (Hall k ltac:(apply in_seq; lia)).
  apply orb_true_iff in Hall as [Heq | Hclash].
  { apply Nat.eqb_eq in Heq. done. }
  by rewrite (nth_lookup_Some _ _ [] _ Hj), (nth_lookup_Some _ _ [] _ Hk)
    in Hclash.
Qed.

Lemma token_inert (j k : nat) (tj tk : jsstring) :
  tokens !! j = Some tj -> tokens !! k = Some tk -> j <> k ->
  inert tj tk.
Proof.
  intros Hj Hk Hne.
  destruct (token_shape tj) as (bj & -> & _); [by eapply list_elem_of_lookup_2|].
  destruct (token_shape tk) as (bk & -> & Hbk); [by eapply list_elem_of_lookup_2|].
  apply inert_other_token; [done|]. by eapply token_clash.
Qed.

Lemma field_token_lookup (k : nat) (entry : jsstring * jsstring) :
  Generator.mappings !! k = Some entry -> tokens !! k = Some entry.2.
Proof.
  intros Hk. unfold tokens.
  rewrite lookup_app_l by (rewrite length_map; by eapply lookup_lt_Some).
  change (map snd Generator.mappings) with (snd <$> Generator.mappings).
  by rewrite list_lookup_fmap, Hk.
Qed.

Lemma files_token_lookup :
  tokens !! length Generator.mappings = Some Generator.fileMappings_placeholder.
Proof. reflexivity. Qed.

Lemma text_innerHTML_bracket_free (text : jsstring) :
  bracket_free text -> bracket_free (DOM.text_innerHTML text).
Proof.
  unfold DOM.text_innerHTML, bracket_free. intros Hfree.
  induction Hfree as [|c text Hc _ IH]; cbn; [constructor|].
  apply Forall_app. split; [|done].
  unfold DOM.escape_unit. repeat case_match; repeat constructor; done.
Qed.

Lemma text_innerHTML_nonempty (c : N) (text : jsstring) :
  DOM.text_innerHTML (c :: text) <> [].
Proof.
  unfold DOM.text_innerHTML. cbn [List.flat_map]. unfold DOM.escape_unit.
  repeat case_match; done.
Qed.

Variable row : rowObj.
Hypothesis row_ok : row_bracket_free row.

(** What one round puts in the place of its placeholder. *)
Lemma fill_one_replace (html : jsstring) (k : nat)
    (entry : jsstring * jsstring) :
  Generator.mappings !! k = Some entry ->
  Generator.fill_one row html entry
  = replace_all entry.2 (field_shown row k) html.
Proof.
  intros Hk. unfold Generator.fill_one, field_shown. rewrite Hk.
  destruct entry as [column placeholder]. cbn [fst snd].
  unfold replace_all, Generator.escapeHtml.
  destruct (get_or row column []) as [|c value]; [done|].
  cbn [falsy].
  pose proof (text_innerHTML_nonempty c value) as Hne.
  by destruct (DOM.text_innerHTML (c :: value)).
Qed.

Lemma field_shown_inert (j k : nat) (tj : jsstring) :
  tokens !! j = Some tj ->
  (k < length Generator.mappings)%nat -> j <> k ->
  inert tj (field_shown row k).
Proof.
  intros Hj Hk Hne. unfold field_shown.
  destruct (lookup_lt_is_Some_2 _ _ Hk) as [entry Hentry]. rewrite Hentry.
  destruct (get_or row entry.1 []) as [|c value] eqn:E.
  - eapply token_inert; [done| |done]. by apply field_token_lookup.
  - destruct (token_shape tj) as (bj & -> & _);
      [by eapply list_elem_of_lookup_2|].
    apply inert_bracket_free, text_innerHTML_bracket_free.
    rewrite <- E. apply row_ok. by eapply list_elem_of_lookup_2.
Qed.

Lemma page_round (j : nat) (entry : jsstring * jsstring)
    (parts : list part) :
  Generator.mappings !! j = Some entry ->
  Forall part_ok parts ->
  Generator.fill_one row (page_after row j parts) entry
  = page_after row (S j) parts.
Proof.
  intros Hj Hparts. rewrite (fill_one_replace _ j) by done.
  pose proof (field_token_lookup _ _ Hj) as Htj.
  destruct (token_shape entry.2) as (body & Ebody & Hbody);
    [by eapply list_elem_of_lookup_2|].
  assert (Hne : entry.2 <> []) by (by rewrite Ebody).
  induction Hparts as [|p parts Hp _ IH]; cbn [page_after List.flat_map].
  { by apply replace_all_nil. }
  fold (page_after row j parts). fold (page_after row (S j) parts).
  destruct p as [t | k |]; cbn [part_ok] in Hp.
  - rewrite replace_all_inert, IH; [done..|].
    rewrite Ebody. by apply inert_bracket_free.
  - destruct (Nat.ltb_spec k j) as [Hlt | Hge].
    + destruct (Nat.ltb_spec k (S j)) as [_ | ?]; [|lia].
      rewrite replace_all_inert, IH; [done..|].
      apply (field_shown_inert j); [done..|lia].
    + destruct (decide (k = j)) as [-> | Hkj].
      * destruct (Nat.ltb_spec j (S j)) as [_ | ?]; [|lia].
        unfold field_token at 1. rewrite Hj.
        by rewrite replace_all_here, IH.
      * destruct (Nat.ltb_spec k (S j)) as [? | _]; [lia|].
        rewrite replace_all_inert, IH; [done..|].
        destruct (lookup_lt_is_Some_2 _ _ Hp) as [ek Hk].
        unfold field_token. rewrite Hk.
        eapply (token_inert j k); [done| |done]. by apply field_token_lookup.
  - rewrite replace_all_inert, IH; [done..|].
    eapply (token_inert j); [done|apply files_token_lookup|].
    apply lookup_lt_Some in Hj. lia.
Qed.

Lemma page_rounds (parts : list part) (j : nat) :
  Forall part_ok parts ->
  (j <= length Generator.mappings)%nat ->
  fold_left (Generator.fill_one row) (take j Generator.mappings) (page parts)
  = page_after row j parts.
Proof.
  intros Hparts. induction j as [|j IH]; intros Hj.
  - cbn. unfold page, page_after. done.
  - destruct (lookup_lt_is_Some_2 Generator.mappings j) as [entry Hentry];
      [lia|].
    rewrite (take_S_r _ _ _ Hentry), fold_left_app, IH by lia. cbn.
    by apply page_round.
Qed.

Lemma page_files (parts : list part) :
  Forall part_ok parts ->
  replace_all Generator.fileMappings_placeholder (files_shown row)
    (page_after row (length Generator.mappings) parts)
  = page_filled row parts.
Proof.
  intros Hparts.
  assert (Hne : Generator.fileMappings_placeholder <> []) by done.
  induction Hparts as [|p parts Hp _ IH]; cbn [page_after page_filled List.flat_map].
  { by apply replace_all_nil. }
  fold (page_after row (length Generator.mappings) parts).
  fold (page_filled row parts).
  destruct p as [t | k |]; cbn [part_ok] in Hp.
  - rewrite replace_all_inert, IH; [done..|].
    destruct (token_shape Generator.fileMappings_placeholder)
      as (body & -> & _); [by eapply list_elem_of_lookup_2, files_token_lookup|].
    by apply inert_bracket_free.
  - destruct (Nat.ltb_spec k (length Generator.mappings)) as [_ | ?]; [|lia].
    rewrite replace_all_inert, IH; [done..|].
    apply (field_shown_inert (length Generator.mappings));
      [apply files_token_lookup|done|lia].
  - by rewrite replace_all_here, IH.
Qed.

Lemma files_shown_escaped :
  Generator.escapeHtml
    (if falsy (Generator.fileValues row) then lit "No files uploaded"
     else Generator.fileValues row)
  = files_shown row.
Proof.
  unfold files_shown. by destruct (Generator.fileValues row).
Qed.

End FillPage.



(** ** The preview: what the frame shows, and the navigation state *)

Section Shown.

Import Preview.

Variable template : option jsstring.
Hypothesis template_loaded : loaded template.

Lemma row_at_on_a_row (st : preview) :
  on_a_row st -> exists row, row_at st = Some row.
Proof.
  intros [Hlo Hhi]. unfold row_at.
  destruct (Z.ltb_spec (currentIndex st) 0) as [? | _]; [lia|].
  apply lookup_lt_is_Some_2. lia.
Qed.

Lemma render_shows (st : preview) :
  on_a_row st ->
  exists row filled,
    row_at st = Some row
    /\ Generator.fillTemplate template row = Normal filled
    /\ render template st
       = Normal {| iframe := match iframe st with
                             | Some _ => Some filled
                             | None => None
                             end;
                   rows := rows st; currentIndex := currentIndex st |}.
Proof.
  intros Hon. destruct (row_at_on_a_row st Hon) as [row Hrow].
  destruct (fillTemplate_loaded template row template_loaded)
    as [filled Hfilled].
  exists row, filled. split; [done|]. split; [done|].
  unfold render. destruct (iframe st) as [shown|] eqn:Eframe.
  - destruct Hon as [Hlo Hhi].
    destruct (Nat.eqb_spec (length (rows st)) 0) as [E0 | _]; [lia|].
    by rewrite Hrow, Hfilled.
  - destruct st as [f r i]. cbn in *. by subst f.
Qed.

Lemma render_on_a_row (st : preview) :
  on_a_row st ->
  exists st', render template st = Normal st'
    /\ rows st' = rows st /\ currentIndex st' = currentIndex st
    /\ displays template st'
    /\ (displays template st -> st' = st).
Proof.
  intros Hon.
  destruct (render_shows st Hon) as (row & filled & Hrow & Hfilled & E).
  eexists. split; [exact E|]. cbn [rows currentIndex].
  split; [done|]. split; [done|]. split.
  - unfold displays, getCurrentRow. cbn [iframe].
    destruct (iframe st); [|done]. exists row. split; [|done]. exact Hrow.
  - unfold displays, getCurrentRow. destruct st as [[shown|] r i]; cbn [iframe];
      [|done].
    intros (row' & Hrow' & Hshown). f_equal. congruence.
Qed.

Lemma moved_on_a_row (st : preview) :
  on_a_row st ->
  exists st', moved template st = (st', Normal true)
    /\ rows st' = rows st /\ currentIndex st' = currentIndex st
    /\ displays template st'.
Proof.
  intros Hon.
  destruct (render_on_a_row st Hon) as (st' & E & Hrows & Hidx & Hd & _).
  exists st'. unfold moved. by rewrite E.
Qed.

Lemma next_outcome (st : preview) :
  on_a_row st -> displays template st ->
  exists st',
    next template st = (st', Normal (hasNext (getState st)))
    /\ rows st' = rows st
    /\ currentIndex st'
       = (if hasNext (getState st) then currentIndex st + 1
          else currentIndex st)%Z
    /\ on_a_row st' /\ displays template st'
    /\ (hasNext (getState st) = false -> st' = st).
Proof.
  intros Hon Hd. pose proof Hon as [Hlo Hhi].
  unfold next, getState. cbn [hasNext].
  destruct (Z.ltb_spec (currentIndex st) (Z.of_nat (length (rows st)) - 1))
    as [Hlt | Hge].
  - destruct (moved_on_a_row (with_index st (currentIndex st + 1)))
      as (st' & -> & Hrows & Hidx & Hd'); [unfold on_a_row; cbn; lia|].
    exists st'. cbn [with_index rows currentIndex] in Hrows, Hidx.
    repeat split; try done. all: rewrite ?Hrows, Hidx; lia.
  - by exists st.
Qed.

Lemma previous_outcome (st : preview) :
  on_a_row st -> displays template st ->
  exists st',
    previous template st = (st', Normal (hasPrev (getState st)))
    /\ rows st' = rows st
    /\ currentIndex st'
       = (if hasPrev (getState st) then currentIndex st - 1
          else currentIndex st)%Z
    /\ on_a_row st' /\ displays template st'
    /\ (hasPrev (getState st) = false -> st' = st).
Proof.
  intros Hon Hd. pose proof Hon as [Hlo Hhi].
  unfold previous, getState. cbn [hasPrev].
  destruct (Z.gtb_spec (currentIndex st) 0) as [Hgt | Hle].
  - destruct (moved_on_a_row (with_index st (currentIndex st - 1)))
      as (st' & -> & Hrows & Hidx & Hd'); [unfold on_a_row; cbn; lia|].
    exists st'. cbn [with_index rows currentIndex] in Hrows, Hidx.
    repeat split; try done. all: rewrite ?Hrows, Hidx; lia.
  - by exists st.
Qed.

End Shown.

(** X12. With a loaded template, what the frame shows is the fill of
    the row under the cursor: [render] makes it so whenever the cursor
    is on a row, and [next], [previous] and [goTo] keep it so, moving
    or not. *)
Theorem preview_shows_current_row (template : option jsstring)
    (st : Preview.preview) :
  loaded template ->
  (on_a_row st ->
   exists st', Preview.render template st = Normal st'
     /\ displays template st')
  /\ (on_a_row st -> displays template st ->
      displays template (Preview.next template st).1
      /\ displays template (Preview.previous template st).1
      /\ forall index, displays template (Preview.goTo template st index).1).
Proof.
  intros Hloaded. split.
  - intros Hon.
    destruct (render_on_a_row template Hloaded st Hon) as (st' & E & _ & _ & Hd & _).
    by exists st'.
  - intros Hon Hd. pose proof Hon as [Hlo Hhi]. repeat split.
    + unfold Preview.next.
      destruct (Z.ltb_spec (Preview.currentIndex st)
                  (Z.of_nat (length (Preview.rows st)) - 1)) as [Hlt | _];
        [|done].
      destruct (moved_on_a_row template Hloaded
                  (Preview.with_index st (Preview.currentIndex st + 1)))
        as (st' & E & _ & _ & Hd'); [unfold on_a_row; cbn; lia|].
      by rewrite E.
    + unfold Preview.previous.
      destruct (Z.gtb_spec (Preview.currentIndex st) 0) as [Hgt | _]; [|done].
      destruct (moved_on_a_row template Hloaded
                  (Preview.with_index st (Preview.currentIndex st - 1)))
        as (st' & E & _ & _ & Hd'); [unfold on_a_row; cbn; lia|].
      by rewrite E.
    + intros index. unfold Preview.goTo.
      destruct (Z.geb_spec index 0) as [Hge | _]; [|done].
      destruct (Z.ltb_spec index (Z.of_nat (length (Preview.rows st))))
        as [Hlt | _]; [|done].
      cbn [andb].
      destruct (render_on_a_row template Hloaded (Preview.with_index st index))
        as (st' & E & _ & _ & Hd' & _); [unfold on_a_row; cbn; lia|].
      by rewrite E.
Qed.

(** X12, at two rows with the cursor on the first and a frame that
    shows its fill. *)
Lemma preview_shows_current_row_witness :
  let template := Some (lit "[INSERT_CLIENT_NAME]") in
  let st :=
    {| Preview.iframe := Some (lit "Acme");
       Preview.rows := [ {[ lit "Client" := lit "Acme" ]};
                         {[ lit "Client" := lit "Bolt" ]} ];
       Preview.currentIndex := 0 |} in
  displays template (Preview.next template st).1
  /\ Preview.iframe (Preview.next template st).1 = Some (lit "Bolt").
Proof.
  intros template st. split; [|vm_compute; reflexivity].
  assert (Hon : on_a_row st) by (unfold on_a_row; cbn; lia).
  assert (Hloaded : loaded template) by (by eexists).
  apply (preview_shows_current_row template st Hloaded).
  - exact Hon.
  - exists {[ lit "Client" := lit "Acme" ]}. split; vm_compute; reflexivity.
Defined.

(** X13. [getState] tells what [next] and [previous] will do: with a
    loaded template and the cursor on a row, the position it reports
    lies between 1 and the number of rows, [next] returns [hasNext] and
    [previous] returns [hasPrev]; and where the flag is false the call
    leaves the preview as it is. *)
Theorem getState_tells_moves (template : option jsstring)
    (st : Preview.preview) :
  loaded template ->
  on_a_row st ->
  let state := Preview.getState st in
  (1 <= Preview.current state <= Z.of_nat (Preview.total state))%Z
  /\ (Preview.next template st).2 = Normal (Preview.hasNext state)
  /\ (Preview.previous template st).2 = Normal (Preview.hasPrev state)
  /\ (Preview.hasNext state = false -> (Preview.next template st).1 = st)
  /\ (Preview.hasPrev state = false -> (Preview.previous template st).1 = st).
Proof.
  intros Hloaded [Hlo Hhi] state. unfold state, Preview.getState.
  cbn [Preview.current Preview.total Preview.hasNext Preview.hasPrev].
  split; [lia|]. unfold Preview.next, Preview.previous.
  destruct (Z.ltb_spec (Preview.currentIndex st)
              (Z.of_nat (length (Preview.rows st)) - 1)) as [Hlt | Hge];
    destruct (Z.gtb_spec (Preview.currentIndex st) 0) as [Hgt | Hle].
  all: repeat split; try done.
  all: try (destruct (moved_on_a_row template Hloaded
                        (Preview.with_index st (Preview.currentIndex st + 1)))
              as (st' & -> & _); [unfold on_a_row; cbn; lia|]; done).
  all: try (destruct (moved_on_a_row template Hloaded
                        (Preview.with_index st (Preview.currentIndex st - 1)))
              as (st' & -> & _); [unfold on_a_row; cbn; lia|]; done).
Qed.

(** X13, at three rows with the cursor on the last. *)
Lemma getState_tells_moves_witness :
  let template := Some (lit "x") in
  let st :=
    {| Preview.iframe := None; Preview.rows := [∅; ∅; ∅];
       Preview.currentIndex := 2 |} in
  (Preview.next template st).2 = Normal false
  /\ (Preview.previous template st).2 = Normal true.
Proof.
  intros template st.
  assert (Hon : on_a_row st) by (unfold on_a_row; cbn; lia).
  assert (Hloaded : loaded template) by (by eexists).
  destruct (getState_tells_moves template st Hloaded Hon)
    as (_ & Hnext & Hprev & _).
  split; [exact Hnext | exact Hprev].
Defined.

(** X14. Stepping forth and back returns to where one was: with a
    loaded template, the cursor on a row and the frame showing that
    row, [next] followed by [previous] restores the preview exactly,
    frame included, unless the cursor was on the last row; and so does
    [previous] followed by [next], unless it was on the first. *)
Theorem next_previous_round_trip (template : option jsstring)
    (st : Preview.preview) :
  loaded template ->
  on_a_row st ->
  displays template st ->
  ((Preview.currentIndex st < Z.of_nat (length (Preview.rows st)) - 1)%Z ->
   Preview.previous template (Preview.next template st).1
   = (st, Normal true))
  /\ ((0 < Preview.currentIndex st)%Z ->
      Preview.next template (Preview.previous template st).1
      = (st, Normal true)).
Proof.
  intros Hloaded [Hlo Hhi] Hd.
  assert (Hback : forall st1 : Preview.preview,
            Preview.rows st1 = Preview.rows st ->
            (Preview.iframe st1 = None <-> Preview.iframe st = None) ->
            Preview.moved template
              (Preview.with_index st1 (Preview.currentIndex st))
            = (st, Normal true)).
  { intros st1 Hrows Hframe. unfold Preview.moved.
    destruct (render_shows template Hloaded
                (Preview.with_index st1 (Preview.currentIndex st)))
      as (row & filled & Hrow & Hfilled & ->).
    { unfold on_a_row. cbn. rewrite Hrows. lia. }
    f_equal. cbn [Preview.with_index Preview.rows Preview.currentIndex
                  Preview.iframe].
    unfold Preview.row_at in Hrow.
    cbn [Preview.with_index Preview.rows Preview.currentIndex] in Hrow.
    rewrite Hrows in *.
    unfold displays, Preview.getCurrentRow, Preview.row_at in Hd.
    destruct st as [f r i]. cbn [Preview.iframe Preview.rows
                                 Preview.currentIndex] in *.
    f_equal. destruct f as [shown|].
    - destruct Hd as (row' & Hrow' & Hshown).
      destruct (Preview.iframe st1) as [shown1|]; [congruence|].
      by destruct Hframe as [Hframe _]; specialize (Hframe eq_refl).
    - destruct Hframe as [_ Hframe]. by rewrite (Hframe eq_refl). }
  assert (Hstep : forall i : Z,
            (0 <= i < Z.of_nat (length (Preview.rows st)))%Z ->
            exists st1, Preview.moved template (Preview.with_index st i)
                        = (st1, Normal true)
              /\ Preview.rows st1 = Preview.rows st
              /\ Preview.currentIndex st1 = i
              /\ (Preview.iframe st1 = None <-> Preview.iframe st = None)).
  { intros i Hi. unfold Preview.moved.
    destruct (render_shows template Hloaded (Preview.with_index st i))
      as (row & filled & _ & _ & ->); [unfold on_a_row; cbn; lia|].
    eexists. split; [done|]. cbn. repeat split; try done.
    all: by destruct (Preview.iframe st). }
  split; intros Hroom.
  - unfold Preview.next at 1.
    destruct (Z.ltb_spec (Preview.currentIndex st)
                (Z.of_nat (length (Preview.rows st)) - 1)) as [_ | ?]; [|lia].
    destruct (Hstep (Preview.currentIndex st + 1)%Z ltac:(lia))
      as (st1 & -> & Hrows & Hidx & Hframe).
    cbn [fst]. unfold Preview.previous. rewrite Hidx.
    destruct (Z.gtb_spec (Preview.currentIndex st + 1) 0) as [_ | ?]; [|lia].
    replace (Preview.currentIndex st + 1 - 1)%Z with (Preview.currentIndex st)
      by lia.
    by apply Hback.
  - unfold Preview.previous at 1.
    destruct (Z.gtb_spec (Preview.currentIndex st) 0) as [_ | ?]; [|lia].
    destruct (Hstep (Preview.currentIndex st - 1)%Z ltac:(lia))
      as (st1 & -> & Hrows & Hidx & Hframe).
    cbn [fst]. unfold Preview.next. rewrite Hidx, Hrows.
    destruct (Z.ltb_spec (Preview.currentIndex st - 1)
                (Z.of_nat (length (Preview.rows st)) - 1)) as [_ | ?]; [|lia].
    replace (Preview.currentIndex st - 1 + 1)%Z with (Preview.currentIndex st)
      by lia.
    by apply Hback.
Qed.

(** X14, at two rows, the cursor on the first, no frame. *)
Lemma next_previous_round_trip_witness :
  let template := Some (lit "x") in
  let st :=
    {| Preview.iframe := None; Preview.rows := [∅; ∅];
       Preview.currentIndex := 0 |} in
  Preview.previous template (Preview.next template st).1 = (st, Normal true).
Proof.
  intros template st.
  assert (Hon : on_a_row st) by (unfold on_a_row; cbn; lia).
  assert (Hloaded : loaded template) by (by eexists).
  apply (next_previous_round_trip template st Hloaded Hon I).
  cbn. lia.
Defined.

(** ** The controller: upload, navigation, generation *)

Section Upload.

Variable toLowerCase : jsstring -> jsstring.

Lemma valid_extension_parseFile (file : Parser.file) :
  Controller.valid_extension
    (Parser.extension_of toLowerCase (Parser.fileName file)) = true ->
  Parser.parseFile toLowerCase file = Parser.parseCSV (Parser.fileText file)
  \/ Parser.parseFile toLowerCase file
     = Parser.parseExcel (Parser.fileSheet file).
Proof.
  unfold Controller.valid_extension, Parser.parseFile. cbn [existsb].
  destruct (str_eqb _ (lit "csv")); [by left|].
  destruct (str_eqb _ (lit "xlsx")); [by right|].
  destruct (str_eqb _ (lit "xls")); [by right|]. done.
Qed.

Lemma grid_to_result_Throw (too_short message : jsstring)
    (lines : list (list jsstring)) :
  Parser.grid_to_result too_short lines = Throw message ->
  message = too_short.
Proof.
  unfold Parser.grid_to_result. destruct (_ <? _)%nat; [|done].
  by intros [= <-].
Qed.

Lemma checked_Throw (file : Parser.file) (message : jsstring) :
  Controller.valid_extension
    (Parser.extension_of toLowerCase (Parser.fileName file)) = true ->
  App.checked (Parser.parseFile toLowerCase file) = Throw message ->
  message ∈ [Parser.csv_too_short; Parser.excel_too_short; App.no_data_rows].
Proof.
  intros Hvalid. unfold App.checked.
  destruct (valid_extension_parseFile file Hvalid) as [-> | ->].
  - unfold Parser.parseCSV.
    destruct (Parser.grid_to_result _ _) as [result|m] eqn:E.
    + destruct (_ =? _)%nat; [|done]. intros [= <-].
      apply elem_of_cons. right. apply elem_of_cons. right. apply elem_of_cons. by left.
    + intros [= <-]. apply grid_to_result_Throw in E as ->.
      apply elem_of_cons. by left.
  - unfold Parser.parseExcel.
    destruct (Parser.grid_to_result _ _) as [result|m] eqn:E.
    + destruct (_ =? _)%nat; [|done]. intros [= <-].
      apply elem_of_cons. right. apply elem_of_cons. right. apply elem_of_cons. by left.
    + intros [= <-]. apply grid_to_result_Throw in E as ->.
      apply elem_of_cons. right. apply elem_of_cons. by left.
Qed.

Lemma checked_Normal (parsed : completion Parser.ParseResult)
    (result : Parser.ParseResult) :
  App.checked parsed = Normal result ->
  parsed = Normal result /\ Parser.rows result <> [].
Proof.
  unfold App.checked. destruct parsed as [r|m]; [|done].
  destruct (Nat.eqb_spec (length (Parser.rows r)) 0) as [? | Hne]; [done|].
  intros [= <-]. split; [done|]. intros E. by rewrite E in Hne.
Qed.

(** What [processFile] does once the extension is accepted and the
    parse has given rows, with a loaded template. *)
Lemma processFile_parsed (a : Controller.app) (file : Parser.file)
    (result : Parser.ParseResult) :
  loaded (Controller.template a) ->
  Controller.valid_extension
    (Parser.extension_of toLowerCase (Parser.fileName file)) = true ->
  App.checked (Parser.parseFile toLowerCase file) = Normal result ->
  exists a',
    Controller.processFile toLowerCase a file
    = (a', Controller.Toast
             (lit "Loaded "
              ++ Controller.n_rows (length (Parser.rows result))
              ++ lit " successfully") Controller.success)
    /\ settled a'
    /\ Controller.parsedData a' = Some result
    /\ Preview.currentIndex (Controller.preview a') = 0%Z
    /\ Controller.fileName a' = Parser.fileName file
    /\ Controller.template a' = Controller.template a
    /\ Controller.templateLoaded a' = Controller.templateLoaded a.
Proof.
  intros Hloaded Hvalid Hchecked.
  destruct (checked_Normal _ _ Hchecked) as [_ Hrows].
  unfold Controller.processFile. rewrite Hvalid, Hchecked. cbn [negb].
  cbn [Controller.template Controller.preview].
  assert (Hon : on_a_row (Preview.setRows (Controller.preview a)
                            (Parser.rows result))).
  { unfold on_a_row. cbn. destruct (Parser.rows result); [done|]. cbn. lia. }
  destruct (render_on_a_row _ Hloaded _ Hon)
    as (p & -> & Hprows & Hpidx & Hd & _).
  eexists. split; [reflexivity|].
  cbn [Preview.setRows Preview.rows Preview.currentIndex] in Hprows, Hpidx.
  split; [|by repeat split].
  exists result. unfold on_a_row. cbn. rewrite Hprows, Hpidx.
  repeat split; try done.
  - destruct (Parser.rows result); [done|]. cbn. lia.
  - unfold Controller.updateNavigation, Preview.getState. cbn.
    by rewrite Hprows, Hpidx.
Qed.

End Upload.

(** X15. An upload that [processFile] accepts leaves the page settled:
    with a loaded template, when the toast is the one of success, the
    file's extension was one of the three, the parse gave at least one
    row, these rows are the ones kept and previewed, the cursor is on
    the first, the frame shows it and the navigation display reads
    [1] of the number of rows. *)
Theorem processFile_settles (toLowerCase : jsstring -> jsstring)
    (a a' : Controller.app) (file : Parser.file) (message : jsstring) :
  loaded (Controller.template a) ->
  Controller.processFile toLowerCase a file
  = (a', Controller.Toast message Controller.success) ->
  exists result,
    Parser.parseFile toLowerCase file = Normal result
    /\ Parser.rows result <> []
    /\ Controller.parsedData a' = Some result
    /\ settled a'
    /\ Controller.currentRow a' = 1%Z
    /\ Controller.totalRows a' = length (Parser.rows result)
    /\ Controller.prevRow_disabled a' = true
    /\ Controller.nextRow_disabled a'
       = (length (Parser.rows result) =? 1)%nat.
Proof.
  intros Hloaded Hrun.
  destruct (Controller.valid_extension
              (Parser.extension_of toLowerCase (Parser.fileName file)))
    eqn:Hvalid.
  2: { unfold Controller.processFile in Hrun. by rewrite Hvalid in Hrun. }
  destruct (App.checked (Parser.parseFile toLowerCase file))
    as [result|m] eqn:Hchecked.
  2: { unfold Controller.processFile in Hrun.
       by rewrite Hvalid, Hchecked in Hrun. }
  destruct (processFile_parsed toLowerCase a file result Hloaded Hvalid Hchecked)
    as (a1 & E & Hsettled & Hdata & Hidx & _).
  rewrite E in Hrun. injection Hrun as <- _.
  destruct (checked_Normal _ _ Hchecked) as [Hparse Hrows].
  exists result. repeat split; try done.
  all: destruct Hsettled as (data & Hd & Hr & _ & _ & Hnav & _);
    rewrite Hdata in Hd; injection Hd as <-; rewrite <- Hnav;
    unfold Controller.updateNavigation, Preview.getState; cbn;
    rewrite ?Hidx, ?Hr; try done.
  destruct (Parser.rows result) as [|r [|r' rs]]; [done|done|].
  cbn [length]. destruct (Z.ltb_spec 0 (Z.of_nat (S (S (length rs))) - 1)); [done|lia].
Qed.

(** X15, at a CSV file of a header line and one data line. *)
Lemma processFile_settles_witness :
  let a :=
    {| Controller.parsedData := None; Controller.templateLoaded := true;
       Controller.template := Some (lit "[INSERT_CLIENT_NAME]");
       Controller.preview :=
         {| Preview.iframe := Some []; Preview.rows := [];
            Preview.currentIndex := 0 |};
       Controller.fileName := []; Controller.rowCount := [];
       Controller.currentRow := 0; Controller.totalRows := 0;
       Controller.prevRow_disabled := true;
       Controller.nextRow_disabled := true;
       Controller.uploadSection_hidden := false;
       Controller.previewSection_hidden := true |} in
  let file :=
    {| Parser.fileName := lit "rows.csv";
       Parser.fileText := lit "Client,Site" ++ [LF] ++ lit "Acme,Hall";
       Parser.fileSheet := [] |} in
  let a' := (Controller.processFile (fun s => s) a file).1 in
  settled a'
  /\ Preview.iframe (Controller.preview a') = Some (lit "Acme").
Proof.
  intros a file a'. split; [|vm_compute; reflexivity].
  destruct (processFile_settles (fun s => s) a a' file
              (lit "Loaded 1 row successfully"))
    as (result & _ & _ & _ & Hsettled & _).
  - by eexists.
  - vm_compute. reflexivity.
  - exact Hsettled.
Defined.

Section Readers.

Variable toLowerCase : jsstring -> jsstring.

(** A refusal on a file that was read and decoded. *)
Lemma processFile_refused (a a' : Controller.app) (file : Parser.file)
    (message : jsstring) :
  loaded (Controller.template a) ->
  Controller.processFile toLowerCase a file
  = (a', Controller.Toast message Controller.error) ->
  a' = a
  /\ message ∈ [Controller.wrong_type; Parser.csv_too_short;
                Parser.excel_too_short; App.no_data_rows].
Proof.
  intros Hloaded Hrun.
  destruct (Controller.valid_extension
              (Parser.extension_of toLowerCase (Parser.fileName file)))
    eqn:Hvalid.
  - destruct (App.checked (Parser.parseFile toLowerCase file))
      as [result|m] eqn:Hchecked.
    + destruct (processFile_parsed toLowerCase a file result
                  Hloaded Hvalid Hchecked) as (a1 & E & _).
      by rewrite E in Hrun.
    + unfold Controller.processFile in Hrun.
      rewrite Hvalid, Hchecked in Hrun. injection Hrun as <- <-.
      split; [done|].
      apply (checked_Throw toLowerCase file m Hvalid) in Hchecked.
      apply elem_of_cons. by right.
  - unfold Controller.processFile in Hrun. rewrite Hvalid in Hrun.
    injection Hrun as <- <-. split; [done|].
    apply elem_of_cons. by left.
Qed.

Lemma processUpload_as_file (a : Controller.app) (u : Parser.upload)
    (file : Parser.file) :
  Parser.uploadName u = Parser.fileName file ->
  Parser.parseUpload toLowerCase u = Parser.parseFile toLowerCase file ->
  Controller.processUpload toLowerCase a u
  = Controller.processFile toLowerCase a file.
Proof.
  intros Hname Hparse. unfold Controller.processUpload, Controller.processFile.
  by rewrite Hname, Hparse.
Qed.

(** What the readers come to, for an extension that is accepted: they
    throw, or the file is as good as a decoded one. *)
Lemma parseUpload_cases (u : Parser.upload) :
  Controller.valid_extension
    (Parser.extension_of toLowerCase (Parser.uploadName u)) = true ->
  Parser.parseUpload toLowerCase u = Throw Parser.read_failed
  \/ (exists thrown,
        Parser.uploadSheet u = Some (Throw thrown)
        /\ Parser.parseUpload toLowerCase u
           = Throw (lit "Failed to parse Excel file: " ++ thrown))
  \/ (exists file,
        Parser.uploadName u = Parser.fileName file
        /\ Parser.parseUpload toLowerCase u
           = Parser.parseFile toLowerCase file).
Proof.
  unfold Controller.valid_extension, Parser.parseUpload. cbn [existsb].
  intros Hvalid.
  destruct (str_eqb _ (lit "csv")) eqn:Ecsv.
  - destruct (Parser.uploadText u) as [text|] eqn:Etext; [|by left].
    right. right.
    exists {| Parser.fileName := Parser.uploadName u; Parser.fileText := text;
              Parser.fileSheet := [] |}.
    split; [done|]. unfold Parser.parseFile. cbn [Parser.fileName].
    by rewrite Ecsv.
  - destruct (str_eqb _ (lit "xlsx") || str_eqb _ (lit "xls")) eqn:Exl.
    + destruct (Parser.uploadSheet u) as [[grid | thrown]|] eqn:Esheet;
        [|right; left; by exists thrown|by left].
      right. right.
      exists {| Parser.fileName := Parser.uploadName u; Parser.fileText := [];
                Parser.fileSheet := grid |}.
      split; [done|]. unfold Parser.parseFile. cbn [Parser.fileName].
      by rewrite Ecsv, Exl.
    + exfalso. apply orb_false_iff in Exl as [E1 E2].
      rewrite E1, E2 in Hvalid. done.
Qed.

End Readers.

(** X16. An upload that [processFile] refuses changes nothing, the
    failures of the readers included: with a loaded template, when the
    toast is one of error, the state is the one before the call, and
    the message is the one about the file type, which is what an
    extension outside the three gets, [Failed to read file], what the
    spreadsheet library threw under [Failed to parse Excel file], one
    of the two of the readers about a grid of fewer than two lines, or
    the one about no data rows.  The message of [parseFile] about an
    unsupported format is never shown.  On a file that was read and
    decoded, [processUpload] is [processFile]. *)
Theorem processFile_refusal (toLowerCase : jsstring -> jsstring)
    (a a' : Controller.app) (file : Parser.upload) (message : jsstring) :
  loaded (Controller.template a) ->
  Controller.processUpload toLowerCase a file
  = (a', Controller.Toast message Controller.error) ->
  a' = a
  /\ (message ∈ [Controller.wrong_type; Parser.read_failed;
                 Parser.csv_too_short; Parser.excel_too_short;
                 App.no_data_rows]
      \/ exists thrown,
           Parser.uploadSheet file = Some (Throw thrown)
           /\ message = lit "Failed to parse Excel file: " ++ thrown)
  /\ (Controller.valid_extension
        (Parser.extension_of toLowerCase (Parser.uploadName file)) = false ->
      message = Controller.wrong_type)
  /\ (forall extension, message <> Parser.unsupported extension)
  /\ (forall decoded : Parser.file,
        Controller.processUpload toLowerCase a (Parser.decoded decoded)
        = Controller.processFile toLowerCase a decoded).
Proof.
  intros Hloaded Hrun.
  assert (Hmain : a' = a
            /\ (message ∈ [Controller.wrong_type; Parser.read_failed;
                           Parser.csv_too_short; Parser.excel_too_short;
                           App.no_data_rows]
                \/ exists thrown,
                     Parser.uploadSheet file = Some (Throw thrown)
                     /\ message = lit "Failed to parse Excel file: " ++ thrown)
            /\ (Controller.valid_extension
                  (Parser.extension_of toLowerCase (Parser.uploadName file))
                = false -> message = Controller.wrong_type)).
  { destruct (Controller.valid_extension
                (Parser.extension_of toLowerCase (Parser.uploadName file)))
      eqn:Hvalid.
    - destruct (parseUpload_cases toLowerCase file Hvalid)
        as [E | [(thrown & Hsheet & E) | (decoded & Hname & E)]].
      + unfold Controller.processUpload in Hrun.
        rewrite Hvalid, E in Hrun. injection Hrun as <- <-.
        split; [done|]. split; [|done]. left.
        apply elem_of_cons. right. apply elem_of_cons. by left.
      + unfold Controller.processUpload in Hrun.
        rewrite Hvalid, E in Hrun. injection Hrun as <- <-.
        split; [done|]. split; [|done]. right. by exists thrown.
      + rewrite (processUpload_as_file toLowerCase a file decoded Hname E)
          in Hrun.
        destruct (processFile_refused toLowerCase a a' decoded message
                    Hloaded Hrun) as [Ha Hm].
        split; [done|]. split; [|done]. left.
        rewrite !elem_of_cons in Hm. rewrite !elem_of_cons. tauto.
    - unfold Controller.processUpload in Hrun. rewrite Hvalid in Hrun.
      injection Hrun as <- <-. split; [done|]. split; [|done]. left.
      apply elem_of_cons. by left. }
  destruct Hmain as (Ha & Hm & Hw).
  split; [done|]. split; [done|]. split; [done|]. split.
  - intros extension. destruct Hm as [Hm | (thrown & _ & ->)]; [|discriminate].
    rewrite !elem_of_cons, elem_of_nil in Hm.
    destruct Hm as [-> | [-> | [-> | [-> | [-> | []]]]]]; discriminate.
  - intros decoded. by apply processUpload_as_file.
Qed.

(** X16, at a spreadsheet that the library cannot decode. *)
Lemma processFile_refusal_witness :
  let a :=
    {| Controller.parsedData := None; Controller.templateLoaded := true;
       Controller.template := Some (lit "[INSERT_CLIENT_NAME]");
       Controller.preview :=
         {| Preview.iframe := Some []; Preview.rows := [];
            Preview.currentIndex := 0 |};
       Controller.fileName := []; Controller.rowCount := [];
       Controller.currentRow := 0; Controller.totalRows := 0;
       Controller.prevRow_disabled := true;
       Controller.nextRow_disabled := true;
       Controller.uploadSection_hidden := false;
       Controller.previewSection_hidden := true |} in
  let file :=
    {| Parser.uploadName := lit "rows.xlsx";
       Parser.uploadText := Some (lit "PK");
       Parser.uploadSheet := Some (Throw (lit "Unsupported ZIP")) |} in
  Controller.processUpload (fun s => s) a file
  = (a, Controller.Toast (lit "Failed to parse Excel file: Unsupported ZIP")
          Controller.error).
Proof.
  intros a file.
  assert (Hrun : Controller.processUpload (fun s => s) a file
                 = ((Controller.processUpload (fun s => s) a file).1,
                    Controller.Toast
                      (lit "Failed to parse Excel file: Unsupported ZIP")
                      Controller.error))
    by (vm_compute; reflexivity).
  destruct (processFile_refusal (fun s => s) a _ file _ ltac:(by eexists) Hrun)
    as (Ha & _).
  rewrite Hrun. by rewrite Ha.
Defined.

Section Navigation.

Lemma with_preview_same (a : Controller.app) :
  Controller.with_preview a (Controller.preview a) = a.
Proof. by destruct a. Qed.

Lemma updateNavigation_idem (a : Controller.app) :
  Controller.updateNavigation (Controller.updateNavigation a)
  = Controller.updateNavigation a.
Proof. done. Qed.

(** A navigation call on a settled page, from what the preview's call
    comes to. *)
Lemma navigated_settled (a : Controller.app) (p : Preview.preview)
    (went : bool) :
  settled a ->
  Preview.rows p = Preview.rows (Controller.preview a) ->
  on_a_row p ->
  displays (Controller.template a) p ->
  (went = false -> p = Controller.preview a) ->
  exists a',
    Controller.navigated a (p, Normal went) = (a', Normal tt)
    /\ settled a'
    /\ Controller.preview a' = p
    /\ Controller.parsedData a' = Controller.parsedData a
    /\ (went = false -> a' = a).
Proof.
  intros (data & Hdata & Hrows & Hon & Hd & Hnav & Hup & Hpre) Hp Honp Hdp Hstay.
  destruct went.
  - eexists. split; [reflexivity|]. split; [|done].
    exists data. split; [exact Hdata|]. split; [cbn; by rewrite Hp|].
    split; [exact Honp|]. split; [exact Hdp|]. by split.
  - rewrite (Hstay eq_refl).
    unfold Controller.navigated. rewrite with_preview_same.
    exists a. repeat split; try done. by exists data.
Qed.

End Navigation.

(** X17. Navigation keeps a settled page settled and follows the
    buttons: with a loaded template, [navigateNext] and [navigatePrev]
    end without throwing on a settled page and leave it settled over
    the same data; a call whose button is shown disabled changes
    nothing, and a call whose button is enabled moves the displayed
    position by one. *)
Theorem navigation_follows_buttons (a : Controller.app) :
  loaded (Controller.template a) ->
  settled a ->
  (exists a', Controller.navigateNext a = (a', Normal tt)
     /\ settled a'
     /\ Controller.parsedData a' = Controller.parsedData a
     /\ (Controller.nextRow_disabled a = true -> a' = a)
     /\ (Controller.nextRow_disabled a = false ->
         Controller.currentRow a' = (Controller.currentRow a + 1)%Z))
  /\ (exists a', Controller.navigatePrev a = (a', Normal tt)
        /\ settled a'
        /\ Controller.parsedData a' = Controller.parsedData a
        /\ (Controller.prevRow_disabled a = true -> a' = a)
        /\ (Controller.prevRow_disabled a = false ->
            Controller.currentRow a' = (Controller.currentRow a - 1)%Z)).
Proof.
  intros Hloaded Hsettled.
  pose proof Hsettled as (data & Hdata & Hrows & Hon & Hd & Hnav & _).
  assert (Hshown :
    Controller.currentRow a = (Preview.currentIndex (Controller.preview a) + 1)%Z
    /\ Controller.nextRow_disabled a
       = negb (Preview.hasNext (Preview.getState (Controller.preview a)))
    /\ Controller.prevRow_disabled a
       = negb (Preview.hasPrev (Preview.getState (Controller.preview a)))).
  { rewrite <- Hnav. repeat split. }
  destruct Hshown as (Hcur & Hnext & Hprev).
  split.
  - destruct (next_outcome _ Hloaded _ Hon Hd)
      as (p & E & Hprows & Hpidx & Honp & Hdp & Hstay).
    unfold Controller.navigateNext. rewrite E.
    destruct (navigated_settled a p _ Hsettled Hprows Honp Hdp Hstay)
      as (a' & -> & Hs' & Hp' & Hdata' & Hsame).
    exists a'. repeat split; try done.
    + rewrite Hnext. intros Hdis. apply negb_true_iff in Hdis. by apply Hsame.
    + rewrite Hnext. intros Hen. apply negb_false_iff in Hen.
      rewrite Hen in Hpidx.
      destruct Hs' as (_ & _ & _ & _ & _ & Hnav' & _). rewrite <- Hnav'.
      cbn. rewrite Hp', Hpidx, Hcur. done.
  - destruct (previous_outcome _ Hloaded _ Hon Hd)
      as (p & E & Hprows & Hpidx & Honp & Hdp & Hstay).
    unfold Controller.navigatePrev. rewrite E.
    destruct (navigated_settled a p _ Hsettled Hprows Honp Hdp Hstay)
      as (a' & -> & Hs' & Hp' & Hdata' & Hsame).
    exists a'. repeat split; try done.
    + rewrite Hprev. intros Hdis. apply negb_true_iff in Hdis. by apply Hsame.
    + rewrite Hprev. intros Hen. apply negb_false_iff in Hen.
      rewrite Hen in Hpidx.
      destruct Hs' as (_ & _ & _ & _ & _ & Hnav' & _). rewrite <- Hnav'.
      cbn. rewrite Hp', Hpidx, Hcur. lia.
Qed.

(** X17, at two rows with the cursor on the first. *)
Lemma navigation_follows_buttons_witness :
  let rows : list rowObj :=
    [ {[ lit "Client" := lit "Acme" ]}; {[ lit "Client" := lit "Bolt" ]} ] in
  let a :=
    {| Controller.parsedData :=
         Some {| Parser.headers := [lit "Client"]; Parser.rows := rows |};
       Controller.templateLoaded := true;
       Controller.template := Some (lit "[INSERT_CLIENT_NAME]");
       Controller.preview :=
         {| Preview.iframe := Some (lit "Acme"); Preview.rows := rows;
            Preview.currentIndex := 0 |};
       Controller.fileName := lit "rows.csv";
       Controller.rowCount := lit "2 rows";
       Controller.currentRow := 1; Controller.totalRows := 2;
       Controller.prevRow_disabled := true;
       Controller.nextRow_disabled := false;
       Controller.uploadSection_hidden := true;
       Controller.previewSection_hidden := false |} in
  Controller.currentRow (Controller.navigateNext a).1 = 2%Z
  /\ (Controller.navigatePrev a).1 = a.
Proof.
  intros rows a.
  assert (Hloaded : loaded (Controller.template a)) by (by eexists).
  assert (Hsettled : settled a).
  { eexists. split; [reflexivity|]. split; [reflexivity|].
    split; [unfold on_a_row; cbn; lia|].
    split; [|by repeat split].
    exists {[ lit "Client" := lit "Acme" ]}. split; vm_compute; reflexivity. }
  destruct (navigation_follows_buttons a Hloaded Hsettled)
    as [(a1 & E1 & _ & _ & _ & Hmove) (a2 & E2 & _ & _ & Hstay & _)].
  rewrite E1, E2. cbn [fst]. split.
  - by rewrite Hmove.
  - by apply Hstay.
Defined.

Section Delivery.

Variable Blob : Type.
Variable generateDocx : jsstring -> completion Blob.
Variable template : option jsstring.

Lemma generateFilename_generated (row : rowObj) (i : N) :
  generated (Generator.generateFilename row i).
Proof.
  unfold Generator.generateFilename. eexists. split; [reflexivity|].
  apply sanitized_units.
Qed.

Lemma filenames_generated (rows : list rowObj) : forall i,
  Forall generated (filenames i rows).
Proof.
  induction rows as [|row rows IH]; intros i; cbn; constructor;
    [apply generateFilename_generated | apply IH].
Qed.

Lemma converts_filenames (rows : list rowObj) : forall i docs,
  converts (Generator.single Blob generateDocx template) i rows docs ->
  map Zip.filename docs = filenames i rows.
Proof.
  induction rows as [|row rows IH]; intros i [|doc docs] H; cbn in H;
    try done.
  destruct H as [Hdoc H]. cbn. rewrite (IH _ _ H). f_equal.
  by apply single_Normal in Hdoc as (html & _ & _ & ->).
Qed.

Lemma converts_total (rows : list rowObj) : forall i,
  loaded template ->
  (forall html, exists blob, generateDocx html = Normal blob) ->
  exists docs,
    converts (Generator.single Blob generateDocx template) i rows docs.
Proof.
  intros i Hloaded Hcodec. revert i.
  induction rows as [|row rows IH]; intros i; [by exists []|].
  destruct (fillTemplate_loaded template row Hloaded) as [html Hhtml].
  destruct (Hcodec html) as [blob Hblob].
  destruct (IH (i + 1)) as [docs Hdocs].
  exists (Zip.Document (Generator.generateFilename row i) blob :: docs).
  cbn. split; [|done]. unfold Generator.single. by rewrite Hhtml, Hblob.
Qed.

Lemma generateAll_converts (rows : list rowObj)
    (docs : list (Zip.document Blob)) :
  converts (Generator.single Blob generateDocx template) 0 rows docs ->
  (Generator.generateAll Blob generateDocx template rows).2 = Normal docs.
Proof.
  intros H. unfold Generator.generateAll, Batch.generateAll.
  by rewrite (loop_converts _ _ _ _ _ _ _ _ H).
Qed.

Lemma createZip_entries (fuel : nat) (docs : list (Zip.document Blob)) :
  (length docs <= fuel)%nat ->
  Forall generated (map Zip.filename docs) ->
  exists entries,
    Generator.createZip fuel docs = Some entries
    /\ entries.*1
       = expected_names Generator.rewrite [] (map Zip.filename docs)
    /\ entries.*2 = map Zip.blob docs
    /\ NoDup entries.*1.
Proof.
  intros Hfuel Hgen.
  destruct (createZip_generated Blob docs fuel Hfuel Hgen) as [E _].
  eexists. split; [exact E|].
  pose proof E as Hzip. unfold Generator.createZip, Zip.createZip in Hzip.
  assert (Hused : forall name : jsstring,
            name ∈ ([] : list (jsstring * Blob)).*1 -> name ∈ (∅ : gset jsstring)).
  { intros name Hname. by apply elem_of_nil in Hname. }
  assert (Hfresh : NoDup ([] : list (jsstring * Blob)).*1) by constructor.
  destruct (zip_loop_unique Blob Generator.rewrite docs fuel ∅ [] _
              Hused Hfresh Hzip) as [Hnodup Hblobs].
  split; [|by split].
  apply combine_fst. by rewrite expected_names_length, !length_map.
Qed.

End Delivery.

(** X18. What [generateDocuments] hands to [saveAs] when nothing
    throws: with data parsed, the template loaded and a codec that
    converts every markup, one row gives the one document under the
    name [generateFilename] gives it at index 0, and any other number
    of rows gives the archive [Specification_Documents.zip] with one
    entry per row, in the order of the rows, under names that are all
    different: each row's generated name, numbered when an earlier row
    had the same.  The loop of [createZip] ends within as many tests
    as there are rows. *)
Theorem generateDocuments_delivers (Blob : Type)
    (generateDocx : jsstring -> completion Blob) (fuel : nat)
    (a : Controller.app) (data : Parser.ParseResult) :
  Controller.parsedData a = Some data ->
  Controller.templateLoaded a = true ->
  loaded (Controller.template a) ->
  (forall html, exists blob, generateDocx html = Normal blob) ->
  (length (Parser.rows data) <= fuel)%nat ->
  exists download message,
    Controller.generateDocuments Blob generateDocx fuel a
    = Some (Some download, Controller.Toast message Controller.success)
    /\ match Parser.rows data with
       | [row] =>
           exists blob,
             download
             = Controller.SaveFile Blob blob (Generator.generateFilename row 0)
       | rows =>
           exists entries,
             download
             = Controller.SaveArchive Blob entries Controller.archive_name
             /\ entries.*1
                = expected_names Generator.rewrite [] (filenames 0 rows)
             /\ NoDup entries.*1
             /\ length entries = length rows
       end.
Proof.
  intros Hdata Hflag Hloaded Hcodec Hfuel.
  destruct (converts_total Blob generateDocx _ (Parser.rows data) 0
              Hloaded Hcodec) as [docs Hdocs].
  pose proof (converts_filenames _ _ _ _ _ _ Hdocs) as Hnames.
  pose proof (converts_length _ _ _ _ _ Hdocs) as Hlen.
  pose proof (generateAll_converts _ _ _ _ _ Hdocs) as Hall.
  unfold Controller.generateDocuments. rewrite Hdata, Hflag, Hall.
  cbn [negb].
  destruct (createZip_entries Blob fuel docs) as (entries & E & En & Eb & Hnd).
  { by rewrite Hlen. }
  { rewrite Hnames. apply filenames_generated. }
  assert (Hlen' : length entries = length (Parser.rows data)).
  { rewrite <- Hlen, <- (length_map Zip.blob docs), <- Eb.
    by rewrite length_fmap. }
  rewrite Hnames in En.
  destruct (Parser.rows data) as [|row [|row' rows]] eqn:Erows;
    destruct docs as [|doc [|doc' docs]]; try done.
  - rewrite E. eexists _, _. split; [reflexivity|]. by exists entries.
  - eexists _, _. split; [reflexivity|]. exists (Zip.blob doc).
    cbn in Hnames. injection Hnames as ->. done.
  - rewrite E. eexists _, _. split; [reflexivity|]. by exists entries.
Qed.

(** X18, at two rows of the same client and a codec that returns the
    markup it is given. *)
Lemma generateDocuments_delivers_witness :
  let rows : list rowObj :=
    [ {[ lit "Client" := lit "Acme" ]}; {[ lit "Client" := lit "Acme" ]} ] in
  let a :=
    {| Controller.parsedData :=
         Some {| Parser.headers := [lit "Client"]; Parser.rows := rows |};
       Controller.templateLoaded := true;
       Controller.template := Some (lit "[INSERT_CLIENT_NAME]");
       Controller.preview :=
         {| Preview.iframe := Some (lit "Acme"); Preview.rows := rows;
            Preview.currentIndex := 0 |};
       Controller.fileName := lit "rows.csv";
       Controller.rowCount := lit "2 rows";
       Controller.currentRow := 1; Controller.totalRows := 2;
       Controller.prevRow_disabled := true;
       Controller.nextRow_disabled := false;
       Controller.uploadSection_hidden := true;
       Controller.previewSection_hidden := false |} in
  exists download message,
    Controller.generateDocuments jsstring Normal 2 a
    = Some (Some download, Controller.Toast message Controller.success)
    /\ exists entries,
         download
         = Controller.SaveArchive jsstring entries Controller.archive_name
         /\ entries.*1
            = [lit "Acme_Specification.docx"; lit "Acme_Specification_1.docx"].
Proof.
  intros rows a.
  destruct (generateDocuments_delivers jsstring Normal 2 a
              {| Parser.headers := [lit "Client"]; Parser.rows := rows |})
    as (download & message & E & entries & Hd & Hnames & _).
  - reflexivity.
  - reflexivity.
  - by eexists.
  - intros html. by exists html.
  - cbn. lia.
  - exists download, message. split; [exact E|]. exists entries.
    split; [exact Hd|]. rewrite Hnames. vm_compute. reflexivity.
Defined.

(** X19. Generation is all or nothing: with data parsed and the
    template flagged as loaded, when the codec throws at some row,
    the rows before it having been converted, nothing is handed to
    [saveAs], not even the documents already made, and the toast
    carries what the codec threw. *)
Theorem generateDocuments_all_or_nothing (Blob : Type)
    (generateDocx : jsstring -> completion Blob) (fuel : nat)
    (a : Controller.app) (data : Parser.ParseResult)
    (before after : list rowObj) (row : rowObj)
    (docs : list (Zip.document Blob)) (html message : jsstring) :
  Controller.parsedData a = Some data ->
  Controller.templateLoaded a = true ->
  Parser.rows data = before ++ row :: after ->
  converts (Generator.single Blob generateDocx (Controller.template a)) 0
    before docs ->
  Generator.fillTemplate (Controller.template a) row = Normal html ->
  generateDocx html = Throw message ->
  Controller.generateDocuments Blob generateDocx fuel a
  = Some (None,
          Controller.Toast (lit "Generation failed: " ++ message)
            Controller.error).
Proof.
  intros Hdata Hflag Hrows Hbefore Hfill Hthrow.
  unfold Controller.generateDocuments. rewrite Hdata, Hflag, Hrows.
  cbn [negb]. unfold Generator.generateAll, Batch.generateAll.
  rewrite (loop_throws _ _ _ _ _ _ _ _ _ _ message Hbefore); [done|].
  unfold Generator.single. by rewrite Hfill, Hthrow.
Qed.

(** X19, at two rows and a codec that refuses the markup of the
    second. *)
Lemma generateDocuments_all_or_nothing_witness :
  let rows : list rowObj :=
    [ {[ lit "Client" := lit "Acme" ]}; {[ lit "Client" := lit "Bolt" ]} ] in
  let generateDocx (html : jsstring) : completion jsstring :=
    if str_eqb html (lit "Bolt") then Throw (lit "no") else Normal html in
  let a :=
    {| Controller.parsedData :=
         Some {| Parser.headers := [lit "Client"]; Parser.rows := rows |};
       Controller.templateLoaded := true;
       Controller.template := Some (lit "[INSERT_CLIENT_NAME]");
       Controller.preview :=
         {| Preview.iframe := Some (lit "Acme"); Preview.rows := rows;
            Preview.currentIndex := 0 |};
       Controller.fileName := lit "rows.csv";
       Controller.rowCount := lit "2 rows";
       Controller.currentRow := 1; Controller.totalRows := 2;
       Controller.prevRow_disabled := true;
       Controller.nextRow_disabled := false;
       Controller.uploadSection_hidden := true;
       Controller.previewSection_hidden := false |} in
  Controller.generateDocuments jsstring generateDocx 2 a
  = Some (None,
          Controller.Toast (lit "Generation failed: no") Controller.error).
Proof.
  intros rows generateDocx a.
  apply (generateDocuments_all_or_nothing jsstring generateDocx 2 a
           {| Parser.headers := [lit "Client"]; Parser.rows := rows |}
           [ {[ lit "Client" := lit "Acme" ]} ] []
           {[ lit "Client" := lit "Bolt" ]}
           [ Zip.Document (lit "Acme_Specification.docx") (lit "Acme") ]
           (lit "Bolt") (lit "no")).
  - reflexivity.
  - reflexivity.
  - reflexivity.
  - split; [vm_compute; reflexivity | exact I].
  - vm_compute. reflexivity.
  - vm_compute. reflexivity.
Defined.

(** X20. The flag [templateLoaded] follows the request, not the
    template.  A good response whose text could be read sets the flag
    and replaces the template, without a toast, even when the text is
    empty, and then every fill throws [Template not loaded]; any other
    outcome of the request leaves flag and template as they were and
    shows a toast of error. *)
Theorem loadTemplate_flag (a : Controller.app)
    (response : Generator.fetched) :
  let a' := (Controller.loadTemplate a response).1 in
  (forall status html,
     response = Generator.Response true status (Normal html) ->
     Controller.templateLoaded a' = true
     /\ Controller.template a' = Some html
     /\ (Controller.loadTemplate a response).2 = None
     /\ (html = [] ->
         forall row, Generator.fillTemplate (Controller.template a') row
                     = Throw Generator.template_not_loaded))
  /\ ((forall status html,
        response <> Generator.Response true status (Normal html)) ->
      Controller.templateLoaded a' = Controller.templateLoaded a
      /\ Controller.template a' = Controller.template a
      /\ exists message,
           (Controller.loadTemplate a response).2
           = Some (Controller.Toast message Controller.error)).
Proof.
  intros a'. unfold a'. clear a'. split.
  - intros status html ->. unfold Controller.loadTemplate.
    cbn [Generator.loadTemplate negb fst snd Controller.templateLoaded
         Controller.template].
    split; [done|]. split; [done|]. split; [done|].
    intros -> row. reflexivity.
  - intros Hbad. unfold Controller.loadTemplate.
    destruct response as [m | [|] status [html | m]];
      cbn [Generator.loadTemplate negb fst snd Controller.templateLoaded
           Controller.template];
      try (split; [done|]; split; [done|]; by eexists).
    by destruct (Hbad status html).
Qed.

(** ** Escaping and fallback names *)

Section Escaping.

Lemma escape_unit_inj (a b : N) (r r' : jsstring) :
  DOM.escape_unit a ++ r = DOM.escape_unit b ++ r' -> a = b /\ r = r'.
Proof.
  unfold DOM.escape_unit, DOM.AMP, DOM.NBSP, DOM.LT, DOM.GT.
  destruct (N.eqb_spec a 38) as [-> | ?];
    [|destruct (N.eqb_spec a 160) as [-> | ?];
      [|destruct (N.eqb_spec a 60) as [-> | ?];
        [|destruct (N.eqb_spec a 62) as [-> | ?]]]];
  (destruct (N.eqb_spec b 38) as [-> | ?];
    [|destruct (N.eqb_spec b 160) as [-> | ?];
      [|destruct (N.eqb_spec b 60) as [-> | ?];
        [|destruct (N.eqb_spec b 62) as [-> | ?]]]]);
  cbn; intros E; simplify_eq; done.
Qed.

Lemma text_innerHTML_inj (a : jsstring) : forall b,
  DOM.text_innerHTML a = DOM.text_innerHTML b -> a = b.
Proof.
  unfold DOM.text_innerHTML.
  induction a as [|c a IH]; intros [|d b] E; cbn in E.
  - done.
  - exfalso. unfold DOM.escape_unit in E. by repeat case_match.
  - exfalso. unfold DOM.escape_unit in E. by repeat case_match.
  - apply escape_unit_inj in E as [-> E]. by rewrite (IH _ E).
Qed.

Lemma text_innerHTML_length (text : jsstring) :
  (length text <= length (DOM.text_innerHTML text))%nat.
Proof.
  unfold DOM.text_innerHTML. induction text as [|c text IH]; [done|].
  cbn [List.flat_map length]. rewrite length_app.
  assert (1 <= length (DOM.escape_unit c))%nat
    by (unfold DOM.escape_unit; repeat case_match; cbn; lia).
  lia.
Qed.

Lemma text_innerHTML_plain (text : jsstring) :
  DOM.text_innerHTML text = text
  <-> Forall (fun c => DOM.escape_unit c = [c]) text.
Proof.
  unfold DOM.text_innerHTML. induction text as [|c text IH]; cbn.
  - split; [constructor | done].
  - split.
    + intros E.
      assert (Hc : DOM.escape_unit c = [c]).
      { pose proof (text_innerHTML_length text) as Hlen.
        unfold DOM.text_innerHTML in Hlen.
        apply (f_equal length) in E. rewrite length_app in E.
        cbn [length] in E.
        assert (Hone : (length (DOM.escape_unit c) <= 1)%nat) by lia.
        clear -Hone. unfold DOM.escape_unit in *.
        repeat case_match; try done. all: vm_compute in Hone; lia. }
      rewrite Hc in E. cbn in E. injection E as E.
      constructor; [done | by apply IH].
    + intros H. apply Forall_cons in H as [Hc H]. rewrite Hc. cbn.
      f_equal. by apply IH.
Qed.

End Escaping.

(** X21. Escaping loses nothing: [escapeHtml] gives different markup
    for different texts, in both generators; and it returns a text
    unchanged exactly when the text holds no ampersand, no angle
    bracket and no no-break space. *)
Theorem escapeHtml_injective (a b : jsstring) :
  (Generator.escapeHtml a = Generator.escapeHtml b -> a = b)
  /\ (GeneratorDocx.escapeHtml a = GeneratorDocx.escapeHtml b -> a = b)
  /\ (Generator.escapeHtml a = a
      <-> Forall (fun c => c <> DOM.AMP /\ c <> DOM.LT /\ c <> DOM.GT
                           /\ c <> DOM.NBSP) a).
Proof.
  assert (Hinj : forall x y : jsstring,
            Generator.escapeHtml x = Generator.escapeHtml y -> x = y).
  { intros x y. unfold Generator.escapeHtml.
    destruct x as [|c x], y as [|d y]; cbn [falsy]; intros E; try done.
    - exfalso. symmetry in E. by apply text_innerHTML_nonempty in E.
    - exfalso. by apply text_innerHTML_nonempty in E.
    - by apply text_innerHTML_inj. }
  split; [apply Hinj|]. split; [apply Hinj|].
  assert (Generator.escapeHtml a = DOM.text_innerHTML a) as ->
    by (by destruct a).
  rewrite text_innerHTML_plain. apply Forall_iff. intros c.
  unfold DOM.escape_unit.
  destruct (N.eqb_spec c DOM.AMP), (N.eqb_spec c DOM.NBSP),
    (N.eqb_spec c DOM.LT), (N.eqb_spec c DOM.GT); subst;
    split; intros H; try done; try (by destruct H as (? & ? & ? & ?)).
Qed.

Section Fallback.

Lemma digit_kept (c : N) :
  is_digit c = true -> Generator.kept c = true /\ is_space c = false.
Proof.
  unfold is_digit, Generator.kept, Generator.is_alnum, is_space,
    Generator.HYPHEN, Generator.UNDERSCORE.
  intros H. apply andb_true_iff in H as [H1 H2].
  apply N.leb_le in H1, H2.
  repeat match goal with
         | |- context [N.leb ?x ?y] => destruct (N.leb_spec x y); try lia
         | |- context [N.eqb ?x ?y] => destruct (N.eqb_spec x y); try lia
         end.
  all: by cbn.
Qed.

Lemma delete_unkept_same (s : jsstring) :
  Forall (fun c => Generator.kept c = true) s ->
  Generator.delete_unkept s = s.
Proof.
  unfold Generator.delete_unkept. induction 1 as [|c s Hc _ IH]; cbn; [done|].
  by rewrite Hc, IH.
Qed.

Lemma underscore_spaces_same (s : jsstring) :
  Forall (fun c => is_space c = false) s ->
  Generator.underscore_spaces false s = s.
Proof.
  induction 1 as [|c s Hc _ IH]; cbn; [done|]. by rewrite Hc, IH.
Qed.

Lemma sanitized_same (s : jsstring) :
  Forall (fun c => Generator.kept c = true /\ is_space c = false) s ->
  (length s <= 50)%nat ->
  Generator.sanitized s = s.
Proof.
  intros Hs Hlen. unfold Generator.sanitized, substring0.
  rewrite delete_unkept_same, underscore_spaces_same.
  - by apply take_ge.
  - eapply Forall_impl; [exact Hs|]. by intros c [_ ?].
  - eapply Forall_impl; [exact Hs|]. by intros c [? _].
Qed.

Lemma lit_length (s : string) : length (lit s) = String.length s.
Proof.
  unfold lit. rewrite length_map.
  induction s as [|a s IH]; cbn; [done|]. by rewrite IH.
Qed.

Lemma string_of_uint_length (d : Decimal.uint) :
  String.length (NilEmpty.string_of_uint d) = Decimal.nb_digits d.
Proof. induction d as [|d IH|d IH|d IH|d IH|d IH|d IH|d IH|d IH|d IH|d IH];
  cbn; by rewrite ?IH. Qed.

(** Doubling a numeral adds one digit at most. *)
Lemma double_digits (d : Decimal.uint) :
  (Decimal.nb_digits (Decimal.Little.double d) <= S (Decimal.nb_digits d))%nat
  /\ (Decimal.nb_digits (Decimal.Little.succ_double d)
      <= S (Decimal.nb_digits d))%nat.
Proof.
  induction d as [|d [IH1 IH2]|d [IH1 IH2]|d [IH1 IH2]|d [IH1 IH2]
                  |d [IH1 IH2]|d [IH1 IH2]|d [IH1 IH2]|d [IH1 IH2]
                  |d [IH1 IH2]|d [IH1 IH2]];
    cbn; split; lia.
Qed.

(** A number below [2 ^ k] has [k] decimal digits at most. *)
Lemma little_uint_digits (p : positive) : forall k : nat,
  N.pos p < 2 ^ N.of_nat k ->
  (Decimal.nb_digits (Pos.to_little_uint p) <= k)%nat.
Proof.
  induction p as [p IH | p IH |]; intros [|k] Hp;
    try (cbn in Hp; lia); cbn [Pos.to_little_uint].
  - rewrite Nat2N.inj_succ, N.pow_succ_r' in Hp.
    specialize (IH k ltac:(lia)).
    pose proof (double_digits (Pos.to_little_uint p)) as [_ H]. lia.
  - rewrite Nat2N.inj_succ, N.pow_succ_r' in Hp.
    specialize (IH k ltac:(lia)).
    pose proof (double_digits (Pos.to_little_uint p)) as [H _]. lia.
  - cbn. lia.
Qed.

Lemma decimal_length (n : N) (k : nat) :
  (0 < k)%nat -> n < 2 ^ N.of_nat k -> (length (decimal n) <= k)%nat.
Proof.
  intros Hk Hn. unfold decimal. rewrite lit_length.
  destruct n as [|p]; [cbn; lia|].
  cbn [N.to_uint]. unfold Pos.to_uint.
  pose proof (little_uint_digits p k Hn) as Hd.
  rewrite <- nb_digits_rev in Hd.
  destruct (Decimal.rev (Pos.to_little_uint p)) eqn:E;
    cbn [NilZero.string_of_uint]; [cbn; lia|..];
    rewrite string_of_uint_length; exact Hd.
Qed.

(** The numeral of an array index plus one. *)
Lemma index_numeral_short (i : N) :
  i < 2 ^ 32 -> (length (decimal (i + 1)) <= 41)%nat.
Proof.
  intros Hi. pose proof (decimal_length (i + 1) 33 ltac:(lia)) as H.
  assert (i + 1 < 2 ^ N.of_nat 33).
  { change (2 ^ N.of_nat 33) with 8589934592. change (2 ^ 32) with 4294967296 in Hi. lia. }
  specialize (H ltac:(done)). lia.
Qed.

Lemma fallback_name (row : rowObj) (i : N) :
  row !! lit "Client" = None \/ row !! lit "Client" = Some [] ->
  (length (decimal (i + 1)) <= 41)%nat ->
  Generator.generateFilename row i
  = lit "Document_" ++ decimal (i + 1) ++ Generator.suffix.
Proof.
  intros Habsent Hlen. unfold Generator.generateFilename, get_or.
  assert (E : match row !! lit "Client" with
              | Some value =>
                  if falsy value then lit "Document_" ++ decimal (i + 1)
                  else value
              | None => lit "Document_" ++ decimal (i + 1)
              end = lit "Document_" ++ decimal (i + 1)).
  { by destruct Habsent as [-> | ->]. }
  rewrite E, sanitized_same, <- app_assoc; [done| |].
  - apply Forall_app. split.
    + assert (Hb : forallb (fun c => Generator.kept c && negb (is_space c))
                     (lit "Document_") = true) by (vm_compute; reflexivity).
      rewrite forallb_forall in Hb. apply Forall_forall. intros c Hc.
      apply list_elem_of_In, Hb, andb_true_iff in Hc as [Hk Hs].
      by apply negb_true_iff in Hs.
    + eapply Forall_impl; [apply decimal_digits|]. apply digit_kept.
  - rewrite length_app. change (length (lit "Document_")) with 9%nat. lia.
Qed.

End Fallback.

(** C10. A Client that is the empty string is treated as no Client, in
    both generators: the file name is the one of the record without the
    key, and at an array index (below [2 ^ 32], where [index + 1] is
    exact and written with all its digits) it is [Document_], the
    index plus one, and the suffix. *)
Theorem generateFilename_empty_client (rowData : rowObj) (index : N) :
  rowData !! lit "Client" = Some [] ->
  Generator.generateFilename rowData index
  = Generator.generateFilename (delete (lit "Client") rowData) index
  /\ GeneratorDocx.generateFilename rowData index
     = GeneratorDocx.generateFilename (delete (lit "Client") rowData) index
  /\ (index < 2 ^ 32 ->
      Generator.generateFilename rowData index
      = lit "Document_" ++ decimal (index + 1) ++ lit "_Specification.docx"
      /\ GeneratorDocx.generateFilename rowData index
         = lit "Document_" ++ decimal (index + 1)
           ++ lit "_Specification.docx").
Proof.
  intros E. split; [|split].
  - unfold Generator.generateFilename, get_or.
    rewrite E, lookup_delete_eq. by cbn.
  - unfold GeneratorDocx.generateFilename, get_or.
    rewrite E, lookup_delete_eq. by cbn.
  - intros Hindex.
    assert (Hname : Generator.generateFilename rowData index
                    = lit "Document_" ++ decimal (index + 1)
                      ++ lit "_Specification.docx").
    { apply fallback_name; [by right | by apply index_numeral_short]. }
    split; [exact Hname|]. rewrite <- Hname. reflexivity.
Qed.

(** C10, at the record whose only key is an empty Client, index 2. *)
Lemma generateFilename_empty_client_witness :
  Generator.generateFilename {[ lit "Client" := [] ]} 2
  = Generator.generateFilename (delete (lit "Client") {[ lit "Client" := [] ]}) 2
  /\ Generator.generateFilename {[ lit "Client" := [] ]} 2
     = lit "Document_3_Specification.docx"
  /\ GeneratorDocx.generateFilename {[ lit "Client" := [] ]} 2
     = lit "Document_3_Specification.docx".
Proof.
  pose proof (generateFilename_empty_client {[ lit "Client" := [] ]} 2
                (lookup_singleton_eq _ _)) as (H1 & _ & H3).
  destruct H3 as [H3 H4]; [reflexivity|].
  split; [exact H1|]. split; [exact H3 | exact H4].
Defined.

(** X22. Rows without a client never share a name: for two records
    whose Client is missing or empty, at array indices (below
    [2 ^ 32], where [index + 1] is exact and written with all its
    digits), [generateFilename] gives [Document_], the index plus one
    and the suffix, untouched by the sanitizing, so the names are equal
    only when the indices are. *)
Theorem fallback_names_distinct (row row' : rowObj) (i j : N) :
  row !! lit "Client" = None \/ row !! lit "Client" = Some [] ->
  row' !! lit "Client" = None \/ row' !! lit "Client" = Some [] ->
  i < 2 ^ 32 ->
  j < 2 ^ 32 ->
  Generator.generateFilename row i
  = lit "Document_" ++ decimal (i + 1) ++ lit "_Specification.docx"
  /\ (Generator.generateFilename row i = Generator.generateFilename row' j ->
      i = j).
Proof.
  intros Hrow Hrow' Hi Hj.
  rewrite (fallback_name row i Hrow (index_numeral_short i Hi)),
    (fallback_name row' j Hrow' (index_numeral_short j Hj)).
  split; [done|]. intros E.
  apply app_inv_head, app_inv_tail, decimal_inj in E. lia.
Qed.

(** X22, at two empty records and the indices 0 and 1. *)
Lemma fallback_names_distinct_witness :
  Generator.generateFilename ∅ 0 = lit "Document_1_Specification.docx"
  /\ Generator.generateFilename ∅ 0 <> Generator.generateFilename ∅ 1.
Proof.
  destruct (fallback_names_distinct ∅ ∅ 0 1) as [E Hinj];
    try (by left); try reflexivity.
  split; [exact E|]. intros H. by apply Hinj in H.
Defined.

(** ** The docxtemplater variant: the data of a document *)

Section Bindings.

Variable row : rowObj.

Let step (data : rowObj) (entry : jsstring * jsstring) : rowObj :=
  assign data entry.2 (get_or row entry.1 []).

Lemma fold_assign_other (entries : list (jsstring * jsstring)) :
  forall (data : rowObj) (tag : jsstring),
  tag ∉ entries.*2 ->
  fold_left step entries data !! tag = data !! tag.
Proof.
  induction entries as [|[c t] entries IH]; intros data tag Hno; [done|].
  cbn [fold_left]. cbn in Hno. apply not_elem_of_cons in Hno as [Hne Hno].
  rewrite IH by done. unfold step, assign, str_eqb. cbn [fst snd].
  case_bool_decide; [done|]. by rewrite lookup_insert_ne.
Qed.

Lemma fold_assign_lookup (entries : list (jsstring * jsstring)) :
  forall (data : rowObj) (col tag : jsstring),
  NoDup entries.*2 ->
  (col, tag) ∈ entries ->
  tag <> lit "__proto__" ->
  fold_left step entries data !! tag = Some (get_or row col []).
Proof.
  induction entries as [|[c t] entries IH]; intros data col tag Hnd Hin Hne.
  { by apply elem_of_nil in Hin. }
  cbn in Hnd. apply NoDup_cons in Hnd as [Hfresh Hnd].
  cbn [fold_left]. apply elem_of_cons in Hin as [[= -> ->] | Hin].
  - rewrite fold_assign_other by done. unfold step. cbn [fst snd].
    by rewrite assign_lookup, lookup_insert_eq.
  - by apply IH.
Qed.

Lemma fold_assign_dom (entries : list (jsstring * jsstring)) :
  forall data : rowObj,
  dom (fold_left step entries data)
  = (list_to_set entries.*2 ∖ {[lit "__proto__"]}) ∪ dom data.
Proof.
  induction entries as [|[c t] entries IH]; intros data; apply set_eq; intros x.
  - cbn. rewrite elem_of_union, elem_of_difference, elem_of_empty. tauto.
  - cbn [fold_left]. rewrite IH. unfold step. cbn [fst snd].
    rewrite assign_dom. cbn.
    rewrite !elem_of_union, !elem_of_difference, elem_of_union,
      !elem_of_singleton.
    case_decide as Ht.
    + subst t. rewrite elem_of_empty. tauto.
    + rewrite elem_of_singleton. split; [|tauto].
      intros [? | [-> | ?]]; tauto.
Qed.

End Bindings.

(** X23. The data that [generateSingle] hands to docxtemplater binds
    every tag of [mappings] and nothing else: the tag of a column is
    bound to the record's value for that column as it stands, not
    escaped, and to the empty string when the record has no value
    there. *)
Theorem binding_data_binds_every_tag (row : rowObj) :
  (forall col tag, (col, tag) ∈ GeneratorDocx.mappings ->
     GeneratorDocx.binding_data row !! tag = Some (get_or row col []))
  /\ dom (GeneratorDocx.binding_data row)
     = list_to_set GeneratorDocx.mappings.*2.
Proof.
  assert (Hproto : Forall (fun tag => tag <> lit "__proto__")
                     GeneratorDocx.mappings.*2).
  { apply (bool_decide_unpack _). by vm_compute. }
  split.
  - intros col tag Hin. unfold GeneratorDocx.binding_data.
    apply fold_assign_lookup; [|done|].
    + apply (bool_decide_unpack _). by vm_compute.
    + rewrite Forall_forall in Hproto. apply Hproto.
      apply list_elem_of_fmap. by exists (col, tag).
  - unfold GeneratorDocx.binding_data. rewrite fold_assign_dom.
    rewrite dom_empty_L, union_empty_r_L. apply set_eq. intros x.
    rewrite elem_of_difference, elem_of_singleton, elem_of_list_to_set.
    split; [tauto|]. intros Hx. split; [done|].
    rewrite Forall_forall in Hproto. by apply Hproto.
Qed.

Section DocxAll.

Variables Blob Bytes Archive Doc : Type.
Variable new_PizZip : Bytes -> completion Archive.
Variable new_docxtemplater : Archive -> completion Doc.
Variable render : Doc -> rowObj -> completion Doc.
Variable generate : Doc -> completion Blob.
Variable docxTemplate : option Bytes.

Lemma generateSingle_Normal (row : rowObj) (index : N)
    (doc : Zip.document Blob) :
  GeneratorDocx.generateSingle Blob Bytes Archive Doc new_PizZip
    new_docxtemplater render generate docxTemplate row index = Normal doc ->
  Zip.filename doc = GeneratorDocx.generateFilename row index
  /\ exists bytes zip made rendered,
       docxTemplate = Some bytes
       /\ new_PizZip bytes = Normal zip
       /\ new_docxtemplater zip = Normal made
       /\ render made (GeneratorDocx.binding_data row) = Normal rendered
       /\ generate rendered = Normal (Zip.blob doc).
Proof.
  unfold GeneratorDocx.generateSingle. intros H.
  destruct docxTemplate as [bytes|]; [|done].
  destruct (new_PizZip bytes) as [zip|] eqn:Ezip; [|done].
  destruct (new_docxtemplater zip) as [made|] eqn:Emade; [|done].
  destruct (render made _) as [rendered|] eqn:Erendered; [|done].
  destruct (generate rendered) as [blob|] eqn:Eblob; [|done].
  injection H as <-. split; [done|]. by exists bytes, zip, made, rendered.
Qed.

End DocxAll.

(** X24. When [generateAll] of the docxtemplater variant returns, it
    returns one document per row, in the order of the rows: the
    document at position [k] has the name that [generateFilename] gives
    to row [k] at index [k], and its blob was generated from the
    template rendered with the data of row [k]; this needs the
    template bytes, unless there is no row at all. *)
Theorem docx_generateAll_documents (Blob Bytes Archive Doc : Type)
    (new_PizZip : Bytes -> completion Archive)
    (new_docxtemplater : Archive -> completion Doc)
    (render : Doc -> rowObj -> completion Doc)
    (generate : Doc -> completion Blob)
    (docxTemplate : option Bytes) (rows : list rowObj)
    (progress : list (N * N)) (docs : list (Zip.document Blob)) :
  GeneratorDocx.generateAll Blob Bytes Archive Doc new_PizZip
    new_docxtemplater render generate docxTemplate rows
  = (progress, Normal docs) ->
  length docs = length rows
  /\ progress = reports (N.of_nat (length rows)) 0 (length rows)
  /\ forall k row, rows !! k = Some row ->
       exists doc bytes zip made rendered,
         docs !! k = Some doc
         /\ Zip.filename doc = GeneratorDocx.generateFilename row (N.of_nat k)
         /\ docxTemplate = Some bytes
         /\ new_PizZip bytes = Normal zip
         /\ new_docxtemplater zip = Normal made
         /\ render made (GeneratorDocx.binding_data row) = Normal rendered
         /\ generate rendered = Normal (Zip.blob doc).
Proof.
  unfold GeneratorDocx.generateAll, Batch.generateAll. intros Hall.
  destruct (converts_or_throws Blob
              (GeneratorDocx.generateSingle Blob Bytes Archive Doc new_PizZip
                 new_docxtemplater render generate docxTemplate) rows 0)
    as [(docs' & Hconv) | (b & r & a & d & m & -> & Hconv & Hr)].
  2: { by rewrite (loop_throws _ _ _ _ _ _ _ _ _ _ _ Hconv Hr) in Hall. }
  rewrite (loop_converts _ _ _ _ _ _ _ _ Hconv) in Hall.
  injection Hall as <- <-.
  split; [by eapply converts_length|]. split; [done|].
  intros k row Hk.
  destruct (converts_lookup _ _ _ _ _ _ _ Hconv Hk) as (doc & Hdoc & Hs).
  rewrite N.add_0_l in Hs.
  apply generateSingle_Normal in Hs
    as (Hname & bytes & zip & made & rendered & ? & ? & ? & ? & ?).
  by exists doc, bytes, zip, made, rendered.
Qed.

(** X24, at two rows, with stand-ins for the library: the archive and
    the document are the template bytes, rendering keeps them, and the
    blob is the bytes again. *)
Lemma docx_generateAll_documents_witness :
  let rows : list rowObj :=
    [ {[ lit "Client" := lit "Acme" ]}; {[ lit "Client" := lit "Bolt" ]} ] in
  exists progress docs,
    GeneratorDocx.generateAll jsstring jsstring jsstring jsstring
      Normal Normal (fun made _ => Normal made) Normal (Some (lit "PK")) rows
    = (progress, Normal docs)
    /\ length docs = length rows.
Proof.
  intros rows.
  eexists _, _. split; [vm_compute; reflexivity|].
  eapply (docx_generateAll_documents jsstring jsstring jsstring jsstring
            Normal Normal (fun made _ => Normal made) Normal
            (Some (lit "PK")) rows).
  vm_compute. reflexivity.
Defined.

Lemma generateAll_without_template_rows (Blob : Type)
    (generateDocx : jsstring -> completion Blob)
    (template : option jsstring) (rows : list rowObj) :
  ~ loaded template ->
  (Generator.generateAll Blob generateDocx template rows).2
  = match rows with
    | [] => Normal []
    | _ :: _ => Throw Generator.template_not_loaded
    end.
Proof.
  intros Hno. destruct rows as [|row rows]; [done|].
  unfold Generator.generateAll, Batch.generateAll. cbn [Batch.loop].
  unfold Generator.single. by rewrite fillTemplate_not_loaded.
Qed.

(** ** The controller without a template, and after a reset *)



(** X26. After [reset] nothing is left to act on: the parsed data is
    gone, the preview has no rows and reads position 1 of 0, the arrow
    keys and both navigation handlers change nothing, and
    [generateDocuments] refuses with its message about missing data;
    the template and its flag are kept, so a next upload needs no
    reload. *)
Theorem reset_disarms (a : Controller.app) :
  let a' := Controller.reset a in
  Controller.parsedData a' = None
  /\ Preview.getState (Controller.preview a')
     = {| Preview.current := 1; Preview.total := 0;
          Preview.hasPrev := false; Preview.hasNext := false |}
  /\ (forall k, Controller.keydown a' k = (a', Normal tt))
  /\ Controller.navigateNext a' = (a', Normal tt)
  /\ Controller.navigatePrev a' = (a', Normal tt)
  /\ (forall (Blob : Type) (generateDocx : jsstring -> completion Blob)
             (fuel : nat),
        Controller.generateDocuments Blob generateDocx fuel a'
        = Some (None,
                Controller.Toast Controller.nothing_to_generate
                  Controller.error))
  /\ Controller.template a' = Controller.template a
  /\ Controller.templateLoaded a' = Controller.templateLoaded a.
Proof.
  intros a'. unfold a'. clear a'. repeat split.
Qed.

(** ** [extractBodyContent] *)

Section Body.

Lemma strip_prefix_ci_app (pattern s rest : jsstring) :
  ci_equal pattern s ->
  Generator.strip_prefix_ci pattern (s ++ rest) = Some rest.
Proof.
  induction 1 as [|p c pattern s Hpc _ IH]; [by destruct rest|].
  cbn. by rewrite Hpc.
Qed.

Lemma before_last_none (pattern : jsstring) (s : jsstring) :
  starts_nowhere pattern s ->
  Generator.before_last_ci pattern s = None.
Proof.
  induction s as [|c s IH]; intros Hno; [done|].
  cbn [Generator.before_last_ci]. rewrite IH.
  - pose proof (Hno 0%nat [] ltac:(cbn; lia)) as H0.
    cbn [drop] in H0. rewrite app_nil_r in H0. by rewrite H0.
  - intros i rest Hi. apply (Hno (S i) rest). cbn. lia.
Qed.

Lemma before_last_app (pattern content rest captured : jsstring) :
  Generator.before_last_ci pattern rest = Some captured ->
  Generator.before_last_ci pattern (content ++ rest)
  = Some (content ++ captured).
Proof.
  intros Hrest. induction content as [|c content IH]; [done|].
  cbn [app Generator.before_last_ci]. by rewrite IH.
Qed.

Lemma starts_nowhere_app (pattern a b : jsstring) :
  starts_nowhere pattern a -> starts_nowhere pattern b ->
  starts_nowhere pattern (a ++ b).
Proof.
  intros Ha Hb i rest Hi. destruct (Nat.lt_ge_cases i (length a)) as [Hlt | Hge].
  - rewrite drop_app_le by lia. rewrite <- app_assoc. by apply Ha.
  - rewrite drop_app_ge by lia. apply Hb. rewrite length_app in Hi. lia.
Qed.

Lemma starts_nowhere_first (p : N) (pattern piece : jsstring) :
  Forall (fun c => Generator.same_letter p c = false) piece ->
  starts_nowhere (p :: pattern) piece.
Proof.
  intros Hpiece i rest Hi.
  destruct (drop i piece) as [|c tail] eqn:E.
  { apply (f_equal length) in E. rewrite length_drop in E. cbn in E. lia. }
  assert (Hc : c ∈ piece).
  { apply list_elem_of_lookup. exists i. rewrite <- (Nat.add_0_r i).
    rewrite <- lookup_drop, E. done. }
  rewrite Forall_forall in Hpiece. cbn. by rewrite (Hpiece c Hc).
Qed.

Lemma ci_equal_other (p : N) (pattern s : jsstring) :
  Forall (fun q => Generator.upper q <> Generator.upper p) pattern ->
  ci_equal pattern s ->
  Forall (fun c => Generator.same_letter p c = false) s.
Proof.
  intros Hp Heq. induction Heq as [|q c pattern s Hqc _ IH]; [constructor|].
  apply Forall_cons in Hp as [Hq Hp]. constructor; [|by apply IH].
  unfold Generator.same_letter in *. apply N.eqb_eq in Hqc.
  apply N.eqb_neq. by rewrite Hqc.
Qed.

Lemma body_match_skip (pre rest : jsstring) :
  starts_nowhere (lit "<body") pre ->
  Generator.body_match (pre ++ rest) = Generator.body_match rest.
Proof.
  induction pre as [|c pre IH]; intros Hno; [done|].
  cbn [app]. unfold Generator.body_match at 1. fold Generator.body_match.
  unfold Generator.body_at at 1.
  pose proof (Hno 0%nat rest ltac:(cbn; lia)) as H0. cbn [drop app] in H0.
  rewrite H0. apply IH.
  intros i rest' Hi. apply (Hno (S i) rest'). cbn. lia.
Qed.

Lemma drop_while_until (stop : N) (attrs rest : jsstring) :
  stop ∉ attrs ->
  drop_while (fun c => negb (c =? stop)) (attrs ++ stop :: rest)
  = stop :: rest.
Proof.
  induction attrs as [|c attrs IH]; intros Hno.
  - cbn. by rewrite N.eqb_refl.
  - apply not_elem_of_cons in Hno as [Hne Hno]. cbn.
    destruct (N.eqb_spec c stop) as [-> | _]; [done|]. cbn. by apply IH.
Qed.

Lemma body_match_none (html : jsstring) :
  starts_nowhere (lit "<body") html ->
  Generator.body_match html = None.
Proof.
  intros Hno. rewrite <- (app_nil_r html), body_match_skip by done.
  reflexivity.
Qed.

Lemma closing_tag_last (close post : jsstring) :
  ci_equal (lit "</body>") close ->
  starts_nowhere (lit "</body>") post ->
  Generator.before_last_ci (lit "</body>") (close ++ post) = Some [].
Proof.
  intros Hclose Hpost.
  pose proof (strip_prefix_ci_app _ _ post Hclose) as Hhere.
  change (lit "</body>") with (DOM.LT :: lit "/body>") in Hclose |- *.
  apply Forall2_cons_inv_l in Hclose as (c & cs & Hc & Hcs & ->).
  cbn [app Generator.before_last_ci].
  rewrite before_last_none.
  - change (c :: cs ++ post) with ((c :: cs) ++ post).
    change (DOM.LT :: lit "/body>") with (lit "</body>").
    by rewrite Hhere.
  - apply starts_nowhere_app; [|done].
    apply starts_nowhere_first. eapply ci_equal_other; [|exact Hcs].
    apply (bool_decide_unpack _). by vm_compute.
Qed.

End Body.

(** X27. [extractBodyContent] returns what stands between the first
    opening body tag and the last closing one: in a text made of a
    part where no [<body] starts, the tag [<body] in any case, its
    attributes up to the first [>], a content, the tag [</body>] in any
    case, and a rest where no [</body>] starts, the result is the
    content, which may itself hold closing tags; and a text where no
    [<body] starts is returned as it is. *)
Theorem extractBodyContent_between_tags
    (pre open attrs content close post : jsstring) :
  starts_nowhere (lit "<body") pre ->
  ci_equal (lit "<body") open ->
  DOM.GT ∉ attrs ->
  ci_equal (lit "</body>") close ->
  starts_nowhere (lit "</body>") post ->
  Generator.extractBodyContent
    (pre ++ open ++ attrs ++ DOM.GT :: content ++ close ++ post)
  = content
  /\ Generator.extractBodyContent pre = pre.
Proof.
  intros Hpre Hopen Hattrs Hclose Hpost. split.
  - unfold Generator.extractBodyContent. rewrite body_match_skip by done.
    assert (Hat : Generator.body_at
                    (open ++ attrs ++ DOM.GT :: content ++ close ++ post)
                  = Some content).
    { unfold Generator.body_at. rewrite strip_prefix_ci_app by done.
      rewrite drop_while_until by done.
      rewrite (before_last_app _ content (close ++ post) []).
      - by rewrite app_nil_r.
      - by apply closing_tag_last. }
    destruct (open ++ attrs ++ DOM.GT :: content ++ close ++ post) eqn:E;
      cbn [Generator.body_match]; by rewrite Hat.
  - unfold Generator.extractBodyContent. by rewrite body_match_none.
Qed.

(** X27, at a page with an upper-case body tag that has an attribute,
    and a content that holds a closing tag of its own. *)
Lemma extractBodyContent_between_tags_witness :
  Generator.extractBodyContent
    (lit "<html><head></head><BODY class=x><p>a</body>b</p></Body></html>")
  = lit "<p>a</body>b</p>".
Proof.
  apply (extractBodyContent_between_tags
           (lit "<html><head></head>") (lit "<BODY") (lit " class=x")
           (lit "<p>a</body>b</p>") (lit "</Body>") (lit "</html>")).
  - intros i rest Hi.
    do 19 (destruct i as [|i]; [reflexivity|]). cbn in Hi. lia.
  - repeat constructor.
  - apply (bool_decide_unpack _). by vm_compute.
  - repeat constructor.
  - intros i rest Hi.
    do 7 (destruct i as [|i]; [reflexivity|]). cbn in Hi. lia.
Defined.

(** ** The loop of [createZip] in the docxtemplater variant *)

Section DocxLoop.

Variable Blob : Type.

Lemma cut_None_no_occurrence (p s : jsstring) :
  ~ occurs_in p s -> cut p s = None.
Proof.
  intros Hno. destruct (cut p s) as [[before after]|] eqn:E; [|done].
  destruct Hno. exists before, after. by apply cut_Some.
Qed.

Lemma occurs_cut (p s : jsstring) : occurs_in p s -> cut p s <> None.
Proof.
  intros (before & after & ->).
  induction before as [|c before IH].
  - cbn [app]. destruct (p ++ after) eqn:E; cbn [cut]; rewrite <- E;
      by rewrite strip_prefix_app.
  - cbn [app cut]. destruct (strip_prefix p _); [done|].
    by destruct (cut p (before ++ p ++ after)) as [[b a]|].
Qed.

Lemma rewrite_without_suffix (f : jsstring) (k : N) :
  ~ occurs_in (lit ".docx") f -> GeneratorDocx.rewrite f k = f.
Proof.
  intros Hno. unfold GeneratorDocx.rewrite, replace_first.
  by rewrite cut_None_no_occurrence.
Qed.

Lemma free_name_stuck (used : gset (list N)) (f : jsstring) (fuel : nat) :
  f ∈ used -> ~ occurs_in (lit ".docx") f ->
  forall counter,
    Zip.free_name GeneratorDocx.rewrite fuel used f f counter = None.
Proof.
  intros Hin Hno. induction fuel as [|fuel IH]; intros counter; [done|].
  cbn [Zip.free_name]. rewrite bool_decide_eq_true_2 by done.
  rewrite rewrite_without_suffix by done. apply IH.
Qed.

Lemma free_name_covers (rewrite : jsstring -> N -> jsstring)
    (used : gset (list N)) (f name : jsstring) (fuel : nat) (counter : N) :
  Zip.free_name rewrite fuel used f f counter = Some name ->
  f ∈ ({[name]} ∪ used : gset (list N)).
Proof.
  destruct fuel as [|fuel]; [done|]. cbn [Zip.free_name].
  case_bool_decide as Hin.
  - intros _. by apply elem_of_union_r.
  - intros [= <-]. by apply elem_of_union_l, elem_of_singleton.
Qed.

Lemma zip_loop_stuck (f : jsstring) (documents : list (Zip.document Blob)) :
  forall (fuel : nat) (used : gset (list N)) zip,
  f ∈ used -> ~ occurs_in (lit ".docx") f ->
  f ∈ map Zip.filename documents ->
  Zip.zip_loop Blob GeneratorDocx.rewrite fuel documents used zip = None.
Proof.
  induction documents as [|doc documents IH]; intros fuel used zip Hin Hno Hdoc.
  { by apply elem_of_nil in Hdoc. }
  cbn [Zip.zip_loop].
  destruct (Zip.free_name _ fuel used (Zip.filename doc) (Zip.filename doc) 1)
    as [name|] eqn:E; [|done].
  cbn in Hdoc. apply elem_of_cons in Hdoc as [-> | Hdoc].
  - by rewrite free_name_stuck in E.
  - apply IH; [by apply elem_of_union_r|done..].
Qed.

Lemma zip_loop_repeated (before : list (Zip.document Blob))
    (d : Zip.document Blob) (rest : list (Zip.document Blob)) :
  forall (fuel : nat) (used : gset (list N)) zip,
  ~ occurs_in (lit ".docx") (Zip.filename d) ->
  Zip.filename d ∈ map Zip.filename rest ->
  Zip.zip_loop Blob GeneratorDocx.rewrite fuel (before ++ d :: rest) used zip
  = None.
Proof.
  induction before as [|doc before IH]; intros fuel used zip Hno Hrest.
  - cbn [app Zip.zip_loop].
    destruct (Zip.free_name _ fuel used (Zip.filename d) (Zip.filename d) 1)
      as [name|] eqn:E; [|done].
    apply zip_loop_stuck with (f := Zip.filename d); [|done..].
    by eapply free_name_covers.
  - cbn [app Zip.zip_loop].
    destruct (Zip.free_name _ fuel used (Zip.filename doc) (Zip.filename doc) 1)
      as [name|]; [|done].
    by apply IH.
Qed.

End DocxLoop.

(** X28. The loop of [createZip] in the docxtemplater variant ends
    only thanks to the suffix: when two documents have the same name
    and that name holds no [.docx], the replacement finds nothing to
    replace, the candidate never changes, and the loop does not end,
    however many tests it is given. *)
Theorem createZip_docx_never_ends (Blob : Type)
    (before mid after : list (Zip.document Blob))
    (d d' : Zip.document Blob) (fuel : nat) :
  Zip.filename d' = Zip.filename d ->
  ~ occurs_in (lit ".docx") (Zip.filename d) ->
  GeneratorDocx.createZip fuel (before ++ d :: mid ++ d' :: after) = None.
Proof.
  intros Hsame Hno. unfold GeneratorDocx.createZip, Zip.createZip.
  apply zip_loop_repeated; [done|].
  rewrite map_app. apply elem_of_app. right. cbn. rewrite Hsame.
  by apply elem_of_cons; left.
Qed.

(** X28, at two documents called [report]. *)
Lemma createZip_docx_never_ends_witness :
  GeneratorDocx.createZip 1000
    [Zip.Document (lit "report") 1%nat; Zip.Document (lit "report") 2%nat]
  = None.
Proof.
  apply (createZip_docx_never_ends nat [] [] []
           (Zip.Document (lit "report") 1%nat)
           (Zip.Document (lit "report") 2%nat) 1000).
  - reflexivity.
  - intros H. by apply occurs_cut in H.
Defined.

(** ** From the uploaded text to the download *)

Section Pipeline.

Lemma checked_parseCSV (text : jsstring) :
  (1 <= count_nonblank (drop 1 (Parser.parseCSVText text)))%nat ->
  exists result,
    App.checked (Parser.parseCSV text) = Normal result
    /\ length (Parser.rows result)
       = count_nonblank (drop 1 (Parser.parseCSVText text)).
Proof.
  unfold App.checked, Parser.parseCSV.
  set (lines := Parser.parseCSVText text). intros Hcount.
  assert (Hge : (2 <= length lines)%nat).
  { pose proof (count_nonblank_le (drop 1 lines)) as Hle.
    rewrite length_drop in Hle. lia. }
  rewrite grid_to_result_rows by done. cbn [Parser.rows].
  rewrite length_map. fold (count_nonblank (drop 1 lines)).
  destruct (count_nonblank (drop 1 lines)) as [|n] eqn:Hn; [lia|].
  cbn [Nat.eqb]. eexists. split; [reflexivity|].
  cbn [Parser.rows]. by rewrite length_map.
Qed.

Lemma parseFile_csv (toLowerCase : jsstring -> jsstring) (file : Parser.file) :
  Parser.extension_of toLowerCase (Parser.fileName file) = lit "csv" ->
  Parser.parseFile toLowerCase file = Parser.parseCSV (Parser.fileText file)
  /\ Controller.valid_extension
       (Parser.extension_of toLowerCase (Parser.fileName file)) = true.
Proof.
  intros E. unfold Parser.parseFile. rewrite E. done.
Qed.

End Pipeline.

(** X29. From the text to the download, one document per data line
    that is not blank: with a template loaded and flagged, and a codec
    that converts every markup, uploading a file whose extension is
    [csv] and whose text has [n] non-blank lines after the first, [n]
    at least one, and then generating, hands to [saveAs] the single
    document when [n] is one, and otherwise the archive with [n]
    entries under names that are all different. *)
Theorem upload_then_generate (toLowerCase : jsstring -> jsstring)
    (Blob : Type) (generateDocx : jsstring -> completion Blob)
    (a : Controller.app) (file : Parser.file) (fuel : nat) :
  loaded (Controller.template a) ->
  Controller.templateLoaded a = true ->
  (forall html, exists blob, generateDocx html = Normal blob) ->
  Parser.extension_of toLowerCase (Parser.fileName file) = lit "csv" ->
  let n := count_nonblank (drop 1 (Parser.parseCSVText (Parser.fileText file))) in
  (1 <= n <= fuel)%nat ->
  exists download message,
    Controller.generateDocuments Blob generateDocx fuel
      (Controller.processFile toLowerCase a file).1
    = Some (Some download, Controller.Toast message Controller.success)
    /\ match download with
       | Controller.SaveFile _ _ _ => n = 1%nat
       | Controller.SaveArchive _ entries _ =>
           n <> 1%nat /\ length entries = n /\ NoDup entries.*1
       end.
Proof.
  intros Hloaded Hflag Hcodec Hext n Hn.
  destruct (parseFile_csv toLowerCase file Hext) as [Hparse Hvalid].
  destruct (checked_parseCSV (Parser.fileText file)) as (result & Hchecked & Hlen);
    [fold n; lia|].
  fold n in Hlen. rewrite <- Hparse in Hchecked.
  destruct (processFile_parsed toLowerCase a file result Hloaded Hvalid Hchecked)
    as (a' & -> & _ & Hdata & _ & _ & Htemplate & Hflag').
  cbn [fst]. rewrite <- Htemplate in Hloaded. rewrite <- Hflag' in Hflag.
  destruct (converts_total Blob generateDocx _ (Parser.rows result) 0
              Hloaded Hcodec) as [docs Hdocs].
  pose proof (converts_filenames _ _ _ _ _ _ Hdocs) as Hnames.
  pose proof (converts_length _ _ _ _ _ Hdocs) as Hdlen.
  pose proof (generateAll_converts _ _ _ _ _ Hdocs) as Hall.
  unfold Controller.generateDocuments. rewrite Hdata, Hflag, Hall.
  cbn [negb].
  destruct (createZip_entries Blob fuel docs) as (entries & E & _ & Eb & Hnd).
  { rewrite Hdlen, Hlen. lia. }
  { rewrite Hnames. apply filenames_generated. }
  assert (Helen : length entries = n).
  { rewrite <- Hlen, <- Hdlen, <- (length_map Zip.blob docs), <- Eb.
    by rewrite length_fmap. }
  rewrite <- Hdlen in Hlen.
  destruct docs as [|doc [|doc' docs]].
  - cbn in Hlen. lia.
  - eexists _, _. split; [reflexivity|]. by rewrite <- Hlen.
  - rewrite E. eexists _, _. split; [reflexivity|].
    split; [|done]. rewrite <- Hlen. cbn. lia.
Qed.

(** X29, at a text of a header line, two data lines and a blank line
    between them. *)
Lemma upload_then_generate_witness :
  let a :=
    {| Controller.parsedData := None; Controller.templateLoaded := true;
       Controller.template := Some (lit "[INSERT_CLIENT_NAME]");
       Controller.preview :=
         {| Preview.iframe := Some []; Preview.rows := [];
            Preview.currentIndex := 0 |};
       Controller.fileName := []; Controller.rowCount := [];
       Controller.currentRow := 0; Controller.totalRows := 0;
       Controller.prevRow_disabled := true;
       Controller.nextRow_disabled := true;
       Controller.uploadSection_hidden := false;
       Controller.previewSection_hidden := true |} in
  let file :=
    {| Parser.fileName := lit "rows.csv";
       Parser.fileText :=
         lit "Client" ++ [LF] ++ lit "Acme" ++ [LF; LF] ++ lit "Acme";
       Parser.fileSheet := [] |} in
  exists download message,
    Controller.generateDocuments jsstring Normal 2
      (Controller.processFile (fun s => s) a file).1
    = Some (Some download, Controller.Toast message Controller.success)
    /\ exists entries name,
         download = Controller.SaveArchive jsstring entries name
         /\ length entries = 2%nat.
Proof.
  intros a file.
  destruct (upload_then_generate (fun s => s) jsstring Normal a file 2)
    as (download & message & E & Hd).
  - by eexists.
  - reflexivity.
  - intros html. by exists html.
  - vm_compute. reflexivity.
  - vm_compute. lia.
  - exists download, message. split; [exact E|].
    destruct download as [blob name | entries name].
    + exfalso. vm_compute in Hd. discriminate.
    + exists entries, name. split; [done|].
      destruct Hd as (_ & Hlen & _). rewrite Hlen. vm_compute. reflexivity.
Defined.

(** ** A quote that is never closed *)

Section Unclosed.

Lemma scan_inside (body : jsstring) : forall ls cl cv,
  Forall (fun u => u <> DQUOTE /\ u <> CR) body ->
  Parser.scan (Parser.Scanner ls cl cv true) body
  = Parser.Scanner ls cl (cv ++ body) true.
Proof.
  induction body as [|c body IH]; intros ls cl cv Hbody.
  - by rewrite app_nil_r.
  - apply Forall_cons in Hbody as [[Hq Hcr] Hbody].
    rewrite scan_unit by (try done; by left).
    unfold Parser.add_char. cbn [Parser.lines Parser.currentLine
                                 Parser.currentValue Parser.insideQuotes].
    rewrite IH by done. by rewrite <- app_assoc.
Qed.

End Unclosed.



(** ** The two preview fills on templates with brackets of their own *)

Section Inert.

Lemma inert_app (p a b : jsstring) :
  inert p a -> inert p b -> inert p (a ++ b).
Proof.
  intros Ha Hb i rest Hi.
  destruct (Nat.lt_ge_cases i (length a)) as [Hlt | Hge].
  - rewrite drop_app_le by lia. rewrite <- app_assoc. by apply Ha.
  - rewrite drop_app_ge by lia. apply Hb. rewrite length_app in Hi. lia.
Qed.

Lemma inert_tail (p : jsstring) (c : N) (piece : jsstring) :
  inert p (c :: piece) -> inert p piece.
Proof. intros H i rest Hi. apply (H (S i) rest). cbn. lia. Qed.

Lemma inert_no_occurrence (p s : jsstring) :
  p <> [] -> inert p s -> ~ occurs_in p s.
Proof.
  intros Hne Hin (before & after & ->).
  assert (Hlen : (length before < length (before ++ p ++ after))%nat).
  { rewrite !length_app. destruct p; [done|]. cbn. lia. }
  pose proof (Hin (length before) [] Hlen) as H.
  rewrite drop_app_length, app_nil_r, strip_prefix_app in H. done.
Qed.

(** Escaping keeps a placeholder from beginning: a placeholder holds
    no ampersand, and escaping changes a text only by putting
    entities, which begin with one, in the place of some code
    units. *)
Lemma strip_prefix_escaped (p : jsstring) :
  Forall (fun a => a <> DOM.AMP) p ->
  forall v rest,
  (forall rest', strip_prefix p (v ++ rest') = None) ->
  strip_prefix p (DOM.text_innerHTML v ++ rest) = None.
Proof.
  unfold DOM.text_innerHTML.
  induction 1 as [|a p Ha _ IH]; intros v rest Hv.
  { by specialize (Hv []). }
  destruct v as [|c v].
  { specialize (Hv (a :: p)). cbn [app] in Hv.
    pose proof (strip_prefix_app (a :: p) []) as Hself.
    rewrite app_nil_r in Hself. congruence. }
  cbn [List.flat_map].
  assert (Hplain : DOM.escape_unit c = [c]
                   \/ exists tail, DOM.escape_unit c = DOM.AMP :: tail).
  { unfold DOM.escape_unit. repeat case_match; eauto. }
  destruct Hplain as [-> | (tail & ->)]; cbn [app strip_prefix].
  - destruct (N.eqb_spec a c) as [-> | _]; [|done].
    apply IH. intros rest'. specialize (Hv rest').
    cbn [app strip_prefix] in Hv. by rewrite N.eqb_refl in Hv.
  - by destruct (N.eqb_spec a DOM.AMP).
Qed.

Lemma inert_escaped (body v : jsstring) :
  Forall (fun a => a <> DOM.AMP) (LBRACKET :: body) ->
  inert (LBRACKET :: body) v ->
  inert (LBRACKET :: body) (DOM.text_innerHTML v).
Proof.
  intros Hp. induction v as [|c v IH]; intros Hv i rest Hi.
  { cbn in Hi. lia. }
  pose proof (IH (inert_tail _ _ _ Hv)) as Htail.
  pose proof (strip_prefix_escaped _ Hp (c :: v) rest) as Hhead.
  unfold DOM.text_innerHTML in *. cbn [List.flat_map] in *.
  assert (Hplain : DOM.escape_unit c = [c]
                   \/ exists tail, DOM.escape_unit c = DOM.AMP :: tail
                        /\ Forall (fun u => u <> LBRACKET) tail).
  { unfold DOM.escape_unit. repeat case_match; [right..|by left];
      eexists; (split; [reflexivity|]); by repeat constructor. }
  destruct Hplain as [E | (tail & E & Htl)]; rewrite E in *.
  - destruct i as [|i]; cbn [drop app].
    + apply Hhead. intros rest'. apply (Hv 0%nat rest'). cbn. lia.
    + apply Htail. cbn in Hi. lia.
  - destruct (Nat.lt_ge_cases i (length (DOM.AMP :: tail))) as [Hlt | Hge].
    + rewrite drop_app_le by lia. rewrite <- app_assoc.
      apply (inert_bracket_free body (DOM.AMP :: tail)); [|done].
      by constructor.
    + rewrite drop_app_ge by lia. apply Htail.
      rewrite length_app in Hi. lia.
Qed.

Lemma token_without_ampersand (token : jsstring) :
  token ∈ tokens -> Forall (fun a => a <> DOM.AMP) token.
Proof.
  intros Hin.
  assert (Hall : tokens_without_ampersand = true) by (vm_compute; reflexivity).
  unfold tokens_without_ampersand in Hall. rewrite forallb_forall in Hall.
  apply list_elem_of_In, Hall in Hin. rewrite forallb_forall in Hin.
  apply List.Forall_forall. intros u Hu.
  by apply Hin, negb_true_iff, N.eqb_neq in Hu.
Qed.

Lemma token_escaped (token v : jsstring) :
  token ∈ tokens -> inert token v -> inert token (DOM.text_innerHTML v).
Proof.
  intros Hin Hv. pose proof (token_without_ampersand token Hin) as Hamp.
  destruct (token_shape token Hin) as (body & -> & _).
  by apply inert_escaped.
Qed.

Lemma placeholder_token (entry : jsstring * jsstring) :
  entry ∈ GeneratorDocx.mappings -> placeholder_of entry ∈ tokens.
Proof.
  intros Hin. unfold tokens. apply elem_of_app. left.
  assert (E : map snd Generator.mappings
              = map placeholder_of GeneratorDocx.mappings)
    by (vm_compute; reflexivity).
  rewrite E. apply list_elem_of_fmap. by exists entry.
Qed.

End Inert.

Section FillSafe.

Variable row : rowObj.
Hypothesis row_ok : values_safe row.

Lemma escaped_value_safe (entry : jsstring * jsstring) :
  entry ∈ GeneratorDocx.mappings -> token_free (escaped_value row entry).
Proof.
  intros Hin other Hother. unfold escaped_value, GeneratorDocx.escapeHtml.
  destruct (get_or row entry.1 []) as [|c v] eqn:E; cbn [falsy].
  - intros i rest Hi. cbn in Hi. lia.
  - apply token_escaped; [by apply placeholder_token|].
    rewrite <- E. by apply row_ok.
Qed.

Lemma fill_round_safe (j : nat) (entry : jsstring * jsstring)
    (segs : list segment) :
  GeneratorDocx.mappings !! j = Some entry ->
  Forall segment_safe segs ->
  GeneratorDocx.fill_one row (text_after row j segs) entry
  = text_after row (S j) segs.
Proof.
  intros Hj Hsegs. destruct entry as [col tag] eqn:Eentry.
  unfold GeneratorDocx.fill_one.
  change (join ?v (split ?p ?s)) with (replace_all p v s).
  change (lit "[" ++ tag ++ lit "]") with (placeholder_of (col, tag)).
  change (GeneratorDocx.escapeHtml (get_or row col []))
    with (escaped_value row (col, tag)).
  rewrite <- Eentry in *. clear Eentry col tag.
  pose proof (placeholder_nonempty entry) as Hne.
  assert (Hin : entry ∈ GeneratorDocx.mappings)
    by (by eapply list_elem_of_lookup_2).
  destruct (placeholder_shape entry Hin) as (body & Ebody & Hbody).
  induction Hsegs as [|seg segs Hseg _ IH]; cbn [text_after List.flat_map].
  { by apply replace_all_nil. }
  fold (text_after row j segs). fold (text_after row (S j) segs).
  destruct seg as [t | k]; cbn [segment_safe] in Hseg.
  - rewrite replace_all_inert, IH; [done..|]. by apply Hseg.
  - destruct (lookup_lt_is_Some_2 _ _ Hseg) as [ek Hk]. rewrite Hk.
    destruct (Nat.ltb_spec k j) as [Hlt | Hge].
    + destruct (Nat.ltb_spec k (S j)) as [_ | ?]; [|lia].
      rewrite replace_all_inert, IH; [done..|].
      apply escaped_value_safe; [by eapply list_elem_of_lookup_2 | done].
    + destruct (decide (k = j)) as [-> | Hkj].
      * assert (ek = entry) as -> by congruence.
        destruct (Nat.ltb_spec j (S j)) as [_ | ?]; [|lia].
        by rewrite replace_all_here, IH.
      * destruct (Nat.ltb_spec k (S j)) as [? | _]; [lia|].
        rewrite replace_all_inert, IH; [done..|].
        destruct (placeholder_shape ek) as (body' & Ebody' & Hbody').
        { by eapply list_elem_of_lookup_2. }
        rewrite Ebody, Ebody'. apply inert_other_token; [done|].
        rewrite <- Ebody, <- Ebody'. by eapply placeholder_clash.
Qed.

Lemma fill_rounds_safe (segs : list segment) (j : nat) :
  Forall segment_safe segs ->
  (j <= length GeneratorDocx.mappings)%nat ->
  fold_left (GeneratorDocx.fill_one row) (take j GeneratorDocx.mappings)
    (template_text segs)
  = text_after row j segs.
Proof.
  intros Hsegs. induction j as [|j IH]; intros Hj.
  - cbn. unfold template_text, text_after. done.
  - destruct (lookup_lt_is_Some_2 GeneratorDocx.mappings j) as [entry Hentry];
      [lia|].
    rewrite (take_S_r _ _ _ Hentry), fold_left_app, IH by lia. cbn.
    by apply fill_round_safe.
Qed.

Lemma text_after_all_safe (segs : list segment) :
  Forall segment_safe segs ->
  text_after row (length GeneratorDocx.mappings) segs = filled_text row segs.
Proof.
  intros Hsegs. unfold text_after, filled_text.
  induction Hsegs as [|seg segs Hseg _ IH]; [done|].
  cbn [List.flat_map]. rewrite IH.
  f_equal. destruct seg as [t | k]; [done|]. cbn [segment_safe] in Hseg.
  destruct (GeneratorDocx.mappings !! k); [|done].
  by destruct (Nat.ltb_spec k (length GeneratorDocx.mappings)); [|lia].
Qed.

Lemma fillHtmlTemplate_safe (segs : list segment) :
  Forall segment_safe segs ->
  GeneratorDocx.fillHtmlTemplate (Some (template_text segs)) row
  = filled_text row segs.
Proof.
  intros Hsegs. unfold GeneratorDocx.fillHtmlTemplate.
  rewrite <- text_after_all_safe, <- fill_rounds_safe by done.
  rewrite firstn_all.
  destruct (template_text segs) eqn:E; [|done]. reflexivity.
Qed.

Lemma filled_text_safe (segs : list segment) :
  Forall segment_safe segs -> token_free (filled_text row segs).
Proof.
  intros Hsegs entry Hin. unfold filled_text.
  induction Hsegs as [|seg segs Hseg _ IH]; cbn [List.flat_map].
  { intros i rest Hi. cbn in Hi. lia. }
  apply inert_app; [|exact IH].
  destruct seg as [t | k]; cbn [segment_safe] in Hseg; [by apply Hseg|].
  destruct (GeneratorDocx.mappings !! k) as [ek|] eqn:Hk.
  - apply escaped_value_safe; [by eapply list_elem_of_lookup_2 | done].
  - intros i rest Hi. cbn in Hi. lia.
Qed.

End FillSafe.

Section PageSafe.

Variable row : rowObj.
Hypothesis row_ok : row_safe row.

Lemma field_shown_safe (j k : nat) (tj : jsstring) :
  tokens !! j = Some tj ->
  (k < length Generator.mappings)%nat -> j <> k ->
  inert tj (field_shown row k).
Proof.
  intros Hj Hk Hne. unfold field_shown.
  destruct (lookup_lt_is_Some_2 _ _ Hk) as [entry Hentry]. rewrite Hentry.
  destruct (get_or row entry.1 []) as [|c value] eqn:E.
  - eapply token_inert; [done| |done]. by apply field_token_lookup.
  - assert (Htj : tj ∈ tokens) by (by eapply list_elem_of_lookup_2).
    apply token_escaped; [done|]. rewrite <- E.
    apply row_ok; [by eapply list_elem_of_lookup_2 | done].
Qed.

Lemma page_round_safe (j : nat) (entry : jsstring * jsstring)
    (parts : list part) :
  Generator.mappings !! j = Some entry ->
  Forall part_safe parts ->
  Generator.fill_one row (page_after row j parts) entry
  = page_after row (S j) parts.
Proof.
  intros Hj Hparts. rewrite (fill_one_replace _ _ j) by done.
  pose proof (field_token_lookup _ _ Hj) as Htj.
  assert (Hin : entry.2 ∈ tokens) by (by eapply list_elem_of_lookup_2).
  destruct (token_shape entry.2 Hin) as (body & Ebody & Hbody).
  assert (Hne : entry.2 <> []) by (by rewrite Ebody).
  induction Hparts as [|p parts Hp _ IH]; cbn [page_after List.flat_map].
  { by apply replace_all_nil. }
  fold (page_after row j parts). fold (page_after row (S j) parts).
  destruct p as [t | k |]; cbn [part_safe] in Hp.
  - rewrite replace_all_inert, IH; [done..|]. by apply Hp.
  - destruct (Nat.ltb_spec k j) as [Hlt | Hge].
    + destruct (Nat.ltb_spec k (S j)) as [_ | ?]; [|lia].
      rewrite replace_all_inert, IH; [done..|].
      apply (field_shown_safe j); [done..|lia].
    + destruct (decide (k = j)) as [-> | Hkj].
      * destruct (Nat.ltb_spec j (S j)) as [_ | ?]; [|lia].
        unfold field_token at 1. rewrite Hj.
        by rewrite replace_all_here, IH.
      * destruct (Nat.ltb_spec k (S j)) as [? | _]; [lia|].
        rewrite replace_all_inert, IH; [done..|].
        destruct (lookup_lt_is_Some_2 _ _ Hp) as [ek Hk].
        unfold field_token. rewrite Hk.
        eapply (token_inert j k); [done| |done]. by apply field_token_lookup.
  - rewrite replace_all_inert, IH; [done..|].
    eapply (token_inert j); [done|apply files_token_lookup|].
    apply lookup_lt_Some in Hj. lia.
Qed.

Lemma page_rounds_safe (parts : list part) (j : nat) :
  Forall part_safe parts ->
  (j <= length Generator.mappings)%nat ->
  fold_left (Generator.fill_one row) (take j Generator.mappings) (page parts)
  = page_after row j parts.
Proof.
  intros Hparts. induction j as [|j IH]; intros Hj.
  - cbn. unfold page, page_after. done.
  - destruct (lookup_lt_is_Some_2 Generator.mappings j) as [entry Hentry];
      [lia|].
    rewrite (take_S_r _ _ _ Hentry), fold_left_app, IH by lia. cbn.
    by apply page_round_safe.
Qed.

Lemma page_files_safe (parts : list part) :
  Forall part_safe parts ->
  replace_all Generator.fileMappings_placeholder (files_shown row)
    (page_after row (length Generator.mappings) parts)
  = page_filled row parts.
Proof.
  intros Hparts.
  assert (Hne : Generator.fileMappings_placeholder <> []) by done.
  assert (Hfiles : Generator.fileMappings_placeholder ∈ tokens)
    by (by eapply list_elem_of_lookup_2, files_token_lookup).
  induction Hparts as [|p parts Hp _ IH];
    cbn [page_after page_filled List.flat_map].
  { by apply replace_all_nil. }
  fold (page_after row (length Generator.mappings) parts).
  fold (page_filled row parts).
  destruct p as [t | k |]; cbn [part_safe] in Hp.
  - rewrite replace_all_inert, IH; [done..|]. by apply Hp.
  - destruct (Nat.ltb_spec k (length Generator.mappings)) as [_ | ?]; [|lia].
    rewrite replace_all_inert, IH; [done..|].
    apply (field_shown_safe (length Generator.mappings));
      [apply files_token_lookup|done|lia].
  - by rewrite replace_all_here, IH.
Qed.

Lemma fillTemplate_safe (parts : list part) :
  Forall part_safe parts ->
  page parts <> [] ->
  Generator.fillTemplate (Some (page parts)) row
  = Normal (page_filled row parts).
Proof.
  intros Hparts Hne. unfold Generator.fillTemplate.
  destruct (page parts) as [|c html] eqn:E; [done|]. cbn [falsy].
  rewrite <- E, files_shown_escaped.
  rewrite <- (firstn_all Generator.mappings), page_rounds_safe by done.
  f_equal. by apply page_files_safe.
Qed.

End PageSafe.

Section Absent.

Lemma field_shown_absent (row : rowObj) (k : nat)
    (entry : jsstring * jsstring) :
  Generator.mappings !! k = Some entry ->
  row !! entry.1 = None \/ row !! entry.1 = Some [] ->
  field_shown row k = entry.2.
Proof.
  intros Hk Habs. unfold field_shown.
  by rewrite Hk, (get_or_absent row _ Habs).
Qed.

Lemma page_filled_holds (row : rowObj) (k : nat) (parts : list part) :
  Field k ∈ parts -> occurs_in (field_shown row k) (page_filled row parts).
Proof.
  intros Hin. apply list_elem_of_split in Hin as (before & after & ->).
  exists (page_filled row before), (page_filled row after).
  unfold page_filled. by rewrite flat_map_app.
Qed.

End Absent.

Section SafeChecks.

Lemma begins_none_inert (p piece : jsstring) :
  begins_none p piece = true -> inert p piece.
Proof.
  unfold begins_none. rewrite forallb_forall. intros Hall i rest Hi.
  apply clash_strip, Hall, in_seq. lia.
Qed.

Lemma token_free_check (piece : jsstring) :
  begins_no_token (map placeholder_of GeneratorDocx.mappings) piece = true ->
  token_free piece.
Proof.
  unfold begins_no_token. rewrite forallb_forall. intros Hall entry Hin.
  apply begins_none_inert, Hall, in_map. by apply list_elem_of_In.
Qed.

Lemma token_free_page_check (piece : jsstring) :
  begins_no_token tokens piece = true -> token_free_page piece.
Proof.
  unfold begins_no_token. rewrite forallb_forall. intros Hall token Hin.
  by apply begins_none_inert, Hall, list_elem_of_In.
Qed.

Lemma values_safe_check (row : rowObj) :
  forallb
    (fun entry : jsstring * jsstring =>
       begins_no_token (map placeholder_of GeneratorDocx.mappings)
         (get_or row entry.1 []))
    GeneratorDocx.mappings = true ->
  values_safe row.
Proof.
  rewrite forallb_forall. intros Hall entry Hin.
  by apply token_free_check, Hall, list_elem_of_In.
Qed.

Lemma row_safe_check (row : rowObj) :
  forallb
    (fun entry : jsstring * jsstring =>
       begins_no_token tokens (get_or row entry.1 []))
    Generator.mappings = true ->
  row_safe row.
Proof.
  rewrite forallb_forall. intros Hall entry Hin.
  by apply token_free_page_check, Hall, list_elem_of_In.
Qed.

End SafeChecks.

(** C1, as the code has it.  [fillHtmlTemplate] puts the escaped
    value, the empty string for a field that is absent or empty, in
    the place of every token: on a template made of placeholder tokens
    and of text in which no placeholder begins, and a record in whose
    mapped values none begins, the result is the template with each
    token replaced, and no placeholder token is left in it; brackets
    that begin no placeholder may stand anywhere.  [fillTemplate] does
    otherwise: on such a template it replaces the token of a field
    that has a value by the escaped value and puts the placeholder
    back for a field that is absent or empty, so that token is still
    in the markup it returns; and with every mapped field absent or
    empty its loop returns any template as it was. *)
Theorem preview_fill_absent_fields (row : rowObj) (segs : list segment)
    (parts : list part) :
  Forall segment_safe segs ->
  values_safe row ->
  Forall part_safe parts ->
  row_safe row ->
  page parts <> [] ->
  GeneratorDocx.fillHtmlTemplate (Some (template_text segs)) row
  = filled_text row segs
  /\ (forall entry, entry ∈ GeneratorDocx.mappings ->
        row !! entry.1 = None \/ row !! entry.1 = Some [] ->
        escaped_value row entry = [])
  /\ (forall entry, entry ∈ GeneratorDocx.mappings ->
        ~ occurs_in (placeholder_of entry)
            (GeneratorDocx.fillHtmlTemplate (Some (template_text segs)) row))
  /\ map snd Generator.mappings = map placeholder_of GeneratorDocx.mappings
  /\ Generator.fillTemplate (Some (page parts)) row
     = Normal (page_filled row parts)
  /\ (forall k entry, Generator.mappings !! k = Some entry ->
        row !! entry.1 = None \/ row !! entry.1 = Some [] ->
        field_shown row k = entry.2
        /\ (Field k ∈ parts -> occurs_in entry.2 (page_filled row parts)))
  /\ (forall k entry c value, Generator.mappings !! k = Some entry ->
        get_or row entry.1 [] = c :: value ->
        field_shown row k = Generator.escapeHtml (c :: value))
  /\ (forall template,
        (forall entry, entry ∈ Generator.mappings ->
           row !! entry.1 = None \/ row !! entry.1 = Some []) ->
        fold_left (Generator.fill_one row) Generator.mappings template
        = template
        /\ (template <> [] ->
            ~ occurs_in Generator.fileMappings_placeholder template ->
            Generator.fillTemplate (Some template) row = Normal template)).
Proof.
  intros Hsegs Hrow Hparts Hrow' Hne. repeat apply conj.
  - by apply fillHtmlTemplate_safe.
  - intros entry _ Habs. unfold escaped_value.
    by rewrite (get_or_absent row _ Habs).
  - intros entry Hin. rewrite fillHtmlTemplate_safe by done.
    apply inert_no_occurrence; [done|]. by apply filled_text_safe.
  - vm_compute. reflexivity.
  - by apply fillTemplate_safe.
  - intros k entry Hk Habs.
    pose proof (field_shown_absent row k entry Hk Habs) as E.
    split; [exact E|]. intros Hin. rewrite <- E. by apply page_filled_holds.
  - intros k entry c value Hk E. unfold field_shown. by rewrite Hk, E.
  - intros template Habs.
    assert (Hloop : fold_left (Generator.fill_one row) Generator.mappings template
                    = template).
    { apply fill_all_absent; [|done]. by repeat constructor. }
    split; [done|]. intros Hne' Hfiles.
    unfold Generator.fillTemplate. destruct template as [|c template]; [done|].
    cbn [falsy]. rewrite Hloop. f_equal.
    change (join ?v (split ?p ?s)) with (replace_all p v s).
    rewrite replace_all_cut by done.
    destruct (cut _ _) as [[before after]|] eqn:E; [|done].
    exfalso. apply Hfiles. exists before, after. by apply cut_Some in E.
Qed.

(** C1, at a template with a bracket in its style sheet and two
    tokens, and a record that has a Client with brackets in it and no
    date. *)
Lemma preview_fill_absent_fields_witness :
  let row : rowObj := {[ lit "Client" := lit "Room [A]" ]} in
  let segs := [Chunk (lit "<style>a[href]{}</style><p>"); Token 0;
               Chunk (lit "</p><p>"); Token 1; Chunk (lit "</p>")] in
  let parts := [Text (lit "<style>a[href]{}</style><p>"); Field 0;
                Text (lit "</p><p>"); Field 1; Text (lit "</p>")] in
  template_text segs
  = lit "<style>a[href]{}</style><p>[INSERT_CLIENT_NAME]</p><p>[INSERT_DATE]</p>"
  /\ page parts = template_text segs
  /\ GeneratorDocx.fillHtmlTemplate (Some (template_text segs)) row
     = filled_text row segs
  /\ filled_text row segs
     = lit "<style>a[href]{}</style><p>Room [A]</p><p></p>"
  /\ Generator.fillTemplate (Some (page parts)) row
     = Normal (page_filled row parts)
  /\ page_filled row parts
     = lit "<style>a[href]{}</style><p>Room [A]</p><p>[INSERT_DATE]</p>".
Proof.
  intros row segs parts.
  destruct (preview_fill_absent_fields row segs parts)
    as (Hdocx & _ & _ & _ & Hhtml & _).
  - repeat constructor; try (cbn; lia);
      apply token_free_check; vm_compute; reflexivity.
  - apply values_safe_check. vm_compute. reflexivity.
  - repeat constructor; try (cbn; lia);
      apply token_free_page_check; vm_compute; reflexivity.
  - apply row_safe_check. vm_compute. reflexivity.
  - done.
  - split; [vm_compute; reflexivity|]. split; [vm_compute; reflexivity|].
    split; [exact Hdocx|]. split; [vm_compute; reflexivity|].
    split; [exact Hhtml|]. vm_compute. reflexivity.
Defined.

(** C1 as claimed fails: [fillTemplate] leaves the token of an absent
    field in the markup; [fillHtmlTemplate] leaves one when the
    template holds a token inside a token, or when a value that is
    filled in later spells the token of an absent field. *)
Lemma fill_leaves_placeholder :
  Generator.fillTemplate (Some (lit "<p>[INSERT_DATE]</p>")) ∅
  = Normal (lit "<p>[INSERT_DATE]</p>")
  /\ GeneratorDocx.fillHtmlTemplate (Some (lit "[INSERT_[INSERT_DATE]DATE]")) ∅
     = lit "[INSERT_DATE]"
  /\ GeneratorDocx.fillHtmlTemplate (Some (lit "[INSERT_DATE]"))
       {[ lit "Desired Completion Date" := lit "[INSERT_CLIENT_NAME]" ]}
     = lit "[INSERT_CLIENT_NAME]".
Proof. repeat split; vm_compute; reflexivity. Qed.
